(** * Memory subsystem of chatbot-cli-map: a shallow embedding

    Sources embedded here:
    - [src/hybrid_memory_service.py]: [MessageImportanceClassifier],
      [HybridMemoryService] (store and retrieve paths, recency buffer,
      compaction);
    - [src/backend/memory_service.py]: [MemoryService._normalize_text],
      [_make_memory_id], [store_memory], [retrieve_memories],
      [store_conversation_turn] and its rule-based helpers;
    - [src/main.py]: [_prune_history].

    Conventions.
    - A Python [str] is a [string] whose characters are code points below
      256 (Latin-1); the character tables of the Python library ([str.lower],
      [str.isspace], the [\w], [\d] and [.] classes of [re]) are written out
      for that range.
    - A Python [float] is a binary64 [float] of the kernel.
    - A naive [datetime] is the number of microseconds since
      0001-01-01T00:00:00.
    - The external services (clock, embedding model, language model) are
      fields of a [World]; the vector index is a finite map from ids to
      records. *)

From Stdlib Require Import ZArith NArith List String Ascii Bool Lia Floats Permutation.
From Stdlib Require Sorted DecimalString.
From stdpp Require Import base option list gmap strings.

#[local] Set Warnings "-inexact-float".

(* ------------------------------------------------------------------ *)
(** ** Python strings *)

Module Text.

Definition code (c : ascii) : N := N_of_ascii c.

Definition in_range (lo hi : N) (c : ascii) : bool :=
  (lo <=? code c)%N && (code c <=? hi)%N.

(** [str.isspace] on code points below 256; [str.split()] and
    [str.strip()] use the same set. *)
Definition isspace (c : ascii) : bool :=
  in_range 9 13 c || in_range 28 32 c || (code c =? 133)%N || (code c =? 160)%N.

(** The [\w] class of [re] on [str] patterns: alphanumeric or underscore. *)
Definition isword (c : ascii) : bool :=
  in_range 48 57 c || in_range 65 90 c || (code c =? 95)%N || in_range 97 122 c
  || (code c =? 170)%N || in_range 178 179 c || (code c =? 181)%N
  || in_range 185 186 c || in_range 188 190 c
  || in_range 192 214 c || in_range 216 246 c || in_range 248 255 c.

(** The [\d] class. *)
Definition isdigit (c : ascii) : bool := in_range 48 57 c.

Definition lower_char (c : ascii) : ascii :=
  if in_range 65 90 c || in_range 192 214 c || in_range 216 222 c
  then ascii_of_N (code c + 32) else c.

(** [s.lower()] *)
Fixpoint lower (s : string) : string :=
  match s with
  | EmptyString => EmptyString
  | String c t => String (lower_char c) (lower t)
  end.

Fixpoint rev_acc (acc s : string) : string :=
  match s with
  | EmptyString => acc
  | String c t => rev_acc (String c acc) t
  end.

Definition rev (s : string) : string := rev_acc EmptyString s.

Definition is_empty (s : string) : bool :=
  match s with EmptyString => true | _ => false end.

(** [cur] is the word being read, most recent character first. *)
Fixpoint split_aux (cur s : string) : list string :=
  match s with
  | EmptyString => if is_empty cur then [] else [rev cur]
  | String c t =>
      if isspace c
      then (if is_empty cur then split_aux EmptyString t
            else rev cur :: split_aux EmptyString t)
      else split_aux (String c cur) t
  end.

(** [s.split()]: the maximal runs of non-whitespace characters. *)
Definition split (s : string) : list string := split_aux EmptyString s.

Fixpoint lstrip (s : string) : string :=
  match s with
  | String c t => if isspace c then lstrip t else s
  | EmptyString => EmptyString
  end.

(** [s.strip()] *)
Definition strip (s : string) : string := rev (lstrip (rev (lstrip s))).

(** [s.startswith(p)] *)
Fixpoint startswith (p s : string) : bool :=
  match p, s with
  | EmptyString, _ => true
  | String a p', String b s' => Ascii.eqb a b && startswith p' s'
  | String _ _, EmptyString => false
  end.

(** [p in s] for strings. *)
Fixpoint contains (p s : string) : bool :=
  startswith p s ||
  match s with
  | EmptyString => false
  | String _ t => contains p t
  end.

(** [s.split(sep, 1)] for a one-character separator: the text before the
    first [sep] and the text after it, or [None] when [sep] is absent
    (Python then returns the one-element list). *)
Fixpoint split_once (sep : ascii) (s : string) : option (string * string) :=
  match s with
  | EmptyString => None
  | String c t =>
      if Ascii.eqb c sep then Some (EmptyString, t)
      else match split_once sep t with
           | Some (a, b) => Some (String c a, b)
           | None => None
           end
  end.

(** [s.count(c)] for a one-character [c]. *)
Fixpoint count_char (c : ascii) (s : string) : nat :=
  match s with
  | EmptyString => 0
  | String d t => (if Ascii.eqb c d then 1 else 0) + count_char c t
  end.

(** [s.split(sep)] for a one-character separator. *)
Fixpoint split_on_aux (sep : ascii) (cur s : string) : list string :=
  match s with
  | EmptyString => [rev cur]
  | String c t =>
      if Ascii.eqb c sep then rev cur :: split_on_aux sep EmptyString t
      else split_on_aux sep (String c cur) t
  end.

Definition split_on (sep : ascii) (s : string) : list string :=
  split_on_aux sep EmptyString s.

(** [s[:n]] for [n >= 0]. *)
Fixpoint take (n : nat) (s : string) : string :=
  match n, s with
  | S n', String c t => String c (take n' t)
  | _, _ => EmptyString
  end.

End Text.

(* ------------------------------------------------------------------ *)
(** ** The fragment of [re] used by the classifier's pattern tables *)

Module Re.

(** The constructs that occur in the tables: literals, character sets
    ([[a-zA-Z]], [[oi]], [\d], [.]), [\b], concatenation, [x?], and [+] and
    [*] applied to a character set. *)
Inductive regex : Type :=
| Eps
| Chr (c : ascii)
| Set_ (p : ascii -> bool)
| WordB
| Seq (r1 r2 : regex)
| Opt (r : regex)
| Plus (p : ascii -> bool)
| Star (p : ascii -> bool).

(** A position in the subject: the character before it, if any, and the
    text from it on. *)
Definition pos : Type := option ascii * string.

Definition prev_word (prev : option ascii) : bool :=
  match prev with Some c => Text.isword c | None => false end.

Definition next_word (rest : string) : bool :=
  match rest with String c _ => Text.isword c | EmptyString => false end.

(** [\b]: exactly one side of the position is a word character. *)
Definition at_boundary (prev : option ascii) (rest : string) : bool :=
  xorb (prev_word prev) (next_word rest).

Fixpoint star_set (p : ascii -> bool) (prev : option ascii) (rest : string)
  : list pos :=
  (prev, rest) ::
  match rest with
  | String c t => if p c then star_set p (Some c) t else []
  | EmptyString => []
  end.

(** All the positions at which a match of [r] started at [(prev, rest)]
    can end. *)
Fixpoint ends (r : regex) (prev : option ascii) (rest : string) : list pos :=
  match r with
  | Eps => [(prev, rest)]
  | Chr c =>
      match rest with
      | String d t => if Ascii.eqb c d then [(Some d, t)] else []
      | EmptyString => []
      end
  | Set_ p =>
      match rest with
      | String d t => if p d then [(Some d, t)] else []
      | EmptyString => []
      end
  | WordB => if at_boundary prev rest then [(prev, rest)] else []
  | Seq r1 r2 =>
      flat_map (fun q : pos => ends r2 (fst q) (snd q)) (ends r1 prev rest)
  | Opt r1 => (prev, rest) :: ends r1 prev rest
  | Plus p =>
      match rest with
      | String d t => if p d then star_set p (Some d) t else []
      | EmptyString => []
      end
  | Star p => star_set p prev rest
  end.

Definition matches_at (r : regex) (prev : option ascii) (rest : string) : bool :=
  match ends r prev rest with [] => false | _ :: _ => true end.

Fixpoint search_from (r : regex) (prev : option ascii) (rest : string) : bool :=
  matches_at r prev rest ||
  match rest with
  | String c t => search_from r (Some c) t
  | EmptyString => false
  end.

(** The truth value of [re.search(r, s)]. *)
Definition search (r : regex) (s : string) : bool := search_from r None s.

(** A literal run of characters. *)
Fixpoint lit (s : string) : regex :=
  match s with
  | EmptyString => Eps
  | String c t => Seq (Chr c) (lit t)
  end.

Definition letter (c : ascii) : bool :=
  Text.in_range 97 122 c || Text.in_range 65 90 c.

Definition one_of (s : string) (c : ascii) : bool :=
  existsb (Ascii.eqb c) (list_ascii_of_string s).

(** [.] matches anything but a newline. *)
Definition dot (c : ascii) : bool := negb (Text.code c =? 10)%N.

(** [\bw\b] for a literal [w]. *)
Definition word (w : string) : regex := Seq WordB (Seq (lit w) WordB).

(** [\bw\b.*\?] *)
Definition asks (w : regex) : regex :=
  Seq WordB (Seq w (Seq WordB (Seq (Star dot) (Chr "?")))).

End Re.

(* ------------------------------------------------------------------ *)
(** ** [MessageImportanceClassifier] *)

Inductive ImportanceLevel : Type := LOW | MEDIUM | HIGH.

(** [ImportanceLevel.value] *)
Definition importance_value (i : ImportanceLevel) : string :=
  match i with LOW => "low" | MEDIUM => "medium" | HIGH => "high" end.

Module Classifier.
Import Re.

(** A pattern of the tables: its source text, as recorded in the
    [patterns_matched] evidence, and the expression it denotes. *)
Record pattern : Type := Pattern { src : string; re : regex }.

Definition e_acute : ascii := ascii_of_N 233.

Definition personal_patterns : list pattern :=
  [ Pattern "\bmi chiamo\b" (word "mi chiamo");
    Pattern "\bil mio nome\b" (word "il mio nome");
    Pattern "\bsono [a-zA-Z]+\b"
      (Seq WordB (Seq (lit "sono ") (Seq (Plus letter) WordB)));
    Pattern "\blavoro come\b" (word "lavoro come");
    Pattern "\bfaccio il\b" (word "faccio il");
    Pattern "\bstudio\b" (word "studio");
    Pattern "\babito\b" (word "abito");
    Pattern "\bho \d+ anni\b"
      (Seq WordB (Seq (lit "ho ") (Seq (Plus Text.isdigit) (Seq (lit " anni") WordB))));
    Pattern "\bsono nato\b" (word "sono nato");
    Pattern "\bvivo a\b" (word "vivo a");
    Pattern "\bmi piace\b" (word "mi piace");
    Pattern "\bamo\b" (word "amo");
    Pattern "\bodio\b" (word "odio");
    Pattern "\bdetesto\b" (word "detesto");
    Pattern "\bpreferisc[oi]\b"
      (Seq WordB (Seq (lit "preferisc") (Seq (Set_ (one_of "oi")) WordB)));
    Pattern "\bmia passione\b" (word "mia passione");
    Pattern "\bmio hobby\b" (word "mio hobby");
    Pattern "\bsono allergico\b" (word "sono allergico");
    Pattern "\bnon posso mangiare\b" (word "non posso mangiare") ].

Definition decision_patterns : list pattern :=
  [ Pattern "\bdecido\b" (word "decido");
    Pattern "\bscelgo\b" (word "scelgo");
    Pattern "\bvoglio\b" (word "voglio");
    Pattern "\bdevo\b" (word "devo");
    Pattern "\bricordati\b" (word "ricordati");
    Pattern "\bimportante\b" (word "importante");
    Pattern "\bnon dimenticare\b" (word "non dimenticare");
    Pattern "\bpiano\b" (word "piano");
    Pattern "\bobbiettivo\b" (word "obbiettivo");
    Pattern "\bstrategia\b" (word "strategia") ].

Definition technical_patterns : list pattern :=
  [ Pattern "\bprogetto\b" (word "progetto");
    Pattern "\bcodice\b" (word "codice");
    Pattern "\bapi\b" (word "api");
    Pattern "\bdatabase\b" (word "database");
    Pattern "\bfunzione\b" (word "funzione");
    Pattern "\balgoritmo\b" (word "algoritmo");
    Pattern "\barchitettura\b" (word "architettura");
    Pattern "\berr?ore\b"
      (Seq WordB (Seq (lit "er") (Seq (Opt (Chr "r")) (Seq (lit "ore") WordB))));
    Pattern "\bbug\b" (word "bug");
    Pattern "\bproblema\b" (word "problema");
    Pattern "\bsoluzione\b" (word "soluzione") ].

Definition question_patterns : list pattern :=
  [ Pattern "\bcome\b.*\?" (asks (lit "come"));
    Pattern ("\bperch[e" +:+ String e_acute "]\b.*\?")
      (asks (Seq (lit "perch") (Set_ (one_of (String "e" (String e_acute EmptyString))))));
    Pattern "\bdove\b.*\?" (asks (lit "dove"));
    Pattern "\bquando\b.*\?" (asks (lit "quando"));
    Pattern "\bcosa\b.*\?" (asks (lit "cosa"));
    Pattern "\bquale\b.*\?" (asks (lit "quale")) ].

Definition low_patterns : list pattern :=
  [ Pattern "\bciao\b" (word "ciao");
    Pattern "\bgrazie\b" (word "grazie");
    Pattern "\bprego\b" (word "prego");
    Pattern "\bva bene\b" (word "va bene");
    Pattern "\bsi\b" (word "si");
    Pattern "\bno\b" (word "no");
    Pattern "\bok\b" (word "ok");
    Pattern "\bd'accordo\b" (word "d'accordo");
    Pattern "\bperfetto\b" (word "perfetto") ].

(** [[p for p in patterns if re.search(p, message_lower)]] *)
Definition matches (patterns : list pattern) (message_lower : string)
  : list pattern :=
  List.filter (fun p => search (re p) message_lower) patterns.

(** Truth value of a list. *)
Definition truthy {A} (l : list A) : bool :=
  match l with [] => false | _ :: _ => true end.

(** The [reasoning] dictionary. *)
Record Reasoning : Type := mkReasoning {
  patterns_matched : list string;
  factors : list string;
  final_score : float
}.

(** The running values of [classify]: the score and the two evidence
    lists. *)
Definition acc : Type := float * list string * list string.

(** One pattern group: [if ms: score += w; ...extend(ms); ...append(f)]. *)
Definition add_group (ms : list pattern) (w : float) (factor : string) (a : acc)
  : acc :=
  let '(score, pm, fs) := a in
  if truthy ms then ((score + w)%float, pm ++ map src ms, fs ++ [factor])
  else a.

Definition scale (c : bool) (w : float) (factor : string) (a : acc) : acc :=
  let '(score, pm, fs) := a in
  if c then ((score * w)%float, pm, fs ++ [factor]) else a.

(** [len(message.split())] *)
Definition word_count (message : string) : nat := length (Text.split message).

Definition length_factor (wc : nat) (a : acc) : acc :=
  let '(score, pm, fs) := a in
  if 20 <? wc then ((score + 0.2)%float, pm, fs ++ ["long_message"])
  else if wc <? 5 then ((score * 0.8)%float, pm, fs ++ ["short_message"])
  else a.

(** [min(1.0, score)] *)
Definition min1 (score : float) : float :=
  if (score <? 1.0)%float then score else 1.0%float.

Definition level_of (score : float) : ImportanceLevel :=
  if (0.7 <=? score)%float then HIGH
  else if (0.4 <=? score)%float then MEDIUM
  else LOW.

Definition classify (message : string) : ImportanceLevel * float * Reasoning :=
  let message_lower := Text.lower message in
  let a : acc := (0.0%float, [], []) in
  let a := add_group (matches personal_patterns message_lower) 0.8 "personal_info" a in
  let a := add_group (matches decision_patterns message_lower) 0.6 "decision_action" a in
  let a := add_group (matches technical_patterns message_lower) 0.4 "technical_content" a in
  let a := add_group (matches question_patterns message_lower) 0.3 "question" a in
  let low_matches := matches low_patterns message_lower in
  let a := scale (truthy low_matches && (word_count message <=? 3)) 0.3
             "low_importance" a in
  let a := length_factor (word_count message) a in
  let '(score, pm, fs) := a in
  let score := min1 score in
  (level_of score, score, mkReasoning pm fs score).

Definition score_of (message : string) : float := snd (fst (classify message)).
Definition importance_of (message : string) : ImportanceLevel :=
  fst (fst (classify message)).

(** The score as a function of which groups fired and of the length
    tests, in the order [classify] applies them. *)
Definition core (personal decision technical question short_filler long short : bool)
  : float :=
  let s := 0.0%float in
  let s := if personal then (s + 0.8)%float else s in
  let s := if decision then (s + 0.6)%float else s in
  let s := if technical then (s + 0.4)%float else s in
  let s := if question then (s + 0.3)%float else s in
  let s := if short_filler then (s * 0.3)%float else s in
  let s := if long then (s + 0.2)%float
           else if short then (s * 0.8)%float else s in
  min1 s.

(** Whether a group fires on a message. *)
Definition fires (patterns : list pattern) (message : string) : bool :=
  truthy (matches patterns (Text.lower message)).

(** The dampening condition: a filler pattern in a message of at most
    three words. *)
Definition short_filler (message : string) : bool :=
  fires low_patterns message && (word_count message <=? 3).

(** A test on both truth values. *)
Definition both (f : bool -> bool) : bool := f true && f false.

(** What the level tests need of a score: it is a number between 0 and
    1, so the comparisons with the thresholds are complementary. *)
Definition well_placed (s : float) : bool :=
  (0 <=? s)%float && (s <=? 1)%float
  && Bool.eqb (negb (0.7 <=? s)%float) (s <? 0.7)%float
  && Bool.eqb (negb (0.4 <=? s)%float) (s <? 0.4)%float
  && implb (0.7 <=? s)%float (0.4 <=? s)%float.

End Classifier.


(* ------------------------------------------------------------------ *)
(** ** [hashlib]: MD5 and SHA-1 of the UTF-8 encoding, as hex digests *)

Module Hash.
#[local] Open Scope Z_scope.

Definition mask32 : Z := 0xFFFFFFFF.
Definition w32 (x : Z) : Z := Z.land x mask32.
Definition add32 (a b : Z) : Z := w32 (a + b).
Definition not32 (a : Z) : Z := Z.lxor a mask32.
Definition rotl32 (x n : Z) : Z :=
  w32 (Z.lor (Z.shiftl x n) (Z.shiftr x (32 - n))).

(** [s.encode("utf-8")] for code points below 256. *)
Fixpoint utf8 (s : string) : list Z :=
  match s with
  | EmptyString => []
  | String c t =>
      let n := Z.of_N (N_of_ascii c) in
      if n <? 128 then n :: utf8 t
      else Z.lor 0xC0 (Z.shiftr n 6) :: Z.lor 0x80 (Z.land n 0x3F) :: utf8 t
  end.

Fixpoint le_bytes (n : nat) (x : Z) : list Z :=
  match n with
  | O => []
  | S n' => Z.land x 0xFF :: le_bytes n' (Z.shiftr x 8)
  end.

Definition be_bytes (n : nat) (x : Z) : list Z := List.rev (le_bytes n x).

Definition le_word (bs : list Z) : Z :=
  fold_right (fun b acc => Z.lor b (Z.shiftl acc 8)) 0 bs.

Definition be_word (bs : list Z) : Z :=
  fold_left (fun acc b => Z.lor (Z.shiftl acc 8) b) bs 0.

(** The message, a 1 bit, zeros up to 56 mod 64, then the bit length on
    eight bytes as written by [len_bytes]. *)
Definition pad (len_bytes : Z -> list Z) (msg : list Z) : list Z :=
  let n := Z.of_nat (length msg) in
  msg ++ [0x80] ++ repeat 0 (Z.to_nat ((55 - n) mod 64)) ++ len_bytes (8 * n).

Fixpoint groups_aux {A} (fuel k : nat) (l : list A) : list (list A) :=
  match fuel, l with
  | O, _ | _, [] => []
  | S fuel', _ => firstn k l :: groups_aux fuel' k (skipn k l)
  end.

(** Consecutive groups of [k] elements. *)
Definition groups {A} (k : nat) (l : list A) : list (list A) :=
  groups_aux (length l) k l.

Definition hex_digit (d : Z) : ascii :=
  if d <? 10 then ascii_of_N (Z.to_N (48 + d)) else ascii_of_N (Z.to_N (87 + d)).

Fixpoint hex (bs : list Z) : string :=
  match bs with
  | [] => EmptyString
  | b :: t => String (hex_digit (Z.shiftr b 4)) (String (hex_digit (Z.land b 0xF)) (hex t))
  end.

Definition md5_K : list Z :=
  [ 0xd76aa478; 0xe8c7b756; 0x242070db; 0xc1bdceee;
    0xf57c0faf; 0x4787c62a; 0xa8304613; 0xfd469501;
    0x698098d8; 0x8b44f7af; 0xffff5bb1; 0x895cd7be;
    0x6b901122; 0xfd987193; 0xa679438e; 0x49b40821;
    0xf61e2562; 0xc040b340; 0x265e5a51; 0xe9b6c7aa;
    0xd62f105d; 0x02441453; 0xd8a1e681; 0xe7d3fbc8;
    0x21e1cde6; 0xc33707d6; 0xf4d50d87; 0x455a14ed;
    0xa9e3e905; 0xfcefa3f8; 0x676f02d9; 0x8d2a4c8a;
    0xfffa3942; 0x8771f681; 0x6d9d6122; 0xfde5380c;
    0xa4beea44; 0x4bdecfa9; 0xf6bb4b60; 0xbebfbc70;
    0x289b7ec6; 0xeaa127fa; 0xd4ef3085; 0x04881d05;
    0xd9d4d039; 0xe6db99e5; 0x1fa27cf8; 0xc4ac5665;
    0xf4292244; 0x432aff97; 0xab9423a7; 0xfc93a039;
    0x655b59c3; 0x8f0ccc92; 0xffeff47d; 0x85845dd1;
    0x6fa87e4f; 0xfe2ce6e0; 0xa3014314; 0x4e0811a1;
    0xf7537e82; 0xbd3af235; 0x2ad7d2bb; 0xeb86d391 ].

Definition md5_S : list Z :=
  [ 7; 12; 17; 22; 7; 12; 17; 22; 7; 12; 17; 22; 7; 12; 17; 22;
    5; 9; 14; 20; 5; 9; 14; 20; 5; 9; 14; 20; 5; 9; 14; 20;
    4; 11; 16; 23; 4; 11; 16; 23; 4; 11; 16; 23; 4; 11; 16; 23;
    6; 10; 15; 21; 6; 10; 15; 21; 6; 10; 15; 21; 6; 10; 15; 21 ].

Definition quad : Type := Z * Z * Z * Z.

Definition md5_round (M : list Z) (st : quad) (i : nat) : quad :=
  let '(a, b, c, d) := st in
  let iz := Z.of_nat i in
  let '(f, g) :=
    if iz <? 16 then (Z.lor (Z.land b c) (Z.land (not32 b) d), iz)
    else if iz <? 32 then (Z.lor (Z.land d b) (Z.land (not32 d) c), (5 * iz + 1) mod 16)
    else if iz <? 48 then (Z.lxor (Z.lxor b c) d, (3 * iz + 5) mod 16)
    else (Z.lxor c (Z.lor b (not32 d)), (7 * iz) mod 16) in
  let f := add32 (add32 (add32 f a) (nth i md5_K 0)) (nth (Z.to_nat g) M 0) in
  (d, add32 b (rotl32 f (nth i md5_S 0)), b, c).

Definition md5_chunk (st : quad) (chunk : list Z) : quad :=
  let M := map le_word (groups 4 chunk) in
  let '(a, b, c, d) := st in
  let '(a', b', c', d') := fold_left (md5_round M) (seq 0 64) st in
  (add32 a a', add32 b b', add32 c c', add32 d d').

(** [hashlib.md5(s.encode()).hexdigest()] *)
Definition md5 (s : string) : string :=
  let '(a, b, c, d) :=
    fold_left md5_chunk (groups 64 (pad (le_bytes 8) (utf8 s)))
      (0x67452301, 0xefcdab89, 0x98badcfe, 0x10325476) in
  hex (le_bytes 4 a ++ le_bytes 4 b ++ le_bytes 4 c ++ le_bytes 4 d).

Definition quint : Type := Z * Z * Z * Z * Z.

Definition sha1_schedule (chunk : list Z) : list Z :=
  fold_left
    (fun w i =>
       w ++ [rotl32 (Z.lxor (Z.lxor (nth (i - 3) w 0) (nth (i - 8) w 0))
                            (Z.lxor (nth (i - 14) w 0) (nth (i - 16) w 0))) 1])
    (seq 16 64) (map be_word (groups 4 chunk)).

Definition sha1_round (W : list Z) (st : quint) (i : nat) : quint :=
  let '(a, b, c, d, e) := st in
  let iz := Z.of_nat i in
  let '(f, k) :=
    if iz <? 20 then (Z.lor (Z.land b c) (Z.land (not32 b) d), 0x5A827999)
    else if iz <? 40 then (Z.lxor (Z.lxor b c) d, 0x6ED9EBA1)
    else if iz <? 60 then
      (Z.lor (Z.lor (Z.land b c) (Z.land b d)) (Z.land c d), 0x8F1BBCDC)
    else (Z.lxor (Z.lxor b c) d, 0xCA62C1D6) in
  let temp := add32 (add32 (add32 (add32 (rotl32 a 5) f) e) k) (nth i W 0) in
  (temp, a, rotl32 b 30, c, d).

Definition sha1_chunk (st : quint) (chunk : list Z) : quint :=
  let W := sha1_schedule chunk in
  let '(a, b, c, d, e) := st in
  let '(a', b', c', d', e') := fold_left (sha1_round W) (seq 0 80) st in
  (add32 a a', add32 b b', add32 c c', add32 d d', add32 e e').

(** [hashlib.sha1(s.encode("utf-8")).hexdigest()] *)
Definition sha1 (s : string) : string :=
  let '(a, b, c, d, e) :=
    fold_left sha1_chunk (groups 64 (pad (be_bytes 8) (utf8 s)))
      (0x67452301, 0xEFCDAB89, 0x98BADCFE, 0x10325476, 0xC3D2E1F0) in
  hex (be_bytes 4 a ++ be_bytes 4 b ++ be_bytes 4 c ++ be_bytes 4 d ++ be_bytes 4 e).

End Hash.

(* ------------------------------------------------------------------ *)
(** ** Naive [datetime] values *)

Module Datetime.
#[local] Open Scope Z_scope.

(** Microseconds since 0001-01-01T00:00:00 on the proleptic Gregorian
    calendar; the library's range check (years 1 to 9999) is left out. *)
Definition datetime : Type := Z.

Definition us_per_second : Z := 1000000.
Definition us_per_day : Z := 86400 * us_per_second.

(** [timedelta(days=d)] *)
Definition timedelta_days (d : Z) : Z := d * us_per_day.

Definition is_leap (y : Z) : bool :=
  (y mod 4 =? 0) && (negb (y mod 100 =? 0) || (y mod 400 =? 0)).

Definition days_in_month (y m : Z) : Z :=
  if m =? 2 then (if is_leap y then 29 else 28)
  else if (m =? 4) || (m =? 6) || (m =? 9) || (m =? 11) then 30
  else 31.

Definition days_before_year (y : Z) : Z :=
  let y1 := y - 1 in y1 * 365 + y1 / 4 - y1 / 100 + y1 / 400.

Definition days_before_month (y m : Z) : Z :=
  fold_left (fun acc k => acc + days_in_month y (Z.of_nat k))
            (seq 1 (Z.to_nat (m - 1))) 0.

(** The ordinal of a date, 1 for 0001-01-01. *)
Definition ymd2ord (y m d : Z) : Z :=
  days_before_year y + days_before_month y m + d.

(** The date of an ordinal, by the division steps of the library. *)
Definition ord2ymd (ordinal : Z) : Z * Z * Z :=
  let n := ordinal - 1 in
  let n400 := n / 146097 in
  let n := n mod 146097 in
  let n100 := n / 36524 in
  let n := n mod 36524 in
  let n4 := n / 1461 in
  let n := n mod 1461 in
  let n1 := n / 365 in
  let n := n mod 365 in
  let year := n400 * 400 + 1 + n100 * 100 + n4 * 4 + n1 in
  if (n1 =? 4) || (n100 =? 4) then (year - 1, 12, 31)
  else
    let month := fold_left
                   (fun m k => if days_before_month year (Z.of_nat k) <=? n
                               then Z.of_nat k else m)
                   (seq 1 12) 1 in
    (year, month, n - days_before_month year month + 1).

Definition digit_char (d : Z) : ascii := ascii_of_N (Z.to_N (48 + d mod 10)).

(** [n] written on exactly [k] decimal digits. *)
Fixpoint digits (k : nat) (n : Z) : string :=
  match k with
  | O => EmptyString
  | S k' => digits k' (n / 10) +:+ String (digit_char n) EmptyString
  end.

(** [t.isoformat()] *)
Definition isoformat (t : datetime) : string :=
  let days := t / us_per_day in
  let rest := t mod us_per_day in
  let '(y, m, d) := ord2ymd (days + 1) in
  let secs := rest / us_per_second in
  let us := rest mod us_per_second in
  digits 4 y +:+ "-" +:+ digits 2 m +:+ "-" +:+ digits 2 d +:+ "T"
    +:+ digits 2 (secs / 3600) +:+ ":" +:+ digits 2 (secs / 60 mod 60)
    +:+ ":" +:+ digits 2 (secs mod 60)
    +:+ (if us =? 0 then "" else "." +:+ digits 6 us).

Fixpoint number_aux (acc : Z) (s : string) : option Z :=
  match s with
  | EmptyString => Some acc
  | String c t =>
      if Text.isdigit c
      then number_aux (10 * acc + (Z.of_N (N_of_ascii c) - 48)) t
      else None
  end.

(** A non-empty run of decimal digits. *)
Definition number (s : string) : option Z :=
  match s with EmptyString => None | _ => number_aux 0 s end.

Definition field (start len : nat) (s : string) : option Z :=
  number (substring start len s).

Definition char_at (i : nat) (c : ascii) (s : string) : bool :=
  match get i s with Some d => Ascii.eqb c d | None => false end.

(** [datetime.fromisoformat(s)] on the two forms [isoformat] writes,
    [YYYY-MM-DDTHH:MM:SS] and [YYYY-MM-DDTHH:MM:SS.ffffff]; [None] stands
    for [ValueError], and is also the answer on the other forms the
    library reads. *)
Definition fromisoformat (s : string) : option datetime :=
  let n := String.length s in
  if negb ((n =? 19)%nat || (n =? 26)%nat) then None
  else if negb (char_at 4 "-" s && char_at 7 "-" s && char_at 10 "T" s
                && char_at 13 ":" s && char_at 16 ":" s) then None
  else if (n =? 26)%nat && negb (char_at 19 "." s) then None
  else
    y ← field 0 4 s; m ← field 5 2 s; d ← field 8 2 s;
    hh ← field 11 2 s; mm ← field 14 2 s; ss ← field 17 2 s;
    us ← (if (n =? 26)%nat then field 20 6 s else Some 0);
    if (1 <=? y) && (1 <=? m) && (m <=? 12) && (1 <=? d)
       && (d <=? days_in_month y m) && (hh <=? 23) && (mm <=? 59) && (ss <=? 59)
    then Some ((ymd2ord y m d - 1) * us_per_day
               + (hh * 3600 + mm * 60 + ss) * us_per_second + us)
    else None.

(** The instant of a civil date and time. *)
Definition make (y m d hh mm ss : Z) : datetime :=
  (ymd2ord y m d - 1) * us_per_day + (hh * 3600 + mm * 60 + ss) * us_per_second.

End Datetime.

(* ------------------------------------------------------------------ *)
(** ** Values, items and the external services *)

(** The scalar values a metadata dictionary holds. *)
Inductive PyVal : Type :=
| VNone
| VBool (b : bool)
| VInt (z : Z)
| VFloat (f : float)
| VStr (s : string).

(** [bool(v)] *)
Definition truthy (v : PyVal) : bool :=
  match v with
  | VNone => false
  | VBool b => b
  | VInt z => negb (z =? 0)%Z
  | VFloat f => negb (f =? 0)%float
  | VStr s => negb (Text.is_empty s)
  end.

(** [v == True] *)
Definition eq_True (v : PyVal) : bool :=
  match v with
  | VBool b => b
  | VInt z => (z =? 1)%Z
  | VFloat f => (f =? 1)%float
  | _ => false
  end.

(** [v == s] for a string [s]. *)
Definition eq_str (v : PyVal) (s : string) : bool :=
  match v with VStr t => String.eqb t s | _ => false end.

Definition is_None (v : PyVal) : bool :=
  match v with VNone => true | _ => false end.

(** [d.get(k)], [None] when the key is missing. *)
Definition dict_get (d : gmap string PyVal) (k : string) : PyVal :=
  default VNone (d !! k).

Inductive StorageTier : Type := RECENT | IMPORTANT | MEDIUM_TERM | COMPRESSED | GLOBAL.

(** [StorageTier.value] *)
Definition tier_value (t : StorageTier) : string :=
  match t with
  | RECENT => "recent"
  | IMPORTANT => "important"
  | MEDIUM_TERM => "medium"
  | COMPRESSED => "compressed"
  | GLOBAL => "global"
  end.

Record HybridMemoryItem : Type := mkItem {
  content : string;
  metadata : gmap string PyVal;
  timestamp : Datetime.datetime;
  conversation_id : string;
  message_type : string;
  importance : ImportanceLevel;
  storage_tier : StorageTier;
  ttl : option Datetime.datetime
}.

(** The fields of [HybridMemoryConfig] the service reads. *)
Record HybridMemoryConfig : Type := mkConfig {
  recent_buffer_size : nat;
  similarity_threshold : float;
  medium_term_ttl_days : Z
}.

Definition default_config : HybridMemoryConfig :=
  mkConfig 50 0.25%float 30.

(** A record of the vector index. *)
Record Vector : Type := mkVector {
  values : list float;
  v_metadata : gmap string PyVal
}.

(** What the world outside answers during one call of the service. *)
Record World : Type := mkWorld {
  (** the successive readings of [datetime.now()] *)
  clock : nat -> Datetime.datetime;
  (** the embedding of a text, [None] when the provider raises *)
  embed : string -> option (list float);
  (** whether [index.upsert] and [index.query] answer or raise *)
  upsert_ok : bool;
  query_ok : bool;
  (** the score the index gives a stored vector for a query vector *)
  similarity : list float -> list float -> float;
  (** the reply of [call_model_once] to the extraction prompt built from a
      message, [None] when the call raises *)
  extraction_reply : string -> option string;
  (** the text of the summarization model for a list of exchanges, [None]
      when the call raises *)
  generate : list (string * string) -> option string
}.

(** Ghost record of what a call did, for the statements about compaction. *)
Inductive Event : Type :=
| CompactionAttempt (conversation : string)
| Summarized (turns : nat).

Record Service : Type := mkService {
  config : HybridMemoryConfig;
  (** the [HybridMemoryItem] objects created so far; a reference is an
      index in this list *)
  heap : list HybridMemoryItem;
  (** [self.recent_buffer]: references, oldest first *)
  recent_buffer : list nat;
  (** the records of the vector index, by id *)
  index : gmap string Vector;
  (** [self.stats] *)
  total_messages : nat;
  summarized_chunks : nat;
  events : list Event
}.

(** [HybridMemoryService(config)], over a given index. *)
Definition new_service (cfg : HybridMemoryConfig) (idx : gmap string Vector) : Service :=
  mkService cfg [] [] idx 0 0 [].

(** [deque(maxlen=n).append(x)] *)
Definition deque_append {A} (maxlen : nat) (d : list A) (x : A) : list A :=
  if (maxlen =? 0)%nat then d
  else let d' := d ++ [x] in
       if (maxlen <? length d')%nat then tail d' else d'.

(* ------------------------------------------------------------------ *)
(** ** A state monad for the calls of the service *)

(** A computation reads and changes the service and counts the clock
    readings made so far in the current call. *)
Definition M (A : Type) : Type := Service * nat -> A * (Service * nat).

Definition ret {A} (a : A) : M A := fun st => (a, st).

Definition bind {A B} (m : M A) (k : A -> M B) : M B :=
  fun st => let '(a, st') := m st in k a st'.

Declare Scope svc_scope.
Delimit Scope svc_scope with svc.
Notation "x <- m ;; k" := (bind m (fun x => k))
  (at level 100, m at level 99, k at level 200, right associativity) : svc_scope.
Notation "m ;; k" := (bind m (fun _ => k))
  (at level 100, k at level 200, right associativity) : svc_scope.

Definition get_service : M Service := fun st => (fst st, st).

Definition modify (f : Service -> Service) : M unit :=
  fun st => (tt, (f (fst st), snd st)).

(** The service after a call that starts with a fresh count of clock
    readings. *)
Definition run {A} (m : M A) (s : Service) : A * Service :=
  let '(a, (s', _)) := m (s, 0) in (a, s').

Fixpoint mapM {A B} (f : A -> M B) (l : list A) : M (list B) :=
  match l with
  | [] => ret []
  | x :: t => (y <- f x ;; ys <- mapM f t ;; ret (y :: ys))%svc
  end.

Definition set_heap (h : list HybridMemoryItem) (s : Service) : Service :=
  mkService (config s) h (recent_buffer s) (index s) (total_messages s)
            (summarized_chunks s) (events s).

Definition set_recent_buffer (b : list nat) (s : Service) : Service :=
  mkService (config s) (heap s) b (index s) (total_messages s)
            (summarized_chunks s) (events s).

Definition set_index (i : gmap string Vector) (s : Service) : Service :=
  mkService (config s) (heap s) (recent_buffer s) i (total_messages s)
            (summarized_chunks s) (events s).

Definition bump_total_messages (s : Service) : Service :=
  mkService (config s) (heap s) (recent_buffer s) (index s) (S (total_messages s))
            (summarized_chunks s) (events s).

Definition bump_summarized_chunks (s : Service) : Service :=
  mkService (config s) (heap s) (recent_buffer s) (index s) (total_messages s)
            (S (summarized_chunks s)) (events s).

Definition record_event (e : Event) (s : Service) : Service :=
  mkService (config s) (heap s) (recent_buffer s) (index s) (total_messages s)
            (summarized_chunks s) (events s ++ [e]).

(** Creating an object: its reference is the next free place of the heap. *)
Definition alloc (item : HybridMemoryItem) : M nat :=
  (s <- get_service ;;
   modify (set_heap (heap s ++ [item])) ;;
   ret (length (heap s)))%svc.

(** The objects behind a list of references. *)
Definition deref (h : list HybridMemoryItem) (refs : list nat) : list HybridMemoryItem :=
  omap (fun r => h !! r) refs.

(** [self.recent_buffer.append(item)] *)
Definition buffer_append (r : nat) : M unit :=
  modify (fun s => set_recent_buffer
                     (deque_append (recent_buffer_size (config s)) (recent_buffer s) r) s).

(* ------------------------------------------------------------------ *)
(** ** [HybridMemoryService]: the store path *)

Definition valid_types : list string :=
  [ "user_name"; "user_age"; "user_location"; "user_job";
    "user_likes"; "user_dislikes"; "user_condition";
    "user_skill"; "user_goal"; "user_experience";
    "user_relationship"; "user_preference" ].

Definition valid_categories : list string :=
  [ "personal"; "work"; "hobby"; "health"; "relationships"; "goals" ].

(** [x in l] for a list of strings. *)
Definition str_in (x : string) (l : list string) : bool :=
  existsb (String.eqb x) l.

(** One line of the model's reply, as [_extract_canonical_facts] reads it:
    the fact it yields, if any. *)
Definition parse_fact_line (line : string) : option string :=
  let line := Text.strip line in
  if Text.contains ":" line && Text.contains "|" line
     && negb (Text.startswith "#" line) && negb (Text.startswith "-" line)
     && negb (Text.startswith "*" line)
  then
    match Text.split_once "|" line with
    | Some (main_part, category_part) =>
        let main_part := Text.strip main_part in
        let category_part := Text.strip category_part in
        if Text.contains ":" main_part && (Text.count_char ":" main_part =? 1)%nat
        then
          match Text.split_once ":" main_part with
          | Some (fact_type, fact_value) =>
              let fact_type := Text.strip fact_type in
              let fact_value := Text.strip fact_value in
              let category :=
                if Text.startswith "category:" category_part
                then match Text.split_once ":" category_part with
                     | Some (_, c) => Text.strip c
                     | None => "general"
                     end
                else "general" in
              let category :=
                if str_in category valid_categories then category else "general" in
              if str_in fact_type valid_types && negb (Text.is_empty fact_value)
              then Some (fact_type +:+ ":" +:+ fact_value +:+ "|" +:+ category)
              else None
          | None => None
          end
        else None
    | None => None
    end
  else None.

(** The body of [_extract_canonical_facts] after the model call. *)
Definition parse_facts (response : string) : list string :=
  if negb (Text.is_empty response) && negb (Text.contains "NO_INFORMATION" response)
  then omap parse_fact_line (Text.split_on (ascii_of_N 10) (Text.strip response))
  else [].

Definition any_in (words : list string) (s : string) : bool :=
  existsb (fun word => Text.contains word s) words.

Fixpoint join (sep : string) (l : list string) : string :=
  match l with
  | [] => ""
  | [x] => x
  | x :: t => x +:+ sep +:+ join sep t
  end.

(** [ConversationSummarizer._create_fallback_summary] *)
Definition _create_fallback_summary (messages : list (string * string)) : string :=
  let key_points :=
    omap (fun m : string * string =>
            let user_msg := fst m in
            if any_in ["chiamo"; "nome"; "sono"; "lavoro"] (Text.lower user_msg)
            then Some ("Info personale: " +:+ Text.take 100 user_msg)
            else if any_in ["progetto"; "app"; "sito"] (Text.lower user_msg)
            then Some ("Progetto: " +:+ Text.take 100 user_msg)
            else if Text.contains "?" user_msg
            then Some ("Domanda: " +:+ Text.take 100 user_msg)
            else None)
         messages in
  join "; " (firstn 5 key_points).

Section Store.
Variable w : World.
#[local] Open Scope svc_scope.

(** [datetime.now()]: the next reading of the clock. *)
Definition now : M Datetime.datetime :=
  fun st => (clock w (snd st), (fst st, S (snd st))).

(** [_extract_canonical_facts]: the facts read from the model's reply, the
    empty list when the call raises. *)
Definition _extract_canonical_facts (message : string) : list string :=
  match extraction_reply w message with
  | Some response => parse_facts response
  | None => []
  end.

(** [ConversationSummarizer.summarize_messages] *)
Definition summarize_messages (messages : list (string * string)) : string :=
  match generate w messages with
  | Some text => Text.strip text
  | None => _create_fallback_summary messages
  end.

(** [_generate_memory_id]: the id hashes the content, the conversation,
    the tier and the instant of the call. *)
Definition _generate_memory_id (content conversation_id tier : string) : M string :=
  t <- now ;;
  ret (Hash.md5 (content +:+ "_" +:+ conversation_id +:+ "_" +:+ tier +:+ "_"
                 +:+ Datetime.isoformat t)).

(** The metadata both store functions send to the index: the item's
    fields, overridden by the item's own metadata without its [None]
    values. *)
Definition stored_metadata (item : HybridMemoryItem) : gmap string PyVal :=
  let filtered_metadata :=
    omap (fun v => if is_None v then None else Some v) (metadata item) in
  filtered_metadata ∪
  list_to_map
    [ ("content", VStr (content item));
      ("timestamp", VStr (Datetime.isoformat (timestamp item)));
      ("conversation_id", VStr (conversation_id item));
      ("message_type", VStr (message_type item));
      ("importance", VStr (importance_value (importance item)));
      ("storage_tier", VStr (tier_value (storage_tier item))) ].

(** [index.upsert]: writes the record under its id, replacing a record
    that has the same id. *)
Definition upsert (id : string) (v : Vector) : M bool :=
  if upsert_ok w
  then modify (fun s => set_index (<[id := v]> (index s)) s) ;; ret true
  else ret false.

(** The metadata of the record: [_store_with_ttl] adds the expiry of an
    item that has one. *)
Definition index_metadata (with_ttl : bool) (item : HybridMemoryItem)
  : gmap string PyVal :=
  let metadata := stored_metadata item in
  match ttl item with
  | Some t => if with_ttl then <["ttl" := VStr (Datetime.isoformat t)]> metadata
              else metadata
  | None => metadata
  end.

(** The shared body of [_store_permanent] and [_store_with_ttl]; an
    exception of the embedding or of the index gives [False]. *)
Definition store_item (with_ttl : bool) (r : nat) : M bool :=
  s <- get_service ;;
  match heap s !! r with
  | None => ret false
  | Some item =>
      match embed w (content item) with
      | None => ret false
      | Some embedding =>
          memory_id <- _generate_memory_id (content item) (conversation_id item)
                         (tier_value (storage_tier item)) ;;
          upsert memory_id (mkVector embedding (index_metadata with_ttl item))
      end
  end.

Definition _store_permanent (r : nat) : M bool := store_item false r.
Definition _store_with_ttl (r : nat) : M bool := store_item true r.

(** The first later assistant item of the conversation, as the inner loop
    of the compactor finds it. *)
Definition find_ai_response (items : list HybridMemoryItem) (conversation : string)
           (item : HybridMemoryItem) : option string :=
  content <$>
    List.find (fun next_item =>
                 String.eqb (conversation_id next_item) conversation
                 && eq_str (dict_get (metadata next_item) "role") "assistant"
                 && (timestamp item <? timestamp next_item)%Z)
              items.

(** The exchanges the compactor pairs up from the buffer. *)
Definition conv_messages (items : list HybridMemoryItem) (conversation : string)
  : list (string * string) :=
  omap (fun item =>
          if String.eqb (conversation_id item) conversation
             && eq_str (dict_get (metadata item) "role") "user"
          then match find_ai_response items conversation item with
               | Some ai_response =>
                   if Text.is_empty ai_response then None
                   else Some (content item, ai_response)
               | None => None
               end
          else None)
       items.

Definition _maybe_summarize_and_compress (conversation : string) : M unit :=
  modify (record_event (CompactionAttempt conversation)) ;;
  s <- get_service ;;
  let msgs := conv_messages (deref (heap s) (recent_buffer s)) conversation in
  if (5 <=? length msgs)%nat
  then
    let summary := summarize_messages msgs in
    t <- now ;;
    r <- alloc (mkItem summary
                  (list_to_map [ ("type", VStr "conversation_summary");
                                 ("original_turns", VInt (Z.of_nat (length msgs))) ])
                  t conversation "summary" MEDIUM COMPRESSED None) ;;
    _ <- _store_permanent r ;;
    modify bump_summarized_chunks ;;
    modify (record_event (Summarized (length msgs)))
  else ret tt.

(** The item built for one extracted fact, [type:value|category], at the
    instant [t]. *)
Definition make_fact_item (metadata : gmap string PyVal) (t : Datetime.datetime)
           (fact : string) : HybridMemoryItem :=
  let '(fact_content, category) :=
    match Text.split_once "|" fact with
    | Some (c, cat) => (c, Text.strip cat)
    | None => (fact, "general")
    end in
  let fact_type :=
    match Text.split_once ":" fact_content with
    | Some (ty, _) => ty
    | None => "general"
    end in
  mkItem fact_content
         (<["fact_type" := VStr fact_type]>
            (<["category" := VStr category]>
               (<["type" := VStr "personal_info"]>
                  (<["role" := VStr "user"]> metadata))))
         t "global" "personal" HIGH GLOBAL None.

Definition fact_item (metadata : gmap string PyVal) (fact : string) : M nat :=
  t <- now ;;
  alloc (make_fact_item metadata t fact).

Definition count_true (l : list bool) : nat :=
  length (List.filter (fun b : bool => b) l).

(** The mutation of the item of a turn without facts, through its
    reference: the buffer holds the same object. *)
Definition set_tier_and_ttl (r : nat) (tier : StorageTier) (t : Datetime.datetime)
  : M unit :=
  modify (fun s =>
            match heap s !! r with
            | Some item =>
                set_heap (<[r := mkItem (content item) (metadata item) (timestamp item)
                                   (conversation_id item) (message_type item)
                                   (importance item) tier (Some t)]> (heap s)) s
            | None => s
            end).

Definition store_conversation_turn
           (user_message ai_response conversation : string)
           (additional_metadata : option (gmap string PyVal)) : M bool :=
  let metadata := default ∅ additional_metadata in
  let canonical_facts := _extract_canonical_facts user_message in
  modify bump_total_messages ;;
  match canonical_facts with
  | _ :: _ =>
      user_items <- mapM (fact_item metadata) canonical_facts ;;
      match user_items with
      | first :: _ => buffer_append first
      | [] => ret tt
      end ;;
      stored <- mapM _store_permanent user_items ;;
      s <- get_service ;;
      (if (length (recent_buffer s) =? recent_buffer_size (config s))%nat
       then _maybe_summarize_and_compress conversation else ret tt) ;;
      ret (1 <=? count_true stored)%nat
  | [] =>
      t <- now ;;
      user_item <- alloc (mkItem user_message (<["role" := VStr "user"]> metadata)
                            t conversation "chat" MEDIUM RECENT None) ;;
      buffer_append user_item ;;
      t' <- now ;;
      s <- get_service ;;
      let ttl_date := (t' + Datetime.timedelta_days (medium_term_ttl_days (config s)))%Z in
      set_tier_and_ttl user_item MEDIUM_TERM ttl_date ;;
      ok <- _store_with_ttl user_item ;;
      s <- get_service ;;
      (if (length (recent_buffer s) =? recent_buffer_size (config s))%nat
       then _maybe_summarize_and_compress conversation else ret tt) ;;
      ret ok
  end.

Definition store_ai_response_manually
           (ai_response conversation user_message : string)
           (additional_metadata : option (gmap string PyVal)) : M bool :=
  let metadata := default ∅ additional_metadata in
  let metadata :=
    <["related_user_message" := VStr user_message]>
      (<["manually_saved" := VBool true]>
         (<["role" := VStr "assistant"]> metadata)) in
  t <- now ;;
  ai_item <- alloc (mkItem ai_response metadata t conversation "chat" HIGH IMPORTANT None) ;;
  _store_permanent ai_item.

End Store.

(* ------------------------------------------------------------------ *)
(** ** The vector index *)

(** A metadata filter of a query: [{key: {"$in": vals}}]. *)
Inductive Filter : Type := FIn (key : string) (vals : list string).

(** An entry of [response.matches]. *)
Record Match : Type := mkMatch {
  match_id : string;
  match_score : float;
  match_metadata : gmap string PyVal
}.

Definition passes (flt : option Filter) (meta : gmap string PyVal) : bool :=
  match flt with
  | None => true
  | Some (FIn key vals) =>
      match meta !! key with
      | Some (VStr s) => str_in s vals
      | _ => false
      end
  end.

Section Sorting.
Context {A K : Type} (key : A -> K) (lt : K -> K -> bool).

Fixpoint insert_desc (x : A) (l : list A) : list A :=
  match l with
  | [] => [x]
  | y :: l' => if lt (key x) (key y) then y :: insert_desc x l' else x :: l
  end.

(** [l.sort(key=key, reverse=True)]: largest key first, elements with
    equal keys in their original order. *)
Definition sort_desc (l : list A) : list A := fold_right insert_desc [] l.
End Sorting.

(** Modelled from the spec: the query of the external vector index, which
    is not part of the repository. It answers the [top_k] best-scoring
    records among those that pass the filter, best first; it raises when
    the index is unreachable or [top_k] is below one. *)
Definition index_query (w : World) (idx : gmap string Vector) (vector : list float)
           (top_k : Z) (flt : option Filter) : option (list Match) :=
  if negb (query_ok w) || (top_k <? 1)%Z then None
  else
    let candidates :=
      List.filter (fun m => passes flt (match_metadata m))
        (map (fun kv : string * Vector =>
                mkMatch (fst kv) (similarity w vector (values (snd kv)))
                        (v_metadata (snd kv)))
             (map_to_list idx)) in
    Some (firstn (Z.to_nat top_k) (sort_desc match_score PrimFloat.ltb candidates)).

(* ------------------------------------------------------------------ *)
(** ** [HybridMemoryService]: the retrieval path *)

(** An entry of the list [retrieve_memories] returns; entries of the
    recency buffer carry no id. *)
Record Memory : Type := mkMemory {
  m_id : option string;
  m_content : PyVal;
  m_score : float;
  m_timestamp : PyVal;
  m_conversation_id : PyVal;
  m_message_type : PyVal;
  m_importance : PyVal;
  m_storage_tier : PyVal;
  m_source : string;
  m_metadata : gmap string PyVal
}.

Definition test_ids : list string := [ "test"; "test_data"; "dummy"; "example" ].

(** The test-data condition on an item of the buffer. *)
Definition is_test_item (item : HybridMemoryItem) : bool :=
  let t := dict_get (metadata item) "test" in
  eq_True t || eq_str t "true"
  || str_in (conversation_id item) test_ids
  || Text.startswith "test-" (conversation_id item)
  || Text.startswith "dummy-" (conversation_id item).

(** [float(n)] for a small natural number. *)
Definition float_of_nat (n : nat) : float :=
  PrimFloat.of_uint63 (Uint63.of_Z (Z.of_nat n)).

Definition words (s : string) : gset string := list_to_set (Text.split (Text.lower s)).

Definition recent_entry (item : HybridMemoryItem) (relevance_score : float) : Memory :=
  mkMemory None (VStr (content item)) relevance_score
           (VStr (Datetime.isoformat (timestamp item)))
           (VStr (conversation_id item)) (VStr (message_type item))
           (VStr (importance_value (importance item)))
           (VStr "recent_buffer") "recent" (metadata item).

(** [bool(conversation_id)] for an optional string. *)
Definition given (conversation : option string) : bool :=
  match conversation with
  | Some c => negb (Text.is_empty c)
  | None => false
  end.

(** The loop of [_search_recent_buffer]; [conversation] is the local
    variable [conversation_id], which the loop body reassigns at every
    item that overlaps the query. *)
Fixpoint search_loop (query_words : gset string) (conversation : option string)
         (items : list HybridMemoryItem) : list Memory :=
  match items with
  | [] => []
  | item :: rest =>
      if given conversation
         && negb (String.eqb (conversation_id item) (default "" conversation))
      then search_loop query_words conversation rest
      else
        let overlap := size (query_words ∩ words (content item)) in
        if (0 <? overlap)%nat
        then
          let conversation := Some (conversation_id item) in
          if is_test_item item then search_loop query_words conversation rest
          else recent_entry item (float_of_nat overlap / float_of_nat (size query_words))%float
               :: search_loop query_words conversation rest
        else search_loop query_words conversation rest
  end.

Definition _search_recent_buffer (s : Service) (query : string)
           (conversation : option string) : list Memory :=
  search_loop (words query) conversation (rev (deref (heap s) (recent_buffer s))).

(** The outcome of a step that can raise. *)
Inductive outcome (A : Type) : Type :=
| Done (a : A)
| Raised.
Arguments Done {A} a.
Arguments Raised {A}.

(** The ttl of a match, read as the loop of [retrieve_memories] reads it:
    no ttl, an instant, or an exception of [fromisoformat]. *)
Definition match_ttl (meta : gmap string PyVal) : outcome (option Datetime.datetime) :=
  let ttl_str := dict_get meta "ttl" in
  if truthy ttl_str
  then match ttl_str with
       | VStr s => match Datetime.fromisoformat s with
                   | Some t => Done (Some t)
                   | None => Raised
                   end
       | _ => Raised
       end
  else Done None.

(** The test-data condition on a match; a [conversation_id] that is not a
    string raises at [startswith] when the condition gets that far. *)
Definition is_test_match (meta : gmap string PyVal) : outcome bool :=
  let t := dict_get meta "test" in
  if eq_True t || eq_str t "true" then Done true
  else match default (VStr "") (meta !! "conversation_id") with
       | VStr c => Done (str_in c test_ids || Text.startswith "test-" c
                         || Text.startswith "dummy-" c)
       | _ => Raised
       end.

Definition permanent_entry (m : Match) : Memory :=
  let meta := match_metadata m in
  mkMemory (Some (match_id m))
           (default (VStr "") (meta !! "content"))
           (match_score m)
           (dict_get meta "timestamp")
           (dict_get meta "conversation_id")
           (default (VStr "chat") (meta !! "message_type"))
           (default (VStr "low") (meta !! "importance"))
           (default (VStr "unknown") (meta !! "storage_tier"))
           "permanent"
           (delete "content" (delete "timestamp" (delete "conversation_id"
              (delete "message_type" meta)))).

(** [l[:limit]] *)
Definition py_prefix {A} (limit : Z) (l : list A) : list A :=
  if (0 <=? limit)%Z then firstn (Z.to_nat limit) l
  else firstn (length l - Z.to_nat (- limit)) l.

(** The importance weight of the sort key. *)
Definition importance_weight (m : Memory) : float :=
  if eq_str (m_importance m) "high" then 1%float
  else if eq_str (m_importance m) "medium" then 0.5%float
  else 0%float.

Definition sort_key (m : Memory) : float * float := (m_score m, importance_weight m).

(** Order of the key tuples. *)
Definition key_lt (a b : float * float) : bool :=
  if (fst a =? fst b)%float then (snd a <? snd b)%float else (fst a <? fst b)%float.

Section Retrieve.
Variable w : World.

(** The loop over [response.matches]; [tick] counts the clock readings
    made so far. An exception ends the loop and keeps the entries
    appended before it. *)
Fixpoint scan_matches (threshold : float) (tick : nat) (matches : list Match)
  : list Memory :=
  match matches with
  | [] => []
  | m :: rest =>
      if (threshold <=? match_score m)%float
      then
        match match_ttl (match_metadata m) with
        | Raised => []
        | Done (Some ttl_date) =>
            if (ttl_date <? clock w tick)%Z
            then scan_matches threshold (S tick) rest
            else match is_test_match (match_metadata m) with
                 | Raised => []
                 | Done true => scan_matches threshold (S tick) rest
                 | Done false => permanent_entry m :: scan_matches threshold (S tick) rest
                 end
        | Done None =>
            match is_test_match (match_metadata m) with
            | Raised => []
            | Done true => scan_matches threshold tick rest
            | Done false => permanent_entry m :: scan_matches threshold tick rest
            end
        end
      else scan_matches threshold tick rest
  end.

(** The filter of the similarity query. *)
Definition filter_conditions (conversation : option string) : option Filter :=
  if given conversation
  then Some (FIn "conversation_id" [default "" conversation; "global"])
  else None.

(** The entries the persistent store contributes; an exception of the
    embedding or of the query contributes none. *)
Definition search_permanent (s : Service) (query : string)
           (conversation : option string) (limit : Z) : list Memory :=
  match embed w query with
  | None => []
  | Some query_embedding =>
      match index_query w (index s) query_embedding (Z.min (limit * 2) 100)
                        (filter_conditions conversation) with
      | None => []
      | Some matches =>
          scan_matches (similarity_threshold (config s)) 0 matches
      end
  end.

Definition retrieve_memories (s : Service) (query : string)
           (conversation : option string) (limit : Z) (include_recent : bool)
  : list Memory :=
  let all_memories :=
    (if include_recent then _search_recent_buffer s query conversation else [])
    ++ search_permanent s query conversation limit in
  py_prefix limit (sort_desc sort_key key_lt all_memories).

End Retrieve.

(* ------------------------------------------------------------------ *)
(** ** [MemoryService] of [backend/memory_service.py]: ids and storing *)

Module Backend.

Record MemoryItem : Type := mkMemoryItem {
  content : string;
  metadata : gmap string PyVal;
  timestamp : Datetime.datetime;
  conversation_id : option string;
  message_type : string
}.

Section WithNormalizer.
(** [unicodedata.normalize("NFKC", text)], a table of the Python
    library. *)
Variable nfkc : string -> string.

Definition _normalize_text (text : string) : string :=
  Text.lower (Text.strip (nfkc text)).

Definition _make_memory_id (kind content scope : string) : string :=
  let normalized_content := _normalize_text content in
  Hash.sha1 (kind +:+ "|" +:+ scope +:+ "|" +:+ normalized_content).

(** The scope [store_memory] derives from an item. *)
Definition scope_of (item : MemoryItem) : string :=
  if (match conversation_id item with
      | Some c => String.eqb c "global"
      | None => false
      end) || String.eqb (message_type item) "personal"
  then "global"
  else "chat:" +:+ (match conversation_id item with
                    | Some c => if Text.is_empty c then "unknown" else c
                    | None => "unknown"
                    end).

(** The kind: [message_type or "chat"]. *)
Definition kind_of (item : MemoryItem) : string :=
  if Text.is_empty (message_type item) then "chat" else message_type item.

Definition memory_id_of (item : MemoryItem) : string :=
  _make_memory_id (kind_of item) (content item) (scope_of item).

Definition stored_metadata (item : MemoryItem) : gmap string PyVal :=
  let scope := scope_of item in
  let metadata :=
    metadata item ∪
    list_to_map
      [ ("text", VStr (content item));
        ("content", VStr (content item));
        ("timestamp", VStr (Datetime.isoformat (timestamp item)));
        ("scope", VStr scope);
        ("message_type", VStr (message_type item));
        ("language", VStr "it") ] in
  if String.eqb (message_type item) "personal"
  then <["importance" := VFloat 0.8]> metadata
  else metadata.

(** [store_memory]: the answer and the index after the call. *)
Definition store_memory (w : World) (idx : gmap string Vector) (item : MemoryItem)
  : bool * gmap string Vector :=
  match embed w (content item) with
  | None => (false, idx)
  | Some embedding =>
      if upsert_ok w
      then (true, <[memory_id_of item := mkVector embedding (stored_metadata item)]> idx)
      else (false, idx)
  end.

End WithNormalizer.

End Backend.

(* ------------------------------------------------------------------ *)
(** ** Calls and runs of the hybrid service *)

(** A call of the store surface, with the world it runs in. *)
Inductive Call : Type :=
| StoreTurn (w : World) (user_message ai_response conversation : string)
            (additional_metadata : option (gmap string PyVal))
| SaveResponse (w : World) (ai_response conversation user_message : string)
               (additional_metadata : option (gmap string PyVal)).

Definition step (s : Service) (c : Call) : Service :=
  match c with
  | StoreTurn w u a c md => snd (run (store_conversation_turn w u a c md) s)
  | SaveResponse w a c u md => snd (run (store_ai_response_manually w a c u md) s)
  end.

Definition steps (s : Service) (cs : list Call) : Service := fold_left step cs s.

Definition is_store_turn (c : Call) : bool :=
  match c with StoreTurn _ _ _ _ _ => true | SaveResponse _ _ _ _ _ => false end.

Definition is_attempt (e : Event) : bool :=
  match e with CompactionAttempt _ => true | Summarized _ => false end.

(** The number of compaction attempts recorded so far. *)
Definition attempts (s : Service) : nat := length (List.filter is_attempt (events s)).

(** The content of the item a turn puts in the recency buffer: the raw
    message, or the first extracted fact without its category. *)
Definition buffered_content (c : Call) : option string :=
  match c with
  | StoreTurn w user_message _ _ _ =>
      match _extract_canonical_facts w user_message with
      | [] => Some user_message
      | fact :: _ =>
          match Text.split_once "|" fact with
          | Some (fact_content, _) => Some fact_content
          | None => Some fact
          end
      end
  | SaveResponse _ _ _ _ _ => None
  end.

(** The items of the recency buffer, oldest first. *)
Definition buffer_items (s : Service) : list HybridMemoryItem :=
  deref (heap s) (recent_buffer s).

(* ------------------------------------------------------------------ *)
(** ** Summaries of what a call does to the service *)

(** The item a turn without facts leaves on the heap: created with the
    first clock reading, then given its tier and an expiry counted from
    the second reading. *)
Definition turn_item (w : World) (cfg : HybridMemoryConfig)
           (user_message conversation : string) (metadata : gmap string PyVal)
  : HybridMemoryItem :=
  mkItem user_message (<["role" := VStr "user"]> metadata) (clock w 0) conversation
         "chat" MEDIUM MEDIUM_TERM
         (Some (clock w 1 + Datetime.timedelta_days (medium_term_ttl_days cfg))%Z).

(** Every record of [idx'] is a record of [idx] or was written from an
    item of [h]. *)
Definition written_from (h : list HybridMemoryItem) (idx idx' : gmap string Vector)
  : Prop :=
  forall id v,
    idx' !! id = Some v ->
    idx !! id = Some v
    \/ exists item with_ttl, In item h /\ v_metadata v = index_metadata with_ttl item.

(** The service before and after [_maybe_summarize_and_compress]. *)
Definition compacted (conversation : string) (s s' : Service) : Prop :=
  let msgs := conv_messages (buffer_items s) conversation in
  if (5 <=? length msgs)%nat
  then exists summary idx',
      storage_tier summary = COMPRESSED /\
      written_from (heap s ++ [summary]) (index s) idx' /\
      s' = mkService (config s) (heap s ++ [summary]) (recent_buffer s) idx'
                     (total_messages s) (S (summarized_chunks s))
                     (events s ++ [CompactionAttempt conversation;
                                   Summarized (length msgs)])
  else s' = record_event (CompactionAttempt conversation) s.

(** The end of [store_conversation_turn]: the compactor runs when the
    buffer holds exactly [recent_buffer_size] items. *)
Definition after_full_check (conversation : string) (s s' : Service) : Prop :=
  if (length (recent_buffer s) =? recent_buffer_size (config s))%nat
  then compacted conversation s s'
  else s' = s.

(** The service before and after a turn: the new items go to the heap,
    the first of them to the buffer, and the index may change. *)
Definition turn_effect (conversation : string) (new : list HybridMemoryItem)
           (s s' : Service) : Prop :=
  exists idx',
    written_from (heap s ++ new) (index s) idx' /\
    after_full_check conversation
      (mkService (config s) (heap s ++ new)
                 (deque_append (recent_buffer_size (config s)) (recent_buffer s)
                               (length (heap s)))
                 idx' (S (total_messages s)) (summarized_chunks s) (events s))
      s'.

(** The items of the facts of a turn, in order. *)
Definition fact_items_of (md : gmap string PyVal) (items : list HybridMemoryItem)
           (facts : list string) : Prop :=
  Forall2 (fun item fact => exists t, item = make_fact_item md t fact) items facts.

(** The last [n] elements of a list. *)
Definition last_n {A} (n : nat) (l : list A) : list A := skipn (length l - n) l.

(** The number of turns among the calls. *)
Definition turns (cs : list Call) : nat := length (List.filter is_store_turn cs).

(** The number of compaction attempts after [k] turns on a buffer of
    capacity [n] that started empty: one for every turn that leaves the
    buffer full. *)
Definition attempts_after (n k : nat) : nat :=
  if (n =? 0)%nat then k else k + 1 - n.

(** An item a turn creates is authored by the user and is no summary. *)
Definition user_item (it : HybridMemoryItem) : Prop :=
  dict_get (metadata it) "role" = VStr "user" /\ storage_tier it <> COMPRESSED.

(** The references ever put in the buffer, each with the content its item
    has on the heap. *)
Definition tracks (h : list HybridMemoryItem) (refs : list nat) (strs : list string)
  : Prop :=
  Forall2 (fun r str => exists it, h !! r = Some it /\ content it = str) refs strs.

(** The references of the buffer point to items authored by the user. *)
Definition user_refs (h : list HybridMemoryItem) (refs : list nat) : Prop :=
  Forall (fun r => exists it, h !! r = Some it
                              /\ dict_get (metadata it) "role" = VStr "user") refs.

(** What holds of the service after any run of turns and manual saves. *)
Definition quiet (idx0 : gmap string Vector) (s : Service) : Prop :=
  user_refs (heap s) (recent_buffer s)
  /\ Forall (fun it => storage_tier it <> COMPRESSED) (heap s)
  /\ written_from (heap s) idx0 (index s)
  /\ summarized_chunks s = 0
  /\ Forall (fun e => is_attempt e = true) (events s).

(* ------------------------------------------------------------------ *)
(** ** Concrete worlds and calls used by the examples *)

Module Examples.
#[local] Open Scope Z_scope.

Definition noon : Datetime.datetime := Datetime.make 2024 1 1 12 0 0.

(** A world whose clock starts at [start] and advances by a microsecond
    per reading, where every provider answers and the model finds no
    fact. *)
Definition world_at (start : Datetime.datetime) : World :=
  mkWorld (fun k => start + Z.of_nat k)
          (fun _ => Some [1%float])
          true true
          (fun _ _ => 0.9%float)
          (fun _ => Some "NO_INFORMATION")
          (fun _ => None).

Definition empty_service : Service := new_service default_config ∅.

Definition ok_turn (start : Datetime.datetime) : Call :=
  StoreTurn (world_at start) "ok" "Va bene!" "c1" None.

(** The service after the turn ["ok"] at noon. *)
Definition after_ok : Service := step empty_service (ok_turn noon).

(** The same turn again, one hour later. *)
Definition after_ok_twice : Service :=
  step after_ok (ok_turn (noon + 3600 * Datetime.us_per_second)).

(** Thirty-one days after noon. *)
Definition a_month_later : Datetime.datetime := noon + Datetime.timedelta_days 31.

(** [n] turns, one second apart. *)
Definition ok_turns (n : nat) : list Call :=
  map (fun i => ok_turn (noon + Z.of_nat i * Datetime.us_per_second)) (seq 0 n).

(** A service whose buffer holds two items. *)
Definition small_config : HybridMemoryConfig := mkConfig 2 0.25%float 30.

Definition say (start : Datetime.datetime) (text : string) : Call :=
  StoreTurn (world_at start) text "" "c1" None.

Definition three_turns : list Call :=
  [ say noon "uno"; say (noon + 1) "due"; say (noon + 2) "tre" ].

(** An index that holds one record of another conversation. *)
Definition other_index : gmap string Vector :=
  {[ "r1" := mkVector [1%float]
               (list_to_map [ ("content", VStr "ok from elsewhere");
                              ("conversation_id", VStr "other") ]) ]}.

(** The item of the turn ["ok"] at noon, its record in the index and the
    entry retrieval builds from that record. *)
Definition ok_item : HybridMemoryItem :=
  turn_item (world_at noon) default_config "ok" "c1" ∅.

Definition ok_entry : Memory :=
  permanent_entry
    (mkMatch "f6950f43364d4443245ac0e0ae679da1" 0.9%float (index_metadata true ok_item)).

(** The expiry of that item: thirty days after the second clock
    reading of the turn. *)
Definition ok_expiry : Datetime.datetime := noon + 1 + Datetime.timedelta_days 30.

(** A service over an index that holds a record of another conversation. *)
Definition other_service : Service := new_service default_config other_index.

Definition greeting : Backend.MemoryItem :=
  Backend.mkMemoryItem "Ciao a tutti" ∅ noon (Some "c1") "chat".

(** The same text up to case and surrounding blanks, stored later. *)
Definition greeting_again : Backend.MemoryItem :=
  Backend.mkMemoryItem "  ciao A TUTTI " ∅ a_month_later (Some "c1") "chat".

End Examples.

(* ------------------------------------------------------------------ *)
(** ** [HybridMemoryService.get_stats] *)

(** The dictionary [get_stats] returns: the counters of [self.stats] and
    the two sizes of the buffer. No statement of the class writes the three
    importance counters after the constructor has set them to 0. *)
Definition get_stats (s : Service) : gmap string Z :=
  <["recent_buffer_max" := Z.of_nat (recent_buffer_size (config s))]>
    (<["recent_buffer_size" := Z.of_nat (length (recent_buffer s))]>
       (list_to_map
          [ ("total_messages", Z.of_nat (total_messages s));
            ("high_importance", 0%Z);
            ("medium_importance", 0%Z);
            ("low_importance", 0%Z);
            ("summarized_chunks", Z.of_nat (summarized_chunks s)) ])).


(* ------------------------------------------------------------------ *)
(** ** [MemoryService.retrieve_memories] of [backend/memory_service.py] *)

(** [a or b] *)
Definition py_or (a b : PyVal) : PyVal := if truthy a then a else b.

(** Whether the integer [z] and the float [f] are the same number; Python
    compares the two exactly. *)
Definition int_eq_float (z : Z) (f : float) : bool :=
  match Prim2SF f with
  | SpecFloat.S754_zero _ => (z =? 0)%Z
  | SpecFloat.S754_finite s m e =>
      let mant := if s then Z.neg m else Z.pos m in
      if (0 <=? e)%Z then (z =? mant * 2 ^ e)%Z
      else (z * 2 ^ (- e) =? mant)%Z
  | _ => false
  end.

Definition int_of_bool (b : bool) : Z := if b then 1%Z else 0%Z.

(** [a == b] on the values of a metadata dictionary: numbers compare by
    value across [bool], [int] and [float]. *)
Definition py_eq (a b : PyVal) : bool :=
  match a, b with
  | VNone, VNone => true
  | VStr s, VStr t => String.eqb s t
  | VBool x, VBool y => Bool.eqb x y
  | VBool x, VInt z | VInt z, VBool x => (int_of_bool x =? z)%Z
  | VBool x, VFloat f | VFloat f, VBool x => int_eq_float (int_of_bool x) f
  | VInt x, VInt y => (x =? y)%Z
  | VInt z, VFloat f | VFloat f, VInt z => int_eq_float z f
  | VFloat f, VFloat g => (f =? g)%float
  | _, _ => false
  end.

Module MemoryService.

(** [MemoryConfig]: the fields the retrieval reads. *)
Record MemoryConfig : Type := mkMemoryConfig {
  similarity_threshold : float;
  query_top_k : Z
}.

Definition default_config : MemoryConfig := mkMemoryConfig 0.25 24.

(** The filter of the query: [{"message_type": {"$in": types}, "$or":
    [{key: value}, ...]}]. *)
Record FilterConditions : Type := mkFilterConditions {
  message_type_in : list string;
  or_ : list (string * string)
}.

(** Modelled from the spec: how the external vector index reads the
    filter. A record passes when its [message_type] is one of the listed
    strings and one of the alternatives holds of it. *)
Definition passes (flt : FilterConditions) (meta : gmap string PyVal) : bool :=
  match meta !! "message_type" with
  | Some (VStr s) => str_in s (message_type_in flt)
  | _ => false
  end
  && existsb (fun kv : string * string => eq_str (dict_get meta (fst kv)) (snd kv))
             (or_ flt).

(** Modelled from the spec: the query of the external vector index, as
    [index_query], with the filter of this service. *)
Definition query (w : World) (idx : gmap string Vector) (vector : list float)
           (top_k : Z) (flt : FilterConditions) : option (list Match) :=
  if negb (query_ok w) || (top_k <? 1)%Z then None
  else
    let candidates :=
      List.filter (fun m => passes flt (match_metadata m))
        (map (fun kv : string * Vector =>
                mkMatch (fst kv) (similarity w vector (values (snd kv)))
                        (v_metadata (snd kv)))
             (map_to_list idx)) in
    Some (firstn (Z.to_nat top_k) (sort_desc match_score PrimFloat.ltb candidates)).

(** An entry of the list [retrieve_memories] returns. *)
Record Hit : Type := mkHit {
  h_id : string;
  h_content : PyVal;
  h_text : PyVal;
  h_score : float;
  h_timestamp : PyVal;
  h_scope : PyVal;
  h_message_type : PyVal;
  h_role : PyVal;
  h_metadata : gmap string PyVal
}.

(** [match.score or 0], as a float. *)
Definition score_or_0 (m : Match) : float :=
  if truthy (VFloat (match_score m)) then match_score m else 0%float.

(** The key of the deduplication. *)
Definition text_key (m : Match) : PyVal :=
  py_or (py_or (dict_get (match_metadata m) "text")
               (dict_get (match_metadata m) "content"))
        (VStr "").

Definition hit_of (m : Match) : Hit :=
  let meta := match_metadata m in
  mkHit (match_id m) (text_key m) (text_key m) (score_or_0 m)
        (dict_get meta "timestamp")
        (py_or (dict_get meta "scope")
               (default (VStr "unknown") (meta !! "conversation_id")))
        (default (VStr "chat") (meta !! "message_type"))
        (default (VStr "unknown") (meta !! "role"))
        (delete "content" (delete "text" (delete "timestamp" (delete "scope"
           (delete "conversation_id" (delete "message_type" (delete "role" meta))))))).

(** The loop over the sorted matches; [kept] is in the order of
    appending, [seen] is the set of the keys of [kept]. *)
Fixpoint keep_loop (threshold : float) (limit : Z) (matches : list Match)
         (kept : list Hit) (seen : list PyVal) : list Hit :=
  match matches with
  | [] => kept
  | m :: rest =>
      if (score_or_0 m <? threshold)%float
      then keep_loop threshold limit rest kept seen
      else if existsb (py_eq (text_key m)) seen
      then keep_loop threshold limit rest kept seen
      else
        let kept := kept ++ [hit_of m] in
        if (limit <=? Z.of_nat (length kept))%Z then kept
        else keep_loop threshold limit rest kept (text_key m :: seen)
  end.

(** No later entry has the content of an earlier one. *)
Definition distinct (kept : list Hit) : Prop :=
  forall i j a b,
    i < j -> kept !! i = Some a -> kept !! j = Some b ->
    py_eq (h_content b) (h_content a) = false.

Section WithQueryEmbedding.
(** [_embed_query]: the embedding of a query text, [None] when the
    provider fails. The provider distinguishes queries from the
    documents [World.embed] stands for. *)
Variable _embed_query : string -> option (list float).

Definition filter_conditions (conversation_id : option string) : FilterConditions :=
  mkFilterConditions ["personal"; "chat"]
    (if given conversation_id
     then [ ("scope", "global");
            ("scope", "chat:" +:+ default "" conversation_id);
            ("conversation_id", "global");
            ("conversation_id", default "" conversation_id) ]
     else [ ("scope", "global"); ("conversation_id", "global") ]).

(** [retrieve_memories]; any exception gives the empty list. The
    argument [include_global] is not read. *)
Definition retrieve_memories (w : World) (cfg : MemoryConfig)
           (idx : gmap string Vector) (query_text : string)
           (conversation_id : option string) (limit : Z) (include_global : bool)
  : list Hit :=
  match _embed_query query_text with
  | None => []
  | Some query_vector =>
      match query w idx query_vector (query_top_k cfg)
                  (filter_conditions conversation_id) with
      | None => []
      | Some matches =>
          keep_loop (similarity_threshold cfg) limit
                    (sort_desc score_or_0 PrimFloat.ltb matches) [] []
      end
  end.
End WithQueryEmbedding.

End MemoryService.

(* ------------------------------------------------------------------ *)
(** ** [_prune_history] of [main.py] *)

(** An element of the [history] list of a request: a JSON object with
    scalar values, or a value that is no object. *)
Inductive HistoryItem : Type :=
| JObject (fields : gmap string PyVal)
| JOther.

Section Pruning.
(** [repr] of a float, a function of the Python library. *)
Variable float_repr : float -> string.

(** [str(v)] *)
Definition py_str (v : PyVal) : string :=
  match v with
  | VNone => "None"
  | VBool true => "True"
  | VBool false => "False"
  | VInt z => DecimalString.NilZero.string_of_int (Z.to_int z)
  | VFloat f => float_repr f
  | VStr s => s
  end.

(** The body of the loop up to the test of the role: the role and the
    content of an item that has a valid role. An item that is no object
    raises at [item.get] and is skipped. *)
Definition history_entry (item : HistoryItem) : option (string * string) :=
  match item with
  | JOther => None
  | JObject fields =>
      let role := Text.lower (py_str (default (VStr "") (fields !! "role"))) in
      let content := py_str (default (VStr "") (fields !! "content")) in
      if str_in role ["user"; "assistant"] then Some (role, content) else None
  end.

(** [len(role) + len(content) + 4] *)
Definition entry_cost (e : string * string) : Z :=
  Z.of_nat (String.length (fst e)) + Z.of_nat (String.length (snd e)) + 4.

(** The loop over [reversed(history)]. *)
Fixpoint prune_loop (max_chars : Z) (items : list HistoryItem)
         (pruned : list (string * string)) (used : Z) : list (string * string) :=
  match items with
  | [] => pruned
  | item :: rest =>
      match history_entry item with
      | None => prune_loop max_chars rest pruned used
      | Some e =>
          let cost := entry_cost e in
          if (max_chars <? used + cost)%Z then pruned
          else prune_loop max_chars rest (pruned ++ [e]) (used + cost)
      end
  end.

(** [_prune_history]; [None] is a [history] that is no list. *)
Definition _prune_history (history : option (list HistoryItem)) (max_chars : Z)
  : list (string * string) :=
  match history with
  | None => []
  | Some items => rev (prune_loop max_chars (rev items) [] 0)
  end.

(** The cost of a list of entries. *)
Definition total_cost (l : list (string * string)) : Z :=
  fold_right (fun e acc => entry_cost e + acc)%Z 0%Z l.
End Pruning.

(* ------------------------------------------------------------------ *)
(** ** [MemoryService.store_conversation_turn] without an AI client *)

(** [s.split(sep)] for a separator that is not empty; [skip] counts the
    characters of a separator just found that are still to be passed. *)
Fixpoint split_str_aux (sep : string) (skip : nat) (cur s : string) : list string :=
  match s with
  | EmptyString => [Text.rev cur]
  | String c t =>
      match skip with
      | S k => split_str_aux sep k cur t
      | O =>
          if Text.startswith sep s
          then Text.rev cur :: split_str_aux sep (String.length sep - 1) EmptyString t
          else split_str_aux sep O (String c cur) t
      end
  end.

Definition split_str (sep s : string) : list string :=
  split_str_aux sep 0 EmptyString s.

(** [s.endswith(p)] *)
Definition endswith (p s : string) : bool := Text.startswith (Text.rev p) (Text.rev s).

Module RuleBased.

(** [_rule_based_personal_check] *)
Definition _rule_based_personal_check (message : string) : bool :=
  let message_lower := Text.strip (Text.lower message) in
  if any_in [ "come mi chiamo"; "qual " +:+ String (ascii_of_N 232) " il mio nome";
              "chi sono"; "come sono"; "cosa faccio" ] message_lower
  then false
  else if endswith "?" message_lower
          && any_in [ "come"; "cosa"; "quando"; "dove";
                      "perch" +:+ String (ascii_of_N 233) EmptyString; "chi" ]
                    (Text.take 10 message_lower)
  then false
  else any_in [ "mi chiamo"; "il mio nome " +:+ String (ascii_of_N 232) EmptyString;
                "nome " +:+ String (ascii_of_N 232) EmptyString;
                "lavoro come"; "lavoro in"; "sono un"; "sono una";
                "faccio il"; "faccio la"; "studio"; "abito a"; "vivo a";
                "mi piace"; "preferisco"; "amo"; "odio";
                "sono bravo in"; "mi occupo di"; "ho anni" ]
              message_lower.

(** [s.split(sep)[1]] where [sep] occurs in [s]. *)
Definition second_part (sep s : string) : string :=
  nth 1 (split_str sep s) EmptyString.

Section WithCapitalize.
(** [str.capitalize], a function of the Python library. *)
Variable capitalize : string -> string.

(** The two branches that read a name: the first word after the
    pattern, capitalized; [IndexError] when no word follows. *)
Definition name_after (sep message_lower : string) : outcome string :=
  match Text.split (Text.strip (second_part sep message_lower)) with
  | name :: _ => Done ("user_name:" +:+ capitalize name)
  | [] => Raised
  end.

Definition rest_after (label sep message_lower : string) : outcome string :=
  Done (label +:+ Text.strip (second_part sep message_lower)).

(** [_rule_based_canonical_extraction] *)
Definition _rule_based_canonical_extraction (message : string) : outcome string :=
  let message_lower := Text.strip (Text.lower message) in
  let my_name_is := "il mio nome " +:+ String (ascii_of_N 232) EmptyString in
  if Text.contains "mi chiamo" message_lower
  then name_after "mi chiamo" message_lower
  else if Text.contains my_name_is message_lower
  then name_after my_name_is message_lower
  else if Text.contains "lavoro come" message_lower
  then rest_after "user_job:" "lavoro come" message_lower
  else if Text.contains "sono un" message_lower || Text.contains "sono una" message_lower
  then rest_after "user_role:"
         (if Text.contains "sono un" message_lower then "sono un" else "sono una")
         message_lower
  else if Text.contains "mi piace" message_lower
  then rest_after "user_likes:" "mi piace" message_lower
  else if Text.contains "preferisco" message_lower
  then rest_after "user_prefers:" "preferisco" message_lower
  else if Text.contains "abito a" message_lower || Text.contains "vivo a" message_lower
  then rest_after "user_location:"
         (if Text.contains "abito a" message_lower then "abito a" else "vivo a")
         message_lower
  else Done (Text.strip message).

(** [_determine_category_from_fact] *)
Definition _determine_category_from_fact (fact : string) : string :=
  let fact_lower := Text.lower fact in
  if any_in ["user_name:"; "user_age:"; "user_location:"] fact_lower then "personal"
  else if any_in ["user_job:"; "user_role:"; "user_skill:"] fact_lower then "work"
  else if any_in ["user_condition:"; "anemia"; "ocd"; "anxiety"; "depression"] fact_lower
  then "health"
  else if any_in ["user_likes:"; "user_prefers:"; "user_dislikes:"] fact_lower
  then "hobby"
  else if any_in ["user_relationship:"; "married"; "single"; "family"] fact_lower
  then "relationships"
  else if any_in ["user_goal:"; "wants to"; "plans to"] fact_lower then "goals"
  else "general".

Variable nfkc : string -> string.

(** The item of the user's message: the canonical fact, stored
    globally, when the message is personal, the message itself
    otherwise. *)
Definition user_memory (w : World) (user_message conversation_id : string)
           (metadata : gmap string PyVal) : outcome Backend.MemoryItem :=
  if _rule_based_personal_check user_message
  then
    match _rule_based_canonical_extraction user_message with
    | Raised => Raised
    | Done canonical_content =>
        let category := _determine_category_from_fact canonical_content in
        let fact_type :=
          match Text.split_once ":" canonical_content with
          | Some (ty, _) => ty
          | None => "general"
          end in
        Done (Backend.mkMemoryItem canonical_content
                (<["fact_type" := VStr fact_type]>
                   (<["category" := VStr category]>
                      (<["type" := VStr "personal_info"]>
                         (<["role" := VStr "user"]> metadata))))
                (clock w 0) (Some "global") "personal")
    end
  else Done (Backend.mkMemoryItem user_message (<["role" := VStr "user"]> metadata)
               (clock w 0) (Some conversation_id) "chat").

Definition ai_memory (w : World) (ai_response conversation_id : string)
           (metadata : gmap string PyVal) : Backend.MemoryItem :=
  Backend.mkMemoryItem ai_response (<["role" := VStr "assistant"]> metadata)
                       (clock w 1) (Some conversation_id) "chat_history".

(** [store_conversation_turn] of a service without AI client
    ([ai_api_key] empty, the default): the answer and the index after
    the call, or the exception of the extraction. *)
Definition store_conversation_turn (w : World) (idx : gmap string Vector)
           (user_message ai_response conversation_id : string)
           (additional_metadata : option (gmap string PyVal))
  : outcome (bool * gmap string Vector) :=
  let metadata := default ∅ additional_metadata in
  match user_memory w user_message conversation_id metadata with
  | Raised => Raised
  | Done item =>
      let '(ok1, idx) := Backend.store_memory nfkc w idx item in
      let '(ok2, idx) :=
        Backend.store_memory nfkc w idx
          (ai_memory w ai_response conversation_id metadata) in
      Done (ok1 && ok2, idx)
  end.
End WithCapitalize.

(** What a caller sees of a turn: the answer, [False] when the call
    raised, and the index it leaves. *)
Definition stored (r : outcome (bool * gmap string Vector)) : bool :=
  match r with
  | Done (ok, _) => ok
  | Raised => false
  end.

Definition index_after (idx : gmap string Vector)
           (r : outcome (bool * gmap string Vector)) : gmap string Vector :=
  match r with
  | Done (_, idx') => idx'
  | Raised => idx
  end.

(** The lowered and stripped message ends at the pattern: no word
    follows its first occurrence. *)
Definition no_word_after (sep message : string) : bool :=
  let message_lower := Text.strip (Text.lower message) in
  Text.contains sep message_lower
  && match Text.split (Text.strip (second_part sep message_lower)) with
     | [] => true
     | _ :: _ => false
     end.

End RuleBased.

(* ------------------------------------------------------------------ *)
(** ** More worlds for the examples *)

Module Cases.
#[local] Open Scope Z_scope.

(** A world like [Examples.world_at] whose embedding provider fails. *)
Definition offline_at (start : Datetime.datetime) : World :=
  mkWorld (fun k => start + Z.of_nat k)
          (fun _ => None)
          true true
          (fun _ _ => 0.9%float)
          (fun _ => Some "NO_INFORMATION")
          (fun _ => None).

Definition newline : string := String (ascii_of_N 10) EmptyString.

(** A world whose model reads two facts in every message. *)
Definition facts_at (start : Datetime.datetime) : World :=
  mkWorld (fun k => start + Z.of_nat k)
          (fun _ => Some [1%float])
          true true
          (fun _ _ => 0.9%float)
          (fun _ => Some ("user_name:Sara | category:personal" +:+ newline
                          +:+ "user_job:software engineer | category:work"))
          (fun _ => None).

(** [str.capitalize] on words of ASCII letters. *)
Definition capitalize (word : string) : string :=
  match word with
  | String c t =>
      String (if (97 <=? N_of_ascii c)%N && (N_of_ascii c <=? 122)%N
              then ascii_of_N (N_of_ascii c - 32) else c)
             (Text.lower t)
  | EmptyString => EmptyString
  end.

Definition sara : string := "Mi chiamo Sara e lavoro come software engineer".

(** The normalizer on texts that NFKC leaves as they are. *)
Definition plain (text : string) : string := text.

Definition chat_note (text : string) : Backend.MemoryItem :=
  Backend.mkMemoryItem text (<["role" := VStr "user"]> ∅) Examples.noon
                       (Some "c1") "chat".

(** The answer of the assistant, as the backend stores it. *)
Definition history_note : Backend.MemoryItem :=
  Backend.mkMemoryItem "Va bene!" (<["role" := VStr "assistant"]> ∅) Examples.noon
                       (Some "c1") "chat_history".

(** An index with two notes of the conversation [c1]. *)
Definition notes : gmap string Vector :=
  snd (Backend.store_memory plain (Examples.world_at Examples.noon)
         (snd (Backend.store_memory plain (Examples.world_at Examples.noon) ∅
                 (chat_note "ok")))
         (chat_note "va bene")).

(** The same index after the answer has been stored. *)
Definition notes_and_answer : gmap string Vector :=
  snd (Backend.store_memory plain (Examples.world_at Examples.noon) notes history_note).

Definition find_notes (idx : gmap string Vector) : list MemoryService.Hit :=
  MemoryService.retrieve_memories (embed (Examples.world_at Examples.noon))
    (Examples.world_at Examples.noon) MemoryService.default_config idx
    "ok" (Some "c1") 8 true.

(** A float is not written in the examples. *)
Definition no_repr (f : float) : string := "".

Definition message (role content : string) : HistoryItem :=
  JObject (<["role" := VStr role]> (<["content" := VStr content]> ∅)).

Definition talk : list HistoryItem :=
  [ message "user" "ciao"; message "System" "x"; JOther;
    message "Assistant" "Ciao!"; message "user" "come stai?" ].
End Cases.

(* ================================================================== *)
(** * Theorems *)

(* ------------------------------------------------------------------ *)
(** * Facts about strings *)

Lemma lower_app (a b : string) : Text.lower (a +:+ b) = Text.lower a +:+ Text.lower b.
Proof. induction a as [|c a IH]; simpl; [reflexivity | now rewrite IH]. Qed.

Lemma isword_lower_char (c : ascii) : Text.isword (Text.lower_char c) = Text.isword c.
Proof. destruct c as [[] [] [] [] [] [] [] []]; reflexivity. Qed.

Lemma split_aux_nonempty (cur s : string) :
  Text.is_empty cur = false -> 1 <= length (Text.split_aux cur s).
Proof.
  revert cur. induction s as [|c s IH]; intros cur Hcur; simpl.
  - rewrite Hcur. simpl. lia.
  - destruct (Text.isspace c).
    + rewrite Hcur. simpl. lia.
    + apply IH. reflexivity.
Qed.

Lemma split_aux_app_length (cur s e : string) :
  length (Text.split_aux cur s) <= length (Text.split_aux cur (s +:+ e)).
Proof.
  revert cur. induction s as [|c s IH]; intros cur; simpl.
  - destruct (Text.is_empty cur) eqn:Hcur; simpl; [lia|].
    now apply split_aux_nonempty.
  - destruct (Text.isspace c); [|apply IH].
    destruct (Text.is_empty cur); simpl; [apply IH|].
    specialize (IH EmptyString). lia.
Qed.

Lemma word_count_app (m e : string) :
  Classifier.word_count m <= Classifier.word_count (m +:+ e).
Proof. apply split_aux_app_length. Qed.

(* ------------------------------------------------------------------ *)
(** * Facts about the matcher *)

Module ReFacts.
Import Re.

Lemma next_word_app (rest ext : string) :
  next_word ext = false -> next_word (rest +:+ ext) = next_word rest.
Proof. destruct rest; simpl; auto. Qed.

Lemma star_set_app p prev rest q rest' ext :
  In (q, rest') (star_set p prev rest) ->
  In (q, rest' +:+ ext) (star_set p prev (rest +:+ ext)).
Proof.
  revert prev. induction rest as [|c rest IH]; intros prev; simpl.
  - intros [H|[]]. inversion H; subst. destruct ext; simpl; auto.
  - intros [H|H].
    + inversion H; subst. now left.
    + right. destruct (p c); [now apply IH | destruct H].
Qed.

(** A match stays a match when text that starts with a non-word
    character is appended to the subject. *)
Lemma ends_app r ext :
  next_word ext = false ->
  forall prev rest q rest',
    In (q, rest') (ends r prev rest) ->
    In (q, rest' +:+ ext) (ends r prev (rest +:+ ext)).
Proof.
  intros Hext. induction r; intros prev rest q rest'; simpl.
  - intros [H|[]]. inversion H; subst. now left.
  - destruct rest as [|d t]; simpl; [intros []|].
    destruct (Ascii.eqb c d); [|intros []].
    intros [H|[]]. inversion H; subst. now left.
  - destruct rest as [|d t]; simpl; [intros []|].
    destruct (p d); [|intros []].
    intros [H|[]]. inversion H; subst. now left.
  - unfold at_boundary. rewrite (next_word_app _ _ Hext).
    destruct (xorb _ _); [|intros []].
    intros [H|[]]. inversion H; subst. now left.
  - rewrite !in_flat_map. intros [[q1 rest1] [H1 H2]].
    exists (q1, rest1 +:+ ext). split; [now apply IHr1 | now apply IHr2].
  - intros [H|H]; [left; now inversion H | right; now apply IHr].
  - destruct rest as [|d t]; simpl; [intros []|].
    destruct (p d); [apply star_set_app | intros []].
  - apply star_set_app.
Qed.

Lemma matches_at_app r ext prev rest :
  next_word ext = false ->
  matches_at r prev rest = true -> matches_at r prev (rest +:+ ext) = true.
Proof.
  intros Hext. unfold matches_at.
  destruct (ends r prev rest) as [|[q rest'] l] eqn:E; [discriminate|]. intros _.
  assert (In (q, rest' +:+ ext) (ends r prev (rest +:+ ext))) as H.
  { apply ends_app; [assumption|]. rewrite E. now left. }
  destruct (ends r prev (rest +:+ ext)); [destruct H | reflexivity].
Qed.

Lemma search_from_app r ext :
  next_word ext = false ->
  forall rest prev,
    search_from r prev rest = true -> search_from r prev (rest +:+ ext) = true.
Proof.
  intros Hext. induction rest as [|c rest IH]; intros prev; simpl.
  - rewrite orb_false_r. intros H.
    apply (matches_at_app r ext prev EmptyString Hext) in H.
    change (EmptyString +:+ ext) with ext in *.
    destruct ext; simpl; rewrite H; reflexivity.
  - rewrite !orb_true_iff. intros [H|H]; [left | right; now apply IH].
    now apply (matches_at_app r ext prev (String c rest)).
Qed.

(** Appending after a non-word character keeps every match. *)
Lemma search_app r s ext :
  next_word ext = false -> search r s = true -> search r (s +:+ ext) = true.
Proof. intros. now apply search_from_app. Qed.

Lemma star_set_prev p q1 q2 rest q rest' :
  prev_word q1 = prev_word q2 ->
  In (q, rest') (star_set p q1 rest) ->
  exists q', In (q', rest') (star_set p q2 rest) /\ prev_word q' = prev_word q.
Proof.
  intros Hq. destruct rest as [|c rest]; simpl.
  - intros [H|[]]. inversion H; subst. exists q2. split; [now left | now symmetry].
  - intros [H|H].
    + inversion H; subst. exists q2. split; [now left | now symmetry].
    + exists q. split; [now right | reflexivity].
Qed.

(** The matches from a position depend on the character before it only
    through its being a word character or not. *)
Lemma ends_prev r :
  forall q1 q2 rest q rest',
    prev_word q1 = prev_word q2 ->
    In (q, rest') (ends r q1 rest) ->
    exists q', In (q', rest') (ends r q2 rest) /\ prev_word q' = prev_word q.
Proof.
  induction r; intros q1 q2 rest q rest' Hq; simpl.
  - intros [H|[]]. inversion H; subst. exists q2. split; [now left | now symmetry].
  - intros H. exists q. split; [assumption | reflexivity].
  - intros H. exists q. split; [assumption | reflexivity].
  - unfold at_boundary. rewrite Hq. destruct (xorb _ _); [|intros []].
    intros [H|[]]. inversion H; subst. exists q2. split; [now left | now symmetry].
  - rewrite in_flat_map. intros [[qa ra] [H1 H2]].
    destruct (IHr1 _ q2 _ _ _ Hq H1) as [qa' [H1' Hqa]].
    simpl in H2. destruct (IHr2 qa qa' ra q rest' (eq_sym Hqa) H2) as [q' [H2' Hq']].
    exists q'. split; [|assumption].
    rewrite in_flat_map. exists (qa', ra). split; assumption.
  - intros [H|H].
    + inversion H; subst. exists q2. split; [now left | now symmetry].
    + destruct (IHr _ q2 _ _ _ Hq H) as [q' [H' Hq']].
      exists q'. split; [now right | assumption].
  - intros H. exists q. split; [assumption | reflexivity].
  - now apply star_set_prev.
Qed.

Lemma matches_at_prev r q1 q2 rest :
  prev_word q1 = prev_word q2 ->
  matches_at r q1 rest = true -> matches_at r q2 rest = true.
Proof.
  intros Hq. unfold matches_at.
  destruct (ends r q1 rest) as [|[q rest'] l] eqn:E; [discriminate|]. intros _.
  destruct (ends_prev r q1 q2 rest q rest' Hq) as [q' [H _]].
  { rewrite E. now left. }
  destruct (ends r q2 rest); [destruct H | reflexivity].
Qed.

Lemma search_from_prev r q1 q2 rest :
  prev_word q1 = prev_word q2 ->
  search_from r q1 rest = true -> search_from r q2 rest = true.
Proof.
  intros Hq. destruct rest as [|c rest]; simpl; rewrite !orb_true_iff.
  - intros [H|H]; [left | discriminate]. now apply (matches_at_prev r q1).
  - intros [H|H]; [left | now right]. now apply (matches_at_prev r q1).
Qed.

Lemma search_from_skip r pre :
  forall prev sep s,
    search_from r (Some sep) s = true ->
    search_from r prev (pre +:+ String sep s) = true.
Proof.
  induction pre as [|c pre IH]; intros prev sep s H; simpl.
  - rewrite H. apply orb_true_r.
  - rewrite (IH (Some c) sep s H). apply orb_true_r.
Qed.

(** A match inside a clause is still there when the clause follows a
    non-word character. *)
Lemma search_after r pre sep s :
  Text.isword sep = false ->
  search r s = true -> search r (pre +:+ String sep s) = true.
Proof.
  intros Hsep H. apply search_from_skip.
  apply (search_from_prev r None); [simpl; now rewrite Hsep | exact H].
Qed.

End ReFacts.

Module ClassifierFacts.
Import Classifier.

Lemma truthy_matches ps s :
  Classifier.truthy (matches ps s) = existsb (fun p => Re.search (re p) s) ps.
Proof.
  unfold matches. induction ps as [|p ps IH]; simpl; [reflexivity|].
  destruct (Re.search (re p) s); simpl; [reflexivity | exact IH].
Qed.

Lemma lower_clause m sep c :
  Text.lower (m +:+ String sep c)
  = Text.lower m +:+ String (Text.lower_char sep) (Text.lower c).
Proof. now rewrite lower_app. Qed.

(** A group that fires on a message fires on the message followed by a
    clause, when the clause is set off by a non-word character. *)
Lemma fires_app ps m sep c :
  Text.isword sep = false ->
  fires ps m = true -> fires ps (m +:+ String sep c) = true.
Proof.
  intros Hsep. unfold fires. rewrite !truthy_matches, lower_clause, !existsb_exists.
  intros [p [Hp H]]. exists p. split; [assumption|].
  apply ReFacts.search_app; [|assumption].
  simpl. now rewrite isword_lower_char.
Qed.

(** A group that fires on a clause fires on any message that ends with
    the clause set off by a non-word character. *)
Lemma fires_after ps m sep c :
  Text.isword sep = false ->
  fires ps c = true -> fires ps (m +:+ String sep c) = true.
Proof.
  intros Hsep. unfold fires. rewrite !truthy_matches, lower_clause, !existsb_exists.
  intros [p [Hp H]]. exists p. split; [assumption|].
  apply ReFacts.search_after; [|assumption].
  now rewrite isword_lower_char.
Qed.

Lemma add_group_score ms w factor a :
  fst (fst (add_group ms w factor a))
  = if Classifier.truthy ms then (fst (fst a) + w)%float else fst (fst a).
Proof.
  destruct a as [[sc pm] fs]. unfold add_group.
  now destruct (Classifier.truthy ms).
Qed.

Lemma scale_score c w factor a :
  fst (fst (scale c w factor a))
  = if c then (fst (fst a) * w)%float else fst (fst a).
Proof. destruct a as [[sc pm] fs]. unfold scale. now destruct c. Qed.

Lemma length_factor_score wc a :
  fst (fst (length_factor wc a))
  = if 20 <? wc then (fst (fst a) + 0.2)%float
    else if wc <? 5 then (fst (fst a) * 0.8)%float else fst (fst a).
Proof.
  destruct a as [[sc pm] fs]. unfold length_factor.
  now destruct (20 <? wc), (wc <? 5).
Qed.

(** [classify] computes [core] of the group and length tests. *)
Lemma classify_core message :
  exists pm fs,
    classify message =
    (level_of (score_of message), score_of message,
     mkReasoning pm fs (score_of message))
    /\ score_of message =
       core (fires personal_patterns message) (fires decision_patterns message)
            (fires technical_patterns message) (fires question_patterns message)
            (short_filler message)
            (20 <? word_count message) (word_count message <? 5).
Proof.
  unfold score_of, short_filler, fires, classify.
  generalize (matches personal_patterns (Text.lower message)) as l1.
  generalize (matches decision_patterns (Text.lower message)) as l2.
  generalize (matches technical_patterns (Text.lower message)) as l3.
  generalize (matches question_patterns (Text.lower message)) as l4.
  generalize (matches low_patterns (Text.lower message)) as l5.
  generalize (word_count message) as n.
  intros n l5 l4 l3 l2 l1. cbv zeta.
  remember (length_factor n _) as a eqn:Ea.
  apply (f_equal (fun x : acc => fst (fst x))) in Ea.
  rewrite length_factor_score, scale_score, !add_group_score in Ea.
  destruct a as [[sc pm] fs]. cbn [fst snd] in Ea |- *. subst sc.
  exists pm, fs. split; reflexivity.
Qed.

Lemma both_spec f : both f = true -> forall b, f b = true.
Proof. unfold both. rewrite andb_true_iff. intros [H1 H2] []; assumption. Qed.

Lemma core_well_placed p d t q ls lg sh :
  well_placed (core p d t q ls lg sh) = true.
Proof.
  revert sh. apply both_spec. revert lg. apply both_spec.
  revert ls. apply both_spec. revert q. apply both_spec.
  revert t. apply both_spec. revert d. apply both_spec.
  revert p. apply both_spec. vm_compute. reflexivity.
Qed.

Lemma core_monotone p d t q ls lg sh d' t' q' ls' lg' sh' :
  implb (implb d d' && implb t t' && implb q q' && implb ls' ls
         && implb lg lg' && implb sh' sh)
        (core p d t q ls lg sh <=? core true d' t' q' ls' lg' sh')%float = true.
Proof.
  revert sh'. apply both_spec. revert lg'. apply both_spec.
  revert ls'. apply both_spec. revert q'. apply both_spec.
  revert t'. apply both_spec. revert d'. apply both_spec.
  revert sh. apply both_spec. revert lg. apply both_spec.
  revert ls. apply both_spec. revert q. apply both_spec.
  revert t. apply both_spec. revert d. apply both_spec.
  revert p. apply both_spec. vm_compute. reflexivity.
Qed.

End ClassifierFacts.

(* ------------------------------------------------------------------ *)
(** * The Importance Classifier *)

(** C8. For every text, the score [classify] returns lies between 0 and 1,
    the level is high exactly when the score is at least 0.7, medium
    exactly when it is at least 0.4 and below 0.7, and low exactly when it
    is below 0.4; the evidence records the same score. The classification
    is a function of the text alone. *)
Theorem classify_score_and_level (message : string) :
  let '(level, score, reasoning) := Classifier.classify message in
  ((0 <=? score)%float = true /\ (score <=? 1)%float = true)
  /\ (level = HIGH <-> (0.7 <=? score)%float = true)
  /\ (level = MEDIUM <->
      (0.4 <=? score)%float = true /\ (score <? 0.7)%float = true)
  /\ (level = LOW <-> (score <? 0.4)%float = true)
  /\ Classifier.final_score reasoning = score.
Proof.
  destruct (ClassifierFacts.classify_core message) as [pm [fs [E Hs]]].
  rewrite E. clear E.
  pose proof (ClassifierFacts.core_well_placed
                (Classifier.fires Classifier.personal_patterns message)
                (Classifier.fires Classifier.decision_patterns message)
                (Classifier.fires Classifier.technical_patterns message)
                (Classifier.fires Classifier.question_patterns message)
                (Classifier.short_filler message)
                (20 <? Classifier.word_count message)
                (Classifier.word_count message <? 5)) as W.
  rewrite <- Hs in W. clear Hs.
  generalize dependent (Classifier.score_of message). intros s W.
  unfold Classifier.well_placed in W. unfold Classifier.level_of. simpl.
  destruct (0 <=? s)%float, (s <=? 1)%float, (0.7 <=? s)%float, (s <? 0.7)%float,
    (0.4 <=? s)%float, (s <? 0.4)%float; simpl in W; try discriminate W;
    repeat split; (congruence || tauto || (intros [? ?]; congruence)).
Qed.

(** C9, as the code has it. If a clause on which the personal group fires
    is appended to a text after a non-word character (a space, a comma),
    the score does not go down, provided the short-filler dampening (a
    filler pattern in a text of at most three words) does not newly apply:
    the augmented text is not dampened, or the original already was. *)
Theorem classify_monotone_clause (m c : string) (sep : ascii) :
  Text.isword sep = false ->
  Classifier.fires Classifier.personal_patterns c = true ->
  Classifier.short_filler (m +:+ String sep c) = false
    \/ Classifier.short_filler m = true ->
  (Classifier.score_of m <=? Classifier.score_of (m +:+ String sep c))%float = true.
Proof.
  intros Hsep Hc Hdamp.
  destruct (ClassifierFacts.classify_core m) as [_ [_ [_ ->]]].
  destruct (ClassifierFacts.classify_core (m +:+ String sep c)) as [_ [_ [_ ->]]].
  rewrite (ClassifierFacts.fires_after _ m sep c Hsep Hc).
  pose proof (ClassifierFacts.fires_app Classifier.decision_patterns m sep c Hsep) as Hd.
  pose proof (ClassifierFacts.fires_app Classifier.technical_patterns m sep c Hsep) as Ht.
  pose proof (ClassifierFacts.fires_app Classifier.question_patterns m sep c Hsep) as Hq.
  pose proof (word_count_app m (String sep c)) as Hw.
  set (n := Classifier.word_count m) in *.
  set (n' := Classifier.word_count (m +:+ String sep c)) in *.
  assert (implb (20 <? n) (20 <? n') = true) as Hlg.
  { destruct (Nat.ltb_spec 20 n), (Nat.ltb_spec 20 n'); simpl; auto; lia. }
  assert (implb (n' <? 5) (n <? 5) = true) as Hsh.
  { destruct (Nat.ltb_spec n' 5), (Nat.ltb_spec n 5); simpl; auto; lia. }
  assert (implb (Classifier.short_filler (m +:+ String sep c))
                (Classifier.short_filler m) = true) as Hls.
  { destruct Hdamp as [-> | ->]; [reflexivity | apply implb_true_r]. }
  pose proof (ClassifierFacts.core_monotone
                (Classifier.fires Classifier.personal_patterns m)
                (Classifier.fires Classifier.decision_patterns m)
                (Classifier.fires Classifier.technical_patterns m)
                (Classifier.fires Classifier.question_patterns m)
                (Classifier.short_filler m) (20 <? n) (n <? 5)
                (Classifier.fires Classifier.decision_patterns (m +:+ String sep c))
                (Classifier.fires Classifier.technical_patterns (m +:+ String sep c))
                (Classifier.fires Classifier.question_patterns (m +:+ String sep c))
                (Classifier.short_filler (m +:+ String sep c)) (20 <? n') (n' <? 5)) as Hmono.
  rewrite Hlg, Hsh, Hls in Hmono.
  destruct (Classifier.fires Classifier.decision_patterns m);
    [rewrite (Hd eq_refl) in Hmono |- * |];
    (destruct (Classifier.fires Classifier.technical_patterns m);
     [rewrite (Ht eq_refl) in Hmono |- * |]);
    (destruct (Classifier.fires Classifier.question_patterns m);
     [rewrite (Hq eq_refl) in Hmono |- * |]);
    simpl in Hmono; exact Hmono.
Qed.

Lemma classify_monotone_clause_witness :
  Text.isword " " = false
  /\ Classifier.fires Classifier.personal_patterns "mi chiamo Sara" = true
  /\ (Classifier.short_filler "devo mi chiamo Sara" = false
      \/ Classifier.short_filler "devo" = true)
  /\ (Classifier.score_of "devo" <=? Classifier.score_of "devo mi chiamo Sara")%float = true.
Proof.
  split; [reflexivity|]. split; [reflexivity|]. split; [left; reflexivity|].
  apply (classify_monotone_clause "devo" "mi chiamo Sara" " ");
    [reflexivity | reflexivity | left; reflexivity].
Defined.

(** C9 as stated fails: the clause [sono perfetto] fires the personal
    group, and appended to [importante] it brings the filler dampening on
    a three-word text, which lowers the score from 0.48 to 0.336 and the
    level from medium to low. *)
Lemma personal_clause_can_lower_score :
  Classifier.fires Classifier.personal_patterns "sono perfetto" = true
  /\ (Classifier.score_of "importante"
      <=? Classifier.score_of "importante sono perfetto")%float = false
  /\ Classifier.importance_of "importante" = MEDIUM
  /\ Classifier.importance_of "importante sono perfetto" = LOW.
Proof. vm_compute. repeat split; reflexivity. Qed.

(* ------------------------------------------------------------------ *)
(** * Running the calls of the service *)

Lemma bind_unfold {A B} (m : M A) (k : A -> M B) st :
  bind m k st = k (fst (m st)) (snd (m st)).
Proof. unfold bind. destruct (m st). reflexivity. Qed.

Lemma run_unfold {A} (m : M A) s :
  run m s = (fst (m (s, 0)), fst (snd (m (s, 0)))).
Proof. unfold run. destruct (m (s, 0)) as [a [s' t]]. reflexivity. Qed.

Lemma set_index_same s : set_index (index s) s = s.
Proof. destruct s; reflexivity. Qed.

Lemma set_index_twice i j s : set_index j (set_index i s) = set_index j s.
Proof. reflexivity. Qed.

Lemma written_from_refl h i : written_from h i i.
Proof. intros id v H. now left. Qed.

Lemma written_from_trans h i j k :
  written_from h i j -> written_from h j k -> written_from h i k.
Proof.
  intros H1 H2 id v Hk. destruct (H2 id v Hk) as [Hj|Hj]; [|now right].
  now apply H1.
Qed.

Lemma written_from_mono h h' i j :
  (forall x, In x h -> In x h') -> written_from h i j -> written_from h' i j.
Proof.
  intros Hh H id v Hj. destruct (H id v Hj) as [Hi|(item & b & Hin & Hv)]; [now left|].
  right. exists item, b. split; [now apply Hh | assumption].
Qed.

Lemma written_from_insert (h : list HybridMemoryItem) (i : gmap string Vector)
      r item id e b :
  h !! r = Some item ->
  written_from h i (<[id := mkVector e (index_metadata b item)]> i).
Proof.
  intros Hr id' v. rewrite lookup_insert. case_decide as Hid.
  - intros [= <-]. right. exists item, b. split; [|reflexivity].
    apply list_elem_of_In. eapply list_elem_of_lookup_2. exact Hr.
  - now left.
Qed.

(** Storing an item changes the index at most, by a record written from
    that item. *)
Lemma store_item_frame w b r s t :
  exists ok idx' t',
    store_item w b r (s, t) = (ok, (set_index idx' s, t'))
    /\ written_from (heap s) (index s) idx'.
Proof.
  unfold store_item. rewrite bind_unfold. cbn [get_service fst snd].
  destruct (heap s !! r) as [item|] eqn:Hr.
  - destruct (embed w (content item)) as [e|].
    + rewrite bind_unfold. unfold _generate_memory_id. rewrite bind_unfold.
      cbn [now ret fst snd]. unfold upsert. destruct (upsert_ok w).
      * rewrite bind_unfold. cbn [modify ret fst snd].
        eexists. eexists. eexists. split; [reflexivity|].
        cbn [index]. eapply written_from_insert. exact Hr.
      * cbn [ret]. exists false, (index s), (S t). rewrite set_index_same.
        split; [reflexivity | apply written_from_refl].
    + exists false, (index s), t. rewrite set_index_same.
      split; [reflexivity | apply written_from_refl].
  - exists false, (index s), t. rewrite set_index_same.
    split; [reflexivity | apply written_from_refl].
Qed.

Lemma mapM_store_frame w refs : forall s t,
  exists oks idx' t',
    mapM (_store_permanent w) refs (s, t) = (oks, (set_index idx' s, t'))
    /\ written_from (heap s) (index s) idx'.
Proof.
  induction refs as [|r refs IH]; intros s t; cbn [mapM].
  - exists [], (index s), t. rewrite set_index_same.
    split; [reflexivity | apply written_from_refl].
  - rewrite bind_unfold.
    destruct (store_item_frame w false r s t) as (ok & i1 & t1 & E & W1).
    change (store_item w false r) with (_store_permanent w r) in E.
    rewrite E. cbn [fst snd].
    rewrite bind_unfold.
    destruct (IH (set_index i1 s) t1) as (oks & i2 & t2 & E2 & W2).
    rewrite E2. cbn [fst snd ret]. rewrite set_index_twice.
    eexists. eexists. eexists. split; [reflexivity|].
    eapply written_from_trans; [exact W1 | exact W2].
Qed.

Lemma set_heap_twice h h' s : set_heap h' (set_heap h s) = set_heap h' s.
Proof. reflexivity. Qed.

Lemma set_heap_same s : set_heap (heap s) s = s.
Proof. destruct s; reflexivity. Qed.

Lemma fact_item_eq w md f s t :
  fact_item w md f (s, t)
  = (length (heap s), (set_heap (heap s ++ [make_fact_item md (clock w t) f]) s, S t)).
Proof. reflexivity. Qed.

Lemma mapM_fact_item w md facts : forall s t,
  exists items,
    fact_items_of md items facts /\
    mapM (fact_item w md) facts (s, t)
    = (seq (length (heap s)) (length facts),
       (set_heap (heap s ++ items) s, t + length facts)).
Proof.
  induction facts as [|f facts IH]; intros s t; cbn [mapM].
  - exists []. split; [constructor|]. cbn [ret length seq].
    now rewrite app_nil_r, set_heap_same, Nat.add_0_r.
  - rewrite bind_unfold, fact_item_eq. cbn [fst snd]. rewrite bind_unfold.
    destruct (IH (set_heap (heap s ++ [make_fact_item md (clock w t) f]) s) (S t))
      as (items & Hitems & E).
    rewrite E. cbn [fst snd ret heap set_heap length seq].
    exists (make_fact_item md (clock w t) f :: items). split.
    + constructor; [eauto | assumption].
    + unfold ret. rewrite length_app, <- app_assoc, set_heap_twice.
      cbn [length app]. rewrite Nat.add_1_r.
      replace (S t + length facts) with (t + S (length facts)) by lia.
      reflexivity.
Qed.

Ltac run_monad :=
  cbv beta iota delta [bind modify get_service now alloc ret buffer_append fst snd].

Lemma compaction_effect w conversation s t :
  exists s' t',
    _maybe_summarize_and_compress w conversation (s, t) = (tt, (s', t'))
    /\ compacted conversation s s'.
Proof.
  unfold _maybe_summarize_and_compress, compacted, buffer_items. run_monad.
  cbn [record_event heap recent_buffer].
  destruct (5 <=? length (conv_messages (deref (heap s) (recent_buffer s)) conversation))%nat.
  - match goal with
    | |- context [_store_permanent w ?r (?s1, ?t1)] =>
        destruct (store_item_frame w false r s1 t1) as (ok & idx' & t' & E & W)
    end.
    change (store_item w false) with (_store_permanent w) in E.
    rewrite E.
    eexists. eexists. split; [reflexivity|].
    eexists. exists idx'. split; [|split]; cycle 2.
    + unfold record_event, bump_summarized_chunks, set_index, set_heap. cbn.
      rewrite <- app_assoc. reflexivity.
    + reflexivity.
    + exact W.
  - eexists. eexists. split; reflexivity.
Qed.

Lemma full_check_effect w conversation s t :
  exists s' t',
    bind get_service
      (fun s0 =>
         if (length (recent_buffer s0) =? recent_buffer_size (config s0))%nat
         then _maybe_summarize_and_compress w conversation else ret tt) (s, t)
    = (tt, (s', t'))
    /\ after_full_check conversation s s'.
Proof.
  unfold after_full_check. run_monad.
  destruct (length (recent_buffer s) =? recent_buffer_size (config s))%nat.
  - apply compaction_effect.
  - eauto.
Qed.

Lemma full_check_run w conversation s t :
  exists s' t',
    (if (length (recent_buffer s) =? recent_buffer_size (config s))%nat
     then _maybe_summarize_and_compress w conversation
     else (fun st => (tt, st))) (s, t)
    = (tt, (s', t'))
    /\ after_full_check conversation s s'.
Proof.
  unfold after_full_check.
  destruct (length (recent_buffer s) =? recent_buffer_size (config s))%nat.
  - apply compaction_effect.
  - eauto.
Qed.

Ltac fields :=
  unfold set_heap, set_index, set_recent_buffer, bump_total_messages,
    bump_summarized_chunks, record_event in *;
  cbn [heap config recent_buffer index total_messages summarized_chunks events
       content metadata timestamp conversation_id message_type importance
       storage_tier ttl] in *.

Lemma set_tier_last h item tier t s tk :
  heap s = h ++ [item] ->
  set_tier_and_ttl (length h) tier t (s, tk)
  = (tt, (set_heap (h ++ [mkItem (content item) (metadata item) (timestamp item)
                            (conversation_id item) (message_type item)
                            (importance item) tier (Some t)]) s, tk)).
Proof.
  intros Hh. unfold set_tier_and_ttl, modify. cbn [fst snd]. rewrite Hh.
  rewrite list_lookup_middle by reflexivity.
  rewrite insert_app_r_alt by lia. rewrite Nat.sub_diag. reflexivity.
Qed.

(** A turn without facts. *)
Lemma store_turn_no_facts w u a c md s :
  _extract_canonical_facts w u = [] ->
  turn_effect c [turn_item w (config s) u c (default ∅ md)] s
              (step s (StoreTurn w u a c md)).
Proof.
  intros Hfacts. unfold step, run, store_conversation_turn. rewrite Hfacts.
  run_monad. fields.
  erewrite set_tier_last by reflexivity. fields.
  match goal with
  | |- context [_store_with_ttl w ?r (?s1, ?t1)] =>
      destruct (store_item_frame w true r s1 t1) as (ok & idx' & t' & E & W)
  end.
  change (store_item w true) with (_store_with_ttl w) in E. rewrite E. fields.
  match goal with
  | |- context [(if ?b then _maybe_summarize_and_compress w c else ?e) (?X, ?T)] =>
      destruct (full_check_run w c X T) as (s' & t'' & E' & Hs')
  end.
  fields. rewrite E'. exists idx'. unfold turn_item. split; [exact W | exact Hs'].
Qed.

(** A turn with facts. *)
Lemma store_turn_facts w u a c md s f fs :
  _extract_canonical_facts w u = f :: fs ->
  exists items,
    fact_items_of (default ∅ md) items (f :: fs)
    /\ turn_effect c items s (step s (StoreTurn w u a c md)).
Proof.
  intros Hfacts. unfold step, run, store_conversation_turn. rewrite Hfacts.
  run_monad.
  destruct (mapM_fact_item w (default ∅ md) (f :: fs) (bump_total_messages s) 0)
    as (items & Hitems & E).
  rewrite E. cbn [length seq]. fields.
  match goal with
  | |- context [mapM (_store_permanent w) ?rs (?s1, ?t1)] =>
      destruct (mapM_store_frame w rs s1 t1) as (oks & idx' & t' & E1 & W)
  end.
  rewrite E1. fields.
  match goal with
  | |- context [(if ?b then _maybe_summarize_and_compress w c else ?e) (?X, ?T)] =>
      destruct (full_check_run w c X T) as (s' & t'' & E' & Hs')
  end.
  fields. rewrite E'. exists items. split; [assumption|]. exists idx'.
  split; [exact W | exact Hs'].
Qed.

(** The manual save creates one item and changes the index at most. *)
Lemma save_response_effect w a c u md s :
  exists item idx',
    storage_tier item = IMPORTANT
    /\ written_from (heap s ++ [item]) (index s) idx'
    /\ step s (SaveResponse w a c u md) = set_index idx' (set_heap (heap s ++ [item]) s).
Proof.
  unfold step, run, store_ai_response_manually. run_monad.
  match goal with
  | |- context [_store_permanent w ?r (?s1, ?t1)] =>
      destruct (store_item_frame w false r s1 t1) as (ok & idx' & t' & E & W)
  end.
  change (store_item w false) with (_store_permanent w) in E. rewrite E.
  eexists. exists idx'. split; [|split]; cycle 2.
  - reflexivity.
  - reflexivity.
  - exact W.
Qed.

(* ------------------------------------------------------------------ *)
(** * The shape of the service after a call *)

Lemma after_full_check_cases c s1 s' :
  after_full_check c s1 s' ->
  exists extra idx' k evs,
    s' = mkService (config s1) (heap s1 ++ extra) (recent_buffer s1) idx'
                   (total_messages s1) (summarized_chunks s1 + k) (events s1 ++ evs)
    /\ length (List.filter is_attempt evs)
       = (if (length (recent_buffer s1) =? recent_buffer_size (config s1))%nat
          then 1 else 0)
    /\ Forall (fun it => storage_tier it = COMPRESSED) extra
    /\ written_from (heap s1 ++ extra) (index s1) idx'
    /\ (conv_messages (buffer_items s1) c = [] ->
        extra = [] /\ k = 0 /\ Forall (fun e => is_attempt e = true) evs).
Proof.
  unfold after_full_check, compacted.
  destruct (length (recent_buffer s1) =? recent_buffer_size (config s1))%nat.
  - destruct (5 <=? length (conv_messages (buffer_items s1) c))%nat eqn:H5.
    + intros (summary & idx' & Htier & W & ->).
      exists [summary], idx', 1, [CompactionAttempt c;
                                  Summarized (length (conv_messages (buffer_items s1) c))].
      rewrite Nat.add_1_r.
      split; [reflexivity|]. split; [reflexivity|]. split; [now repeat constructor|].
      split; [exact W|].
      intros Hnil. rewrite Hnil in H5. discriminate H5.
    + intros ->. exists [], (index s1), 0, [CompactionAttempt c].
      rewrite app_nil_r, Nat.add_0_r.
      split; [reflexivity|]. split; [reflexivity|]. split; [constructor|].
      split; [apply written_from_refl|].
      intros _. repeat constructor.
  - intros ->. exists [], (index s1), 0, [].
    rewrite !app_nil_r, Nat.add_0_r.
    split; [now destruct s1|]. split; [reflexivity|]. split; [constructor|].
    split; [apply written_from_refl|].
    intros _. repeat constructor.
Qed.

Lemma written_from_app_r h extra i j k :
  written_from h i j -> written_from (h ++ extra) j k -> written_from (h ++ extra) i k.
Proof.
  intros H1 H2. eapply written_from_trans; [|exact H2].
  eapply written_from_mono; [|exact H1]. intros x Hx. apply in_or_app. now left.
Qed.

Lemma turn_effect_cases c new s s' :
  turn_effect c new s s' ->
  let buffer' := deque_append (recent_buffer_size (config s)) (recent_buffer s)
                              (length (heap s)) in
  exists extra idx' k evs,
    s' = mkService (config s) (heap s ++ new ++ extra) buffer' idx'
                   (S (total_messages s)) (summarized_chunks s + k) (events s ++ evs)
    /\ length (List.filter is_attempt evs)
       = (if (length buffer' =? recent_buffer_size (config s))%nat then 1 else 0)
    /\ Forall (fun it => storage_tier it = COMPRESSED) extra
    /\ written_from (heap s ++ new ++ extra) (index s) idx'
    /\ (conv_messages (deref (heap s ++ new) buffer') c = [] ->
        extra = [] /\ k = 0 /\ Forall (fun e => is_attempt e = true) evs).
Proof.
  intros (idx1 & W1 & H). apply after_full_check_cases in H.
  destruct H as (extra & idx' & k & evs & -> & Hatt & Hextra & W & Hnil).
  cbn [heap config recent_buffer index total_messages summarized_chunks events] in *.
  exists extra, idx', k, evs. rewrite <- app_assoc in *.
  split; [reflexivity|]. split; [exact Hatt|]. split; [exact Hextra|].
  split; [|exact Hnil].
  rewrite app_assoc. eapply written_from_app_r; [exact W1|].
  now rewrite <- app_assoc.
Qed.

Lemma make_fact_item_role md t f :
  dict_get (metadata (make_fact_item md t f)) "role" = VStr "user".
Proof.
  unfold make_fact_item. destruct (Text.split_once "|" f) as [[c cat]|];
    destruct (Text.split_once ":" _) as [[ty v]|]; cbn [metadata];
    unfold dict_get; now rewrite !lookup_insert_ne, lookup_insert_eq by discriminate.
Qed.

Lemma make_fact_item_tier md t f : storage_tier (make_fact_item md t f) = GLOBAL.
Proof.
  unfold make_fact_item. destruct (Text.split_once "|" f) as [[c cat]|];
    destruct (Text.split_once ":" _) as [[ty v]|]; reflexivity.
Qed.

Lemma make_fact_item_content md t f :
  content (make_fact_item md t f)
  = match Text.split_once "|" f with Some (c, _) => c | None => f end.
Proof.
  unfold make_fact_item. destruct (Text.split_once "|" f) as [[c cat]|];
    destruct (Text.split_once ":" _) as [[ty v]|]; reflexivity.
Qed.

(** What a turn adds: at least one item, the first of which is the one
    put in the buffer. *)
Lemma turn_new_items w u a c md s :
  exists first rest,
    turn_effect c (first :: rest) s (step s (StoreTurn w u a c md))
    /\ buffered_content (StoreTurn w u a c md) = Some (content first)
    /\ Forall user_item (first :: rest).
Proof.
  destruct (_extract_canonical_facts w u) as [|f fs] eqn:Hfacts.
  - exists (turn_item w (config s) u c (default ∅ md)), [].
    split; [now apply store_turn_no_facts|]. split.
    + cbn [buffered_content]. now rewrite Hfacts.
    + repeat constructor; [|discriminate].
      unfold dict_get. cbn [turn_item metadata]. now rewrite lookup_insert_eq.
  - destruct (store_turn_facts w u a c md s f fs Hfacts) as (items & Hitems & Heff).
    inversion Hitems as [|first f' rest fs' [t Hfirst] Hrest]; subst.
    exists (make_fact_item (default ∅ md) t f), rest. split; [assumption|]. split.
    + cbn [buffered_content]. rewrite Hfacts, make_fact_item_content.
      destruct (Text.split_once "|" f) as [[c0 cat]|]; reflexivity.
    + constructor.
      * split; [apply make_fact_item_role | rewrite make_fact_item_tier; discriminate].
      * clear -Hrest. induction Hrest as [|x y l l' [t' ->] _ IH]; constructor; auto.
        split; [apply make_fact_item_role | rewrite make_fact_item_tier; discriminate].
Qed.

Lemma step_config s c : config (step s c) = config s.
Proof.
  destruct c as [w u a c md | w a c u md].
  - destruct (turn_new_items w u a c md s) as (first & rest & Heff & _).
    apply turn_effect_cases in Heff.
    destruct Heff as (extra & idx' & k & evs & -> & _). reflexivity.
  - destruct (save_response_effect w a c u md s) as (item & idx' & _ & _ & ->).
    reflexivity.
Qed.

Lemma step_buffer s c :
  recent_buffer (step s c)
  = if is_store_turn c
    then deque_append (recent_buffer_size (config s)) (recent_buffer s) (length (heap s))
    else recent_buffer s.
Proof.
  destruct c as [w u a c md | w a c u md].
  - destruct (turn_new_items w u a c md s) as (first & rest & Heff & _).
    apply turn_effect_cases in Heff.
    destruct Heff as (extra & idx' & k & evs & -> & _). reflexivity.
  - destruct (save_response_effect w a c u md s) as (item & idx' & _ & _ & ->).
    reflexivity.
Qed.

Lemma attempts_app s evs s' :
  events s' = events s ++ evs ->
  attempts s' = attempts s + length (List.filter is_attempt evs).
Proof. unfold attempts. intros ->. now rewrite List.filter_app, length_app. Qed.

(** A turn records a compaction attempt exactly when it leaves the buffer
    full; a manual save records none. *)
Lemma step_attempts s c :
  attempts (step s c)
  = attempts s
    + (if is_store_turn c
          && (length (recent_buffer (step s c)) =? recent_buffer_size (config s))%nat
       then 1 else 0).
Proof.
  rewrite step_buffer.
  destruct c as [w u a c md | w a c u md]; cbn [is_store_turn andb].
  - destruct (turn_new_items w u a c md s) as (first & rest & Heff & _).
    apply turn_effect_cases in Heff.
    destruct Heff as (extra & idx' & k & evs & -> & Hatt & _).
    rewrite <- Hatt. now apply attempts_app.
  - destruct (save_response_effect w a c u md s) as (item & idx' & _ & _ & ->).
    unfold attempts. cbn. lia.
Qed.

(* ------------------------------------------------------------------ *)
(** * The recency buffer over a run *)

Lemma steps_snoc s cs c : steps s (cs ++ [c]) = step (steps s cs) c.
Proof. unfold steps. now rewrite fold_left_app. Qed.

Lemma steps_config s cs : config (steps s cs) = config s.
Proof.
  induction cs as [|c cs IH] using rev_ind; [reflexivity|].
  now rewrite steps_snoc, step_config.
Qed.

Lemma turns_snoc cs c :
  turns (cs ++ [c]) = turns cs + (if is_store_turn c then 1 else 0).
Proof.
  unfold turns. rewrite List.filter_app, length_app. cbn [List.filter].
  destruct (is_store_turn c); reflexivity.
Qed.

Lemma deque_append_length {A} n (d : list A) x :
  length d <= n ->
  length (deque_append n d x) = Nat.min (S (length d)) n.
Proof.
  intros Hd. unfold deque_append. destruct (Nat.eqb_spec n 0) as [->|Hn]; [lia|].
  rewrite length_app. cbn [length]. rewrite Nat.add_1_r.
  destruct (Nat.ltb_spec n (S (length d))).
  - destruct d as [|y d]; cbn [app tail length] in *; [lia|].
    rewrite length_app. cbn [length]. lia.
  - rewrite length_app. cbn [length]. lia.
Qed.

(** From an empty buffer, the buffer holds as many items as there were
    turns, up to its capacity, and an attempt was recorded for every turn
    that left it full. *)
Lemma run_length_and_attempts cfg idx cs :
  let s := steps (new_service cfg idx) cs in
  length (recent_buffer s) = Nat.min (turns cs) (recent_buffer_size cfg)
  /\ attempts s = attempts_after (recent_buffer_size cfg) (turns cs).
Proof.
  induction cs as [|c cs IH] using rev_ind.
  - cbn. unfold attempts_after. destruct (recent_buffer_size cfg =? 0)%nat eqn:E; [easy|].
    apply Nat.eqb_neq in E. split; [reflexivity | lia].
  - cbn zeta in *. destruct IH as [IHlen IHatt].
    rewrite steps_snoc, step_attempts, step_buffer, turns_snoc, IHatt.
    rewrite !steps_config. cbn [config new_service].
    set (n := recent_buffer_size cfg) in *. set (k := turns cs) in *.
    destruct (is_store_turn c); cbn [andb].
    + rewrite deque_append_length by lia. rewrite IHlen. split; [lia|].
      unfold attempts_after.
      destruct (Nat.eqb_spec n 0) as [->|Hn].
      * rewrite Nat.min_0_r. cbn. lia.
      * destruct (Nat.eqb_spec (Nat.min (S (Nat.min k n)) n) n); lia.
    + rewrite !Nat.add_0_r. split; [assumption | reflexivity].
Qed.

Lemma last_n_length {A} n (l : list A) : length (last_n n l) = Nat.min (length l) n.
Proof. unfold last_n. rewrite length_skipn. lia. Qed.

Lemma deque_append_last_n {A} n (l : list A) x :
  deque_append n (last_n n l) x = last_n n (l ++ [x]).
Proof.
  unfold deque_append. destruct (Nat.eqb_spec n 0) as [->|Hn].
  - unfold last_n. rewrite !Nat.sub_0_r, !skipn_all. reflexivity.
  - rewrite length_app, last_n_length. cbn [length]. unfold last_n.
    rewrite length_app. cbn [length].
    destruct (Nat.ltb_spec n (Nat.min (length l) n + 1)).
    + assert (n <= length l) as Hle by lia.
      replace (length l + 1 - n) with (S (length l - n)) by lia.
      rewrite skipn_app.
      replace (S (length l - n) - length l) with 0 by lia. cbn [skipn].
      destruct (skipn (length l - n) l) as [|y d] eqn:E.
      * apply (f_equal (@length A)) in E. rewrite length_skipn in E. cbn in E. lia.
      * cbn [app tail]. f_equal.
        replace (skipn (S (length l - n)) l) with (skipn 1 (skipn (length l - n) l)).
        -- now rewrite E.
        -- rewrite drop_drop. f_equal. lia.
    + replace (length l - n) with 0 by lia.
      replace (length l + 1 - n) with 0 by lia. reflexivity.
Qed.

Lemma tracks_app_heap h new refs strs :
  tracks h refs strs -> tracks (h ++ new) refs strs.
Proof.
  unfold tracks. intros H. eapply Forall2_impl; [exact H|].
  intros r str (it & Hr & Hc). exists it. split; [|assumption].
  now apply lookup_app_l_Some.
Qed.

Lemma tracks_deref h refs strs :
  tracks h refs strs -> map content (deref h refs) = strs.
Proof.
  unfold deref. induction 1 as [|r str refs strs (it & Hr & Hc) _ IH].
  - reflexivity.
  - cbn [omap list_omap]. rewrite Hr. cbn [map]. now rewrite Hc, IH.
Qed.

Lemma tracks_drop h refs strs j :
  tracks h refs strs -> tracks h (skipn j refs) (skipn j strs).
Proof. apply Forall2_drop. Qed.

Lemma inserted_snoc cs c :
  omap buffered_content (cs ++ [c])
  = omap buffered_content cs
    ++ match buffered_content c with Some x => [x] | None => [] end.
Proof.
  rewrite omap_app. cbn [omap list_omap]. destruct (buffered_content c); reflexivity.
Qed.

Lemma run_tracks cfg idx cs :
  let s := steps (new_service cfg idx) cs in
  exists refs,
    recent_buffer s = last_n (recent_buffer_size cfg) refs
    /\ tracks (heap s) refs (omap buffered_content cs).
Proof.
  induction cs as [|c cs IH] using rev_ind.
  - exists []. split; [reflexivity | constructor].
  - cbn zeta in *. destruct IH as (refs & Hbuf & Htr).
    rewrite steps_snoc, inserted_snoc.
    pose proof (steps_config (new_service cfg idx) cs) as Hcfg. cbn [config new_service] in Hcfg.
    set (s := steps (new_service cfg idx) cs) in *.
    destruct c as [w u a c md | w a c u md].
    + destruct (turn_new_items w u a c md s) as (first & rest & Heff & Hcont & _).
      rewrite Hcont.
      apply turn_effect_cases in Heff.
      destruct Heff as (extra & idx' & k & evs & -> & _).
      cbn [heap recent_buffer]. exists (refs ++ [length (heap s)]). split.
      * rewrite Hcfg, Hbuf. apply deque_append_last_n.
      * apply Forall2_app; [now apply tracks_app_heap|].
        constructor; [|constructor]. exists first. split; [|reflexivity].
        now apply list_lookup_middle.
    + destruct (save_response_effect w a c u md s) as (item & idx' & _ & _ & ->).
      cbn [buffered_content heap recent_buffer set_index set_heap]. rewrite app_nil_r.
      exists refs. split; [assumption | now apply tracks_app_heap].
Qed.

(* ------------------------------------------------------------------ *)
(** * The compactor never finds an exchange *)

Lemma user_refs_app_heap h new refs : user_refs h refs -> user_refs (h ++ new) refs.
Proof.
  unfold user_refs. intros H. eapply Forall_impl; [exact H|].
  intros r (it & Hr & Hrole). exists it. split; [now apply lookup_app_l_Some | assumption].
Qed.

Lemma user_refs_deref h refs :
  user_refs h refs ->
  length (deref h refs) = length refs
  /\ Forall (fun it => dict_get (metadata it) "role" = VStr "user") (deref h refs).
Proof.
  unfold deref. induction 1 as [|r refs (it & Hr & Hrole) _ [IHl IHf]].
  - split; [reflexivity | constructor].
  - cbn [omap list_omap]. rewrite Hr. cbn [length]. split; [now rewrite IHl|].
    now constructor.
Qed.

Lemma deque_append_In {A} n (d : list A) x y :
  In y (deque_append n d x) -> In y d \/ y = x.
Proof.
  unfold deque_append. destruct (n =? 0)%nat; [now left|].
  assert (In y (d ++ [x]) -> In y d \/ y = x) as H.
  { rewrite in_app_iff. cbn. intuition. }
  destruct (n <? length (d ++ [x]))%nat; [|exact H].
  intros Hy. apply H. destruct (d ++ [x]); [destruct Hy | now right].
Qed.

Lemma user_refs_append h first rest refs n :
  user_refs h refs ->
  dict_get (metadata first) "role" = VStr "user" ->
  user_refs (h ++ first :: rest) (deque_append n refs (length h)).
Proof.
  intros Hrefs Hfirst. unfold user_refs in *. rewrite List.Forall_forall in *.
  intros r Hr. apply deque_append_In in Hr. destruct Hr as [Hr | ->].
  - destruct (Hrefs r Hr) as (it & Hit & Hrole).
    exists it. split; [now apply lookup_app_l_Some | assumption].
  - exists first. split; [now apply list_lookup_middle | assumption].
Qed.

(** Without an item of the assistant, the pairing finds nothing. *)
Lemma conv_messages_users items conversation :
  Forall (fun it => dict_get (metadata it) "role" = VStr "user") items ->
  conv_messages items conversation = [].
Proof.
  intros Hall. unfold conv_messages.
  assert (forall item, find_ai_response items conversation item = None) as Hfind.
  { intros item. unfold find_ai_response.
    assert (List.find
              (fun next_item =>
                 String.eqb (conversation_id next_item) conversation
                 && eq_str (dict_get (metadata next_item) "role") "assistant"
                 && (timestamp item <? timestamp next_item)%Z) items = None) as ->;
      [|reflexivity].
    induction Hall as [|x l Hx _ IH]; [reflexivity|]. cbn [List.find].
    rewrite Hx. cbn [eq_str String.eqb]. rewrite andb_false_r. exact IH. }
  generalize items at 2. intros l. induction l as [|x l IH]; [reflexivity|].
  cbn [omap list_omap]. rewrite Hfind.
  destruct (String.eqb _ _ && eq_str _ _); exact IH.
Qed.

Lemma quiet_new cfg idx : quiet idx (new_service cfg idx).
Proof.
  split; [constructor|]. split; [constructor|].
  split; [apply written_from_refl|]. split; [reflexivity | constructor].
Qed.

Lemma quiet_step idx0 s c : quiet idx0 s -> quiet idx0 (step s c).
Proof.
  intros (Hrefs & Hheap & Hw & Hsum & Hev).
  destruct c as [w u a c md | w a c u md].
  - destruct (turn_new_items w u a c md s) as (first & rest & Heff & _ & Hnew).
    apply turn_effect_cases in Heff.
    destruct Heff as (extra & idx' & k & evs & -> & _ & _ & W & Hnil).
    assert (user_refs (heap s ++ first :: rest)
              (deque_append (recent_buffer_size (config s)) (recent_buffer s)
                            (length (heap s)))) as Hrefs'.
    { apply user_refs_append; [assumption|]. now inversion Hnew as [|? ? [? _] _]. }
    destruct Hnil as (-> & -> & Hevs).
    { apply conv_messages_users. now apply user_refs_deref. }
    rewrite app_nil_r in *. rewrite Nat.add_0_r.
    unfold quiet. cbn [heap recent_buffer index summarized_chunks events].
    split; [exact Hrefs'|]. split.
    { apply Forall_app. split; [assumption|].
      eapply Forall_impl; [exact Hnew|]. now intros it [_ Ht]. }
    split.
    { eapply written_from_app_r; [exact Hw | exact W]. }
    split; [assumption|]. apply Forall_app. now split.
  - destruct (save_response_effect w a c u md s) as (item & idx' & Htier & W & ->).
    unfold quiet. cbn [heap recent_buffer index summarized_chunks events set_index set_heap].
    split; [now apply user_refs_app_heap|]. split.
    { apply Forall_app. split; [assumption|]. constructor; [|constructor].
      rewrite Htier. discriminate. }
    split; [|now split].
    eapply written_from_app_r; [exact Hw | exact W].
Qed.

Lemma quiet_steps idx0 cs : forall s, quiet idx0 s -> quiet idx0 (steps s cs).
Proof.
  induction cs as [|c cs IH]; intros s Hs; [exact Hs|].
  cbn [steps fold_left]. apply IH. now apply quiet_step.
Qed.

(** C6. After any sequence of turns and manual saves on a new service,
    every item of the recency buffer is authored by the user, so the
    compactor pairs no exchange for any conversation; no item of tier
    compressed was ever created, every record written to the index comes
    from an item that is not a summary, no chunk was summarized, and the
    compactor never got past its attempt. *)
Theorem no_summary_in_automatic_path cfg idx cs :
  let s := steps (new_service cfg idx) cs in
  length (buffer_items s) = length (recent_buffer s)
  /\ Forall (fun it => dict_get (metadata it) "role" = VStr "user") (buffer_items s)
  /\ (forall conversation, conv_messages (buffer_items s) conversation = [])
  /\ Forall (fun it => storage_tier it <> COMPRESSED) (heap s)
  /\ written_from (heap s) idx (index s)
  /\ summarized_chunks s = 0
  /\ Forall (fun e => is_attempt e = true) (events s).
Proof.
  cbn zeta.
  destruct (quiet_steps idx cs _ (quiet_new cfg idx)) as (Hrefs & Hheap & Hw & Hsum & Hev).
  destruct (user_refs_deref _ _ Hrefs) as [Hlen Husers].
  split; [exact Hlen|]. split; [exact Husers|].
  split; [intros conversation; now apply conv_messages_users|].
  repeat split; assumption.
Qed.

(* ------------------------------------------------------------------ *)
(** * Turns without facts *)

(** C3, as the code has it. When fact extraction returns no fact (which
    includes the case where the model call raises), the turn creates
    exactly one item from the raw message: tier medium_term, expiry the
    configured number of days after the clock reading that follows the
    creation, and importance medium whatever the text; the only other
    item the call can create is a summary of the compactor. *)
Theorem raw_turn_item w s user_message ai_response conversation additional_metadata :
  _extract_canonical_facts w user_message = [] ->
  let s' := step s (StoreTurn w user_message ai_response conversation
                              additional_metadata) in
  exists summaries,
    heap s'
    = heap s
      ++ mkItem user_message
                (<["role" := VStr "user"]> (default ∅ additional_metadata))
                (clock w 0) conversation "chat" MEDIUM MEDIUM_TERM
                (Some (clock w 1
                       + Datetime.timedelta_days (medium_term_ttl_days (config s)))%Z)
         :: summaries
    /\ Forall (fun it => storage_tier it = COMPRESSED) summaries.
Proof.
  intros Hfacts. cbn zeta.
  pose proof (store_turn_no_facts w user_message ai_response conversation
                additional_metadata s Hfacts) as Heff.
  apply turn_effect_cases in Heff.
  destruct Heff as (extra & idx' & k & evs & -> & _ & Hextra & _).
  exists extra. split; [reflexivity | exact Hextra].
Qed.

Lemma extraction_error_no_facts w user_message :
  extraction_reply w user_message = None ->
  _extract_canonical_facts w user_message = [].
Proof. unfold _extract_canonical_facts. now intros ->. Qed.

(* ------------------------------------------------------------------ *)
(** * Compaction attempts *)

(** C2, as the code has it. Starting from an empty buffer of capacity [n],
    the number of compaction attempts after [k] turns is [attempts_after n
    k]: none before the buffer is full, then one on the turn that fills it
    and one more on every later turn, since the test is that the buffer
    holds exactly [n] items and a full buffer stays at [n]. Manual saves
    add none. *)
Theorem compaction_attempt_on_every_full_insert cfg idx cs :
  attempts (steps (new_service cfg idx) cs)
  = attempts_after (recent_buffer_size cfg) (turns cs).
Proof. apply run_length_and_attempts. Qed.

(** C2 as stated fails: with the default capacity of 50, the first attempt
    is on the 50th turn and a second one follows on the 51st, while the
    buffer stays full. *)
Lemma second_attempt_on_next_insert :
  attempts (steps Examples.empty_service (Examples.ok_turns 49)) = 0
  /\ attempts (steps Examples.empty_service (Examples.ok_turns 50)) = 1
  /\ attempts (steps Examples.empty_service (Examples.ok_turns 51)) = 2
  /\ length (recent_buffer (steps Examples.empty_service (Examples.ok_turns 51))) = 50.
Proof. vm_compute. repeat split; reflexivity. Qed.

(* ------------------------------------------------------------------ *)
(** * The buffer bound *)

(** C10. On a buffer of capacity [n] that started empty, after the turns
    of a run have inserted [n + k] items, exactly [n] items remain and
    they are the last [n] inserted, in order: the first [k] were dropped,
    oldest first, whatever their tier. *)
Theorem buffer_keeps_most_recent cfg idx cs k :
  length (omap buffered_content cs) = recent_buffer_size cfg + k ->
  let s := steps (new_service cfg idx) cs in
  length (buffer_items s) = recent_buffer_size cfg
  /\ map content (buffer_items s) = skipn k (omap buffered_content cs).
Proof.
  intros Hlen. cbn zeta.
  destruct (run_tracks cfg idx cs) as (refs & Hbuf & Htr).
  pose proof (Forall2_length _ _ _ Htr) as Hrefs.
  unfold buffer_items. rewrite Hbuf. unfold last_n.
  pose proof (tracks_deref _ _ _ (tracks_drop _ _ _ (length refs - recent_buffer_size cfg) Htr))
    as Hmap.
  replace (length refs - recent_buffer_size cfg) with k in * by lia.
  split; [|exact Hmap].
  apply (f_equal (@length string)) in Hmap.
  rewrite length_map, length_skipn in Hmap. lia.
Qed.

Lemma buffer_keeps_most_recent_witness :
  length (omap buffered_content Examples.three_turns)
  = recent_buffer_size Examples.small_config + 1
  /\ (let s := steps (new_service Examples.small_config ∅) Examples.three_turns in
      length (buffer_items s) = recent_buffer_size Examples.small_config
      /\ map content (buffer_items s) = skipn 1 (omap buffered_content Examples.three_turns)).
Proof.
  split; [reflexivity|].
  apply (buffer_keeps_most_recent Examples.small_config ∅ Examples.three_turns 1).
  reflexivity.
Defined.

(* ------------------------------------------------------------------ *)
(** * Identifiers *)

(** C1, as the code has it. In [MemoryService] the id is a function of
    the kind, the scope and the normalized content: two items that agree
    on these get the same id, and when both are stored the second record
    replaces the first, so the index holds the same ids as after the first
    store. *)
Theorem backend_resubmit_overwrites nfkc w1 w2 idx (a b : Backend.MemoryItem) i1 i2 :
  Backend.kind_of a = Backend.kind_of b ->
  Backend.scope_of a = Backend.scope_of b ->
  Backend._normalize_text nfkc (Backend.content a)
  = Backend._normalize_text nfkc (Backend.content b) ->
  Backend.store_memory nfkc w1 idx a = (true, i1) ->
  Backend.store_memory nfkc w2 i1 b = (true, i2) ->
  Backend.memory_id_of nfkc a = Backend.memory_id_of nfkc b
  /\ dom i2 = dom i1
  /\ (exists v, i2 !! Backend.memory_id_of nfkc a = Some v
                /\ v_metadata v = Backend.stored_metadata b).
Proof.
  intros Hkind Hscope Hnorm Ha Hb.
  assert (Backend.memory_id_of nfkc a = Backend.memory_id_of nfkc b) as Hid.
  { unfold Backend.memory_id_of, Backend._make_memory_id.
    now rewrite Hkind, Hscope, Hnorm. }
  split; [exact Hid|].
  unfold Backend.store_memory in *.
  destruct (embed w1 (Backend.content a)) as [ea|]; [|discriminate].
  destruct (upsert_ok w1); [|discriminate].
  destruct (embed w2 (Backend.content b)) as [eb|]; [|discriminate].
  destruct (upsert_ok w2); [|discriminate].
  apply (f_equal snd) in Ha. cbn [snd] in Ha. subst i1.
  apply (f_equal snd) in Hb. cbn [snd] in Hb. subst i2.
  rewrite <- Hid. split.
  - rewrite insert_insert_eq, !dom_insert_L. reflexivity.
  - eexists. rewrite lookup_insert_eq. split; reflexivity.
Qed.

Lemma backend_resubmit_overwrites_witness :
  let nfkc := fun s : string => s in
  let w := Examples.world_at Examples.noon in
  let i1 := snd (Backend.store_memory nfkc w ∅ Examples.greeting) in
  let i2 := snd (Backend.store_memory nfkc w i1 Examples.greeting_again) in
  Backend.memory_id_of nfkc Examples.greeting
  = Backend.memory_id_of nfkc Examples.greeting_again
  /\ dom i2 = dom i1
  /\ (exists v, i2 !! Backend.memory_id_of nfkc Examples.greeting = Some v
                /\ v_metadata v = Backend.stored_metadata Examples.greeting_again).
Proof.
  cbn zeta.
  apply (backend_resubmit_overwrites (fun s => s) (Examples.world_at Examples.noon)
           (Examples.world_at Examples.noon) ∅ Examples.greeting Examples.greeting_again);
    reflexivity.
Defined.

(** C1 as stated fails on [HybridMemoryService]: its ids also hash the
    instant of the call, so the same content stored again in the same
    conversation, an hour later, gets a second id and a second record. *)
Lemma hybrid_resubmit_duplicates :
  map fst (map_to_list (index Examples.after_ok))
  = ["f6950f43364d4443245ac0e0ae679da1"]
  /\ map fst (map_to_list (index Examples.after_ok_twice))
     = ["f6950f43364d4443245ac0e0ae679da1"; "8bd2012fda53085609b8e043be800a4c"]
  /\ map (fun kv : string * Vector => dict_get (v_metadata (snd kv)) "content")
         (map_to_list (index Examples.after_ok_twice))
     = [VStr "ok"; VStr "ok"].
Proof. vm_compute. repeat split; reflexivity. Qed.

(** C3 as stated fails on the importance: the classifier rates [ok] low,
    and the item the turn creates (and the record it stores) has
    importance medium. *)
Lemma raw_turn_importance_is_fixed :
  Classifier.importance_of "ok" = LOW
  /\ map importance (heap Examples.after_ok) = [MEDIUM]
  /\ map (fun kv : string * Vector => dict_get (v_metadata (snd kv)) "importance")
         (map_to_list (index Examples.after_ok))
     = [VStr "medium"].
Proof. vm_compute. repeat split; reflexivity. Qed.

Lemma raw_turn_item_witness :
  _extract_canonical_facts (Examples.world_at Examples.noon) "ok" = []
  /\ exists summaries,
      heap Examples.after_ok
      = heap Examples.empty_service
        ++ mkItem "ok" (<["role" := VStr "user"]> (default ∅ None))
                  (clock (Examples.world_at Examples.noon) 0) "c1" "chat" MEDIUM MEDIUM_TERM
                  (Some (clock (Examples.world_at Examples.noon) 1
                         + Datetime.timedelta_days
                             (medium_term_ttl_days (config Examples.empty_service)))%Z)
           :: summaries
      /\ Forall (fun it => storage_tier it = COMPRESSED) summaries.
Proof.
  split; [reflexivity|].
  apply (raw_turn_item (Examples.world_at Examples.noon) Examples.empty_service
           "ok" "Va bene!" "c1" None).
  reflexivity.
Defined.

(* ------------------------------------------------------------------ *)
(** * Retrieval *)

Section SortFacts.
Context {A K : Type} (key : A -> K) (lt : K -> K -> bool).

Lemma insert_desc_perm x l : Permutation (insert_desc key lt x l) (x :: l).
Proof.
  induction l as [|y l IH]; cbn [insert_desc]; [reflexivity|].
  destruct (lt (key x) (key y)); [|reflexivity].
  rewrite IH. apply perm_swap.
Qed.

(** Sorting rearranges the list and drops nothing. *)
Lemma sort_desc_perm l : Permutation (sort_desc key lt l) l.
Proof.
  induction l as [|x l IH]; cbn [sort_desc fold_right]; [reflexivity|].
  fold (sort_desc key lt l). rewrite insert_desc_perm. now constructor.
Qed.

Lemma sort_desc_In x l : In x (sort_desc key lt l) <-> In x l.
Proof.
  split; apply Permutation_in; [|symmetry]; apply sort_desc_perm.
Qed.
End SortFacts.

Lemma firstn_In {A} n (l : list A) x : In x (firstn n l) -> In x l.
Proof.
  intros H. rewrite <- (firstn_skipn n l). apply in_or_app. now left.
Qed.

Lemma py_prefix_In {A} limit (l : list A) x : In x (py_prefix limit l) -> In x l.
Proof.
  unfold py_prefix. destruct (0 <=? limit)%Z; apply firstn_In.
Qed.

Lemma py_prefix_all {A} limit (l : list A) :
  (Z.of_nat (length l) <= limit)%Z -> py_prefix limit l = l.
Proof.
  intros H. unfold py_prefix. destruct (Z.leb_spec 0 limit); [|lia].
  apply firstn_all2. lia.
Qed.

Lemma search_loop_source qw conv items m :
  In m (search_loop qw conv items) -> m_source m = "recent".
Proof.
  revert conv. induction items as [|item items IH]; intros conv; cbn [search_loop].
  - intros [].
  - destruct (given conv && _); [apply IH|].
    destruct (0 <? _)%nat; [|apply IH].
    destruct (is_test_item item); [apply IH|].
    intros [<-|H]; [reflexivity | now apply IH in H].
Qed.

Lemma match_ttl_entry mt :
  match_ttl (m_metadata (permanent_entry mt)) = match_ttl (match_metadata mt).
Proof.
  unfold match_ttl, dict_get, permanent_entry. cbn [m_metadata].
  now rewrite !lookup_delete_ne by discriminate.
Qed.

(** An entry of the scan is the entry of a match that scored at least the
    threshold, whose expiry, if it has one, was not before the clock
    reading taken for it. *)
Lemma scan_matches_In w th ms : forall tick m,
  In m (scan_matches w th tick ms) ->
  exists mt,
    In mt ms /\ m = permanent_entry mt
    /\ (forall t, match_ttl (match_metadata mt) = Done (Some t) ->
                  exists k, (clock w k <= t)%Z).
Proof.
  induction ms as [|mt ms IH]; intros tick m; cbn [scan_matches]; [intros []|].
  assert (forall tick', In m (scan_matches w th tick' ms) ->
          exists mt0, In mt0 (mt :: ms) /\ m = permanent_entry mt0
            /\ (forall t, match_ttl (match_metadata mt0) = Done (Some t) ->
                          exists k, (clock w k <= t)%Z)) as Hrest.
  { intros tick' H. destruct (IH _ _ H) as (mt0 & Hin & Hm & Ht).
    exists mt0. split; [now right | now split]. }
  destruct (th <=? match_score mt)%float; [|apply Hrest].
  destruct (match_ttl (match_metadata mt)) as [[ttl_date|]|] eqn:Httl.
  - destruct (Z.ltb_spec ttl_date (clock w tick)) as [Hexp|Hlive]; [apply Hrest|].
    destruct (is_test_match (match_metadata mt)) as [[]|]; [apply Hrest| |intros []].
    intros [<-|H]; [|now apply Hrest in H].
    exists mt. split; [now left|]. split; [reflexivity|].
    intros t Ht. rewrite Httl in Ht. injection Ht as Ht. subst t. now exists tick.
  - destruct (is_test_match (match_metadata mt)) as [[]|]; [apply Hrest| |intros []].
    intros [<-|H]; [|now apply Hrest in H].
    exists mt. split; [now left|]. split; [reflexivity|].
    intros t Ht. rewrite Httl in Ht. discriminate Ht.
  - intros [].
Qed.

Lemma index_query_passes w idx vector top_k flt ms mt :
  index_query w idx vector top_k flt = Some ms ->
  In mt ms -> passes flt (match_metadata mt) = true.
Proof.
  unfold index_query. destruct (negb (query_ok w) || (top_k <? 1)%Z); [discriminate|].
  intros [= <-] Hin. apply firstn_In in Hin. apply sort_desc_In in Hin.
  apply filter_In in Hin. apply Hin.
Qed.

Lemma search_permanent_In w s q conv limit m :
  In m (search_permanent w s q conv limit) ->
  exists mt,
    m = permanent_entry mt
    /\ passes (filter_conditions conv) (match_metadata mt) = true
    /\ (forall t, match_ttl (match_metadata mt) = Done (Some t) ->
                  exists k, (clock w k <= t)%Z).
Proof.
  unfold search_permanent. destruct (embed w q) as [e|]; [|intros []].
  destruct (index_query _ _ _ _ _) as [ms|] eqn:E; [|intros []].
  intros H. apply scan_matches_In in H. destruct H as (mt & Hin & Hm & Ht).
  exists mt. split; [assumption|]. split; [|assumption].
  eapply index_query_passes; eassumption.
Qed.

Lemma retrieve_In w s q conv limit incl m :
  In m (retrieve_memories w s q conv limit incl) ->
  In m (if incl then _search_recent_buffer s q conv else [])
  \/ In m (search_permanent w s q conv limit).
Proof.
  unfold retrieve_memories. intros H. apply py_prefix_In in H.
  apply sort_desc_In in H. now apply in_app_or in H.
Qed.

Lemma retrieve_permanent w s q conv limit incl m :
  In m (retrieve_memories w s q conv limit incl) ->
  m_source m = "permanent" ->
  In m (search_permanent w s q conv limit).
Proof.
  intros H Hsrc. apply retrieve_In in H. destruct H as [H|H]; [|assumption].
  destruct incl; [|destruct H].
  apply search_loop_source in H. rewrite H in Hsrc. discriminate.
Qed.

(** C4, as the code has it. A match of the persistent store whose expiry
    is earlier than the current time (every reading of the clock during
    the call) is never part of the result, however well it scores. *)
Theorem expired_persistent_excluded w s query conversation limit include_recent m t :
  (forall k, (t < clock w k)%Z) ->
  m_source m = "permanent" ->
  match_ttl (m_metadata m) = Done (Some t) ->
  ~ In m (retrieve_memories w s query conversation limit include_recent).
Proof.
  intros Hexp Hsrc Httl Hin.
  apply retrieve_permanent in Hin; [|assumption].
  apply search_permanent_In in Hin. destruct Hin as (mt & -> & _ & Ht).
  rewrite match_ttl_entry in Httl. destruct (Ht t Httl) as [k Hk].
  specialize (Hexp k). lia.
Qed.

Lemma expired_persistent_excluded_witness :
  (forall k, (Examples.ok_expiry < clock (Examples.world_at Examples.a_month_later) k)%Z)
  /\ m_source Examples.ok_entry = "permanent"
  /\ match_ttl (m_metadata Examples.ok_entry) = Done (Some Examples.ok_expiry)
  /\ ~ In Examples.ok_entry
          (retrieve_memories (Examples.world_at Examples.a_month_later)
             Examples.after_ok "ok" (Some "c1") 20 true).
Proof.
  assert (forall k, (Examples.ok_expiry
                     < clock (Examples.world_at Examples.a_month_later) k)%Z) as Hexp.
  { intros k. cbn [clock Examples.world_at].
    assert (Examples.ok_expiry < Examples.a_month_later)%Z by reflexivity. lia. }
  split; [exact Hexp|]. split; [reflexivity|]. split; [reflexivity|].
  apply (expired_persistent_excluded _ _ _ _ _ _ _ Examples.ok_expiry);
    [exact Hexp | reflexivity | reflexivity].
Defined.

(** C4 as stated fails on the recency buffer: the item of the turn [ok]
    carries an expiry thirty days after noon, and a month later the
    search of the buffer still returns it (the copy in the persistent
    store is dropped). The same entry is returned well before the expiry,
    next to the persistent one. *)
Lemma expired_buffer_item_returned :
  map ttl (buffer_items Examples.after_ok) = [Some Examples.ok_expiry]
  /\ (Examples.ok_expiry < Examples.a_month_later)%Z
  /\ map (fun m => (m_source m, m_content m))
         (retrieve_memories (Examples.world_at Examples.a_month_later)
            Examples.after_ok "ok" (Some "c1") 20 true)
     = [("recent", VStr "ok")].
Proof. vm_compute. repeat split; reflexivity. Qed.

Lemma str_in_two s a b : str_in s [a; b] = true -> s = a \/ s = b.
Proof.
  unfold str_in. cbn [existsb]. rewrite orb_false_r, orb_true_iff, !String.eqb_eq.
  tauto.
Qed.

(** C5, as the code has it. When a non-empty conversation id is given,
    every entry that comes from the persistent store belongs to that
    conversation or to [global]; when none is given ([None] or the empty
    string) the query carries no filter, and every record passes. *)
Theorem persistent_query_scope w s query conversation limit include_recent :
  if given conversation
  then forall m,
      In m (retrieve_memories w s query conversation limit include_recent) ->
      m_source m = "permanent" ->
      m_conversation_id m = VStr (default "" conversation)
      \/ m_conversation_id m = VStr "global"
  else filter_conditions conversation = None
       /\ forall meta, passes (filter_conditions conversation) meta = true.
Proof.
  destruct (given conversation) eqn:Hgiven.
  - intros m Hin Hsrc. apply retrieve_permanent in Hin; [|assumption].
    apply search_permanent_In in Hin. destruct Hin as (mt & -> & Hpass & _).
    unfold filter_conditions in Hpass. rewrite Hgiven in Hpass.
    cbn [passes] in Hpass. unfold permanent_entry, dict_get. cbn [m_conversation_id].
    destruct (match_metadata mt !! "conversation_id") as [[| | | |c]|];
      try discriminate Hpass.
    cbn [default]. apply str_in_two in Hpass. destruct Hpass as [-> | ->]; auto.
  - unfold filter_conditions. rewrite Hgiven. split; reflexivity.
Qed.

(** C5 as stated fails without a conversation id: the query is not
    restricted to [global], and a record of the conversation [other] is
    returned. *)
Lemma unscoped_query_returns_other_conversations :
  map (fun m => (m_source m, m_conversation_id m, m_content m))
      (retrieve_memories (Examples.world_at Examples.noon) Examples.other_service
         "ok" None 20 true)
  = [("permanent", VStr "other", VStr "ok from elsewhere")].
Proof. vm_compute. reflexivity. Qed.

(** C7, as the code has it. The result is the concatenation of the
    matches of the recency buffer and of the persistent store, sorted and
    cut at [limit]; nothing is removed for having the same content. When
    [limit] is at least the number of matches, the result is a
    rearrangement of all of them, so a text found in both sources appears
    once per source. *)
Theorem merge_keeps_every_match w s query conversation limit :
  (Z.of_nat (length (_search_recent_buffer s query conversation
                     ++ search_permanent w s query conversation limit)) <= limit)%Z ->
  Permutation (retrieve_memories w s query conversation limit true)
              (_search_recent_buffer s query conversation
               ++ search_permanent w s query conversation limit).
Proof.
  intros Hlimit. unfold retrieve_memories. rewrite py_prefix_all.
  - apply sort_desc_perm.
  - rewrite (Permutation_length (sort_desc_perm sort_key key_lt _)). exact Hlimit.
Qed.

Lemma merge_keeps_every_match_witness :
  let w := Examples.world_at (Examples.noon + 5)%Z in
  (Z.of_nat (length (_search_recent_buffer Examples.after_ok "ok" (Some "c1")
                     ++ search_permanent w Examples.after_ok "ok" (Some "c1") 20)) <= 20)%Z
  /\ Permutation (retrieve_memories w Examples.after_ok "ok" (Some "c1") 20 true)
                 (_search_recent_buffer Examples.after_ok "ok" (Some "c1")
                  ++ search_permanent w Examples.after_ok "ok" (Some "c1") 20).
Proof.
  cbn zeta.
  assert (Z.of_nat (length (_search_recent_buffer Examples.after_ok "ok" (Some "c1")
                            ++ search_permanent (Examples.world_at (Examples.noon + 5)%Z)
                                 Examples.after_ok "ok" (Some "c1") 20)) <= 20)%Z as H.
  { vm_compute. discriminate. }
  split; [exact H|].
  apply (merge_keeps_every_match (Examples.world_at (Examples.noon + 5)%Z)
           Examples.after_ok "ok" (Some "c1") 20 H).
Defined.

(** C7 as stated fails: after the turn [ok], the query [ok] finds the text
    in the recency buffer and in the persistent store, and the result
    holds it twice. *)
Lemma same_content_returned_twice :
  map (fun m => (m_source m, m_content m))
      (retrieve_memories (Examples.world_at (Examples.noon + 5)%Z)
         Examples.after_ok "ok" (Some "c1") 20 true)
  = [("recent", VStr "ok"); ("permanent", VStr "ok")]
  /\ search_permanent (Examples.world_at (Examples.noon + 5)%Z)
       Examples.after_ok "ok" (Some "c1") 20
     = [Examples.ok_entry].
Proof. vm_compute. split; reflexivity. Qed.

(* ================================================================== *)
(** * Further properties of the code *)

(* ------------------------------------------------------------------ *)
(** ** The recency buffer search *)

(** What the loop of [_search_recent_buffer] appends: the entry of an item
    of the buffer that is no test data and shares a word with the query,
    scored by the share of the query's words it contains. *)
Lemma search_loop_sound qw conv items m :
  In m (search_loop qw conv items) ->
  exists item,
    In item items /\ is_test_item item = false
    /\ (exists word, word ∈ qw /\ word ∈ words (content item))
    /\ m = recent_entry item
             (float_of_nat (size (qw ∩ words (content item)))
              / float_of_nat (size qw))%float.
Proof.
  revert conv. induction items as [|item items IH]; intros conv; cbn [search_loop].
  - intros [].
  - assert (forall conv', In m (search_loop qw conv' items) ->
            exists item0,
              In item0 (item :: items) /\ is_test_item item0 = false
              /\ (exists word, word ∈ qw /\ word ∈ words (content item0))
              /\ m = recent_entry item0
                       (float_of_nat (size (qw ∩ words (content item0)))
                        / float_of_nat (size qw))%float) as Hrest.
    { intros conv' H. destruct (IH _ H) as (it & Hin & Hrest). exists it.
      split; [now right | exact Hrest]. }
    destruct (given conv && _); [apply Hrest|].
    destruct (0 <? _)%nat eqn:Hov; [|apply Hrest].
    destruct (is_test_item item) eqn:Htest; [apply Hrest|].
    intros [<-|H]; [|now apply Hrest in H].
    exists item. split; [now left|]. split; [assumption|]. split; [|reflexivity].
    apply Nat.ltb_lt in Hov.
    destruct (set_choose_L (qw ∩ words (content item))) as [word Hword].
    { intros Hempty. rewrite Hempty, size_empty in Hov. lia. }
    exists word. now apply elem_of_intersection in Hword.
Qed.

(** With a conversation id, the loop keeps to the items of that
    conversation. *)
Lemma search_loop_scoped qw c items m :
  c <> "" ->
  In m (search_loop qw (Some c) items) ->
  m_conversation_id m = VStr c.
Proof.
  intros Hc. induction items as [|item items IH]; cbn [search_loop]; [intros []|].
  assert (given (Some c) = true) as ->.
  { destruct c; [congruence | reflexivity]. }
  cbn [andb]. change (default "" (Some c)) with c.
  destruct (String.eqb_spec (conversation_id item) c) as [E|E];
    cbn [negb]; [|exact IH].
  rewrite E. destruct (0 <? _)%nat; [|exact IH].
  destruct (is_test_item item); [exact IH|].
  intros [<-|H]; [|now apply IH].
  cbn [recent_entry m_conversation_id]. now rewrite E.
Qed.

(** Without one, the loop takes over the conversation of the first item
    that shares a word with the query: the entries whose conversation id
    is not empty all have the same one. *)
Lemma search_loop_pinned qw conv items :
  exists c,
    (given conv = true -> conv = Some c)
    /\ Forall (fun m => m_conversation_id m = VStr c \/ m_conversation_id m = VStr "")
              (search_loop qw conv items).
Proof.
  revert conv. induction items as [|item items IH]; intros conv; cbn [search_loop].
  - exists (default "" conv). split; [|constructor].
    destruct conv as [c|]; [reflexivity | discriminate].
  - destruct (given conv) eqn:Hg; cbn [andb].
    + destruct conv as [c|]; [|discriminate].
      assert (c <> "") as Hc. { intros ->. discriminate. }
      exists c. split; [reflexivity|]. apply Forall_forall. intros m Hm. left.
      apply (search_loop_scoped qw c (item :: items) m Hc).
      apply list_elem_of_In in Hm.
      cbn [search_loop]. rewrite Hg. cbn [andb]. exact Hm.
    + destruct (0 <? _)%nat.
      * destruct (IH (Some (conversation_id item))) as (c & Hc & Hall).
        exists c. split; [discriminate|].
        destruct (is_test_item item); [exact Hall|].
        constructor; [|exact Hall].
        cbn [recent_entry m_conversation_id].
        destruct (given (Some (conversation_id item))) eqn:Hg'.
        -- left. specialize (Hc eq_refl). congruence.
        -- right. cbn [given] in Hg'. apply negb_false_iff in Hg'.
           destruct (conversation_id item); [reflexivity | discriminate].
      * destruct (IH conv) as (c & Hc & Hall). exists c. split; [|exact Hall].
        discriminate.
Qed.

(** X1. Every entry the search of the recency buffer returns is the entry
    of an item of the buffer that is no test data and shares a word with
    the query (both lowercased and split at whitespace); its score is the
    number of shared words over the number of words of the query. *)
Theorem buffer_entry_sound s query conversation m :
  In m (_search_recent_buffer s query conversation) ->
  exists item,
    In item (buffer_items s) /\ is_test_item item = false
    /\ (exists word, word ∈ words query /\ word ∈ words (content item))
    /\ m = recent_entry item
             (float_of_nat (size (words query ∩ words (content item)))
              / float_of_nat (size (words query)))%float.
Proof.
  unfold _search_recent_buffer. intros H. apply search_loop_sound in H.
  destruct H as (item & Hin & Hrest). exists item. split; [|exact Hrest].
  apply in_rev in Hin. exact Hin.
Qed.

Lemma buffer_entry_sound_witness :
  exists m,
    In m (_search_recent_buffer Examples.after_ok "ok" None)
    /\ exists item,
         In item (buffer_items Examples.after_ok) /\ is_test_item item = false
         /\ (exists word, word ∈ words "ok" /\ word ∈ words (content item))
         /\ m = recent_entry item
                  (float_of_nat (size (words "ok" ∩ words (content item)))
                   / float_of_nat (size (words "ok")))%float.
Proof.
  eexists. split; [vm_compute; left; reflexivity|].
  apply (buffer_entry_sound Examples.after_ok "ok" None).
  vm_compute. left. reflexivity.
Defined.

(** X2. With a conversation id that is not empty, the search of the
    recency buffer returns entries of that conversation only. *)
Theorem buffer_search_scoped s query c m :
  c <> "" ->
  In m (_search_recent_buffer s query (Some c)) ->
  m_conversation_id m = VStr c.
Proof. intros Hc. apply search_loop_scoped, Hc. Qed.

Lemma buffer_search_scoped_witness :
  exists m,
    "c1" <> ""
    /\ In m (_search_recent_buffer Examples.after_ok "ok" (Some "c1"))
    /\ m_conversation_id m = VStr "c1".
Proof.
  eexists. split; [discriminate|]. split; [vm_compute; left; reflexivity|].
  apply (buffer_search_scoped Examples.after_ok "ok" "c1"); [discriminate|].
  vm_compute. left. reflexivity.
Defined.

(** X3. Whatever conversation id is given (none included), the entries
    the search of the recency buffer returns whose conversation id is not
    empty all belong to one conversation: the loop reassigns its variable
    [conversation_id] at the first item that shares a word with the query,
    and filters the older items by it. *)
Theorem buffer_search_one_conversation s query conversation :
  exists c,
    Forall (fun m => m_conversation_id m = VStr c \/ m_conversation_id m = VStr "")
           (_search_recent_buffer s query conversation).
Proof.
  destruct (search_loop_pinned (words query) conversation
              (rev (deref (heap s) (recent_buffer s)))) as (c & _ & H).
  exists c. exact H.
Qed.

(* ------------------------------------------------------------------ *)
(** ** Comparison of floats *)

Lemma SFcompare_antisym x y c :
  SpecFloat.SFcompare x y = Some c -> SpecFloat.SFcompare y x = Some (CompOpp c).
Proof.
  destruct x as [sx|sx| |sx mx ex], y as [sy|sy| |sy my ey]; cbn;
    try discriminate; try (intros [= <-]).
  all: try (destruct sx; reflexivity); try (destruct sy; reflexivity);
    try (destruct sx, sy; reflexivity).
  destruct sx, sy; try reflexivity.
  - rewrite (Z.compare_antisym ex ey). destruct (ex ?= ey)%Z eqn:E; cbn; try reflexivity.
    now rewrite (Pos.compare_cont_antisym mx my Eq).
  - rewrite (Z.compare_antisym ex ey). destruct (ex ?= ey)%Z eqn:E; cbn; try reflexivity.
    now rewrite (Pos.compare_cont_antisym mx my Eq).
Qed.

Lemma ltb_asym (x y : float) : (x <? y)%float = true -> (y <? x)%float = false.
Proof.
  rewrite !FloatAxioms.ltb_spec. unfold SpecFloat.SFltb.
  destruct (SpecFloat.SFcompare (Prim2SF x) (Prim2SF y)) as [[]|] eqn:E; try discriminate.
  apply SFcompare_antisym in E. now rewrite E.
Qed.

Lemma eqb_sym (x y : float) : (x =? y)%float = (y =? x)%float.
Proof.
  rewrite !FloatAxioms.eqb_spec. unfold SpecFloat.SFeqb.
  destruct (SpecFloat.SFcompare (Prim2SF x) (Prim2SF y)) as [c|] eqn:E.
  - apply SFcompare_antisym in E. rewrite E. now destruct c.
  - destruct (SpecFloat.SFcompare (Prim2SF y) (Prim2SF x)) as [c|] eqn:E'; [|reflexivity].
    apply SFcompare_antisym in E'. congruence.
Qed.

Lemma key_lt_asym a b : key_lt a b = true -> key_lt b a = false.
Proof.
  unfold key_lt. rewrite (eqb_sym (fst b) (fst a)).
  destruct (fst a =? fst b)%float; apply ltb_asym.
Qed.

(* ------------------------------------------------------------------ *)
(** ** The order of a sorted list *)

Section SortOrder.
Context {A K : Type} (key : A -> K) (lt : K -> K -> bool).
Hypothesis lt_asym : forall a b, lt a b = true -> lt b a = false.

Local Abbreviation ge := (fun x y : A => lt (key x) (key y) = false).

Lemma insert_desc_sorted x l :
  Sorted.LocallySorted ge l -> Sorted.LocallySorted ge (insert_desc key lt x l).
Proof.
  induction 1 as [|y|y z l Hl IH Hyz]; cbn [insert_desc].
  - constructor.
  - destruct (lt (key x) (key y)) eqn:E.
    + constructor; [constructor|]. apply lt_asym, E.
    + constructor; [constructor|exact E].
  - destruct (lt (key x) (key y)) eqn:E.
    + cbn [insert_desc] in IH. destruct (lt (key x) (key z)) eqn:E'.
      * constructor; assumption.
      * constructor; [exact IH|]. apply lt_asym, E.
    + constructor; [|exact E]. constructor; assumption.
Qed.

Lemma sort_desc_sorted l : Sorted.LocallySorted ge (sort_desc key lt l).
Proof.
  induction l as [|x l IH]; cbn; [constructor|].
  apply insert_desc_sorted, IH.
Qed.

Lemma sorted_adjacent l pre a b post :
  Sorted.LocallySorted ge l -> l = pre ++ a :: b :: post -> ge a b.
Proof.
  intros H. revert pre. induction H as [|y|y z l Hl IH Hyz]; intros pre E.
  - destruct pre; discriminate.
  - destruct pre as [|? [|]]; discriminate.
  - destruct pre as [|p pre]; cbn in E.
    + injection E as -> -> _. exact Hyz.
    + injection E as -> E. apply (IH pre E).
Qed.
End SortOrder.

Lemma firstn_adjacent {A} n (l pre post : list A) a b :
  firstn n l = pre ++ a :: b :: post -> exists post', l = pre ++ a :: b :: post'.
Proof.
  intros H. exists (post ++ skipn n l).
  rewrite <- (firstn_skipn n l) at 1. rewrite H, <- app_assoc. reflexivity.
Qed.

(* ------------------------------------------------------------------ *)
(** ** The merged result *)

(** X4. In the result of [retrieve_memories] no entry is directly
    followed by one that ranks strictly higher by (score, importance
    weight). *)
Theorem retrieve_sorted w s query conversation limit include_recent pre a b post :
  retrieve_memories w s query conversation limit include_recent
  = pre ++ a :: b :: post ->
  key_lt (sort_key a) (sort_key b) = false.
Proof.
  unfold retrieve_memories, py_prefix. intros E.
  assert (exists post', sort_desc sort_key key_lt
            ((if include_recent then _search_recent_buffer s query conversation else [])
             ++ search_permanent w s query conversation limit)
          = pre ++ a :: b :: post') as [post' E'].
  { destruct (0 <=? limit)%Z; eapply firstn_adjacent, E. }
  eapply (sorted_adjacent sort_key key_lt); [|exact E'].
  apply sort_desc_sorted, key_lt_asym.
Qed.

Lemma retrieve_sorted_witness :
  exists a b,
    retrieve_memories (Examples.world_at Examples.noon) Examples.after_ok "ok"
                      (Some "c1") 20 true = [] ++ a :: b :: []
    /\ key_lt (sort_key a) (sort_key b) = false.
Proof.
  eexists _, _. split; [vm_compute; reflexivity|].
  eapply (retrieve_sorted (Examples.world_at Examples.noon) Examples.after_ok "ok"
            (Some "c1") 20 true []).
  vm_compute. reflexivity.
Defined.

(** X5. For a limit that is not negative, [retrieve_memories] returns at
    most [limit] entries. *)
Theorem retrieve_at_most_limit w s query conversation limit include_recent :
  (0 <= limit)%Z ->
  (Z.of_nat (length (retrieve_memories w s query conversation limit include_recent))
   <= limit)%Z.
Proof.
  intros H. unfold retrieve_memories, py_prefix.
  destruct (Z.leb_spec 0 limit); [|lia].
  rewrite length_firstn. lia.
Qed.

Lemma retrieve_at_most_limit_witness :
  (0 <= 1)%Z
  /\ (Z.of_nat (length (retrieve_memories (Examples.world_at Examples.noon)
                          Examples.after_ok "ok" (Some "c1") 1 true)) <= 1)%Z.
Proof.
  split; [lia|].
  apply (retrieve_at_most_limit (Examples.world_at Examples.noon) Examples.after_ok
           "ok" (Some "c1") 1 true). lia.
Defined.

(* ------------------------------------------------------------------ *)
(** ** The entries of the persistent store *)

(** What the loop over the matches appends: the entry of a match that
    scored at least the threshold and is no test data. *)
Lemma scan_matches_sound w th ms : forall tick m,
  In m (scan_matches w th tick ms) ->
  exists mt,
    In mt ms /\ m = permanent_entry mt
    /\ (th <=? match_score mt)%float = true
    /\ is_test_match (match_metadata mt) = Done false.
Proof.
  induction ms as [|mt ms IH]; intros tick m; cbn [scan_matches]; [intros []|].
  assert (forall tick', In m (scan_matches w th tick' ms) ->
          exists mt0, In mt0 (mt :: ms) /\ m = permanent_entry mt0
            /\ (th <=? match_score mt0)%float = true
            /\ is_test_match (match_metadata mt0) = Done false) as Hrest.
  { intros tick' H. destruct (IH _ _ H) as (mt0 & Hin & Hm). exists mt0.
    split; [now right | exact Hm]. }
  destruct (th <=? match_score mt)%float eqn:Hth; [|apply Hrest].
  assert (forall tick',
            In m (match is_test_match (match_metadata mt) with
                  | Raised => []
                  | Done true => scan_matches w th tick' ms
                  | Done false => permanent_entry mt :: scan_matches w th tick' ms
                  end) ->
            exists mt0, In mt0 (mt :: ms) /\ m = permanent_entry mt0
              /\ (th <=? match_score mt0)%float = true
              /\ is_test_match (match_metadata mt0) = Done false) as Htest.
  { intros tick'. destruct (is_test_match (match_metadata mt)) as [[|]|] eqn:Ht;
      [apply Hrest | | intros []].
    intros [<-|H]; [|now apply Hrest in H].
    exists mt. split; [now left|]. split; [reflexivity|]. now split. }
  destruct (match_ttl (match_metadata mt)) as [[t|]|]; [| apply Htest | intros []].
  destruct (t <? clock w tick)%Z; [apply Hrest | apply Htest].
Qed.

(** The matches of a query are records of the index, scored against the
    query vector. *)
Lemma index_query_record w idx vector top_k flt ms mt :
  index_query w idx vector top_k flt = Some ms ->
  In mt ms ->
  exists v,
    idx !! match_id mt = Some v
    /\ match_score mt = similarity w vector (values v)
    /\ match_metadata mt = v_metadata v.
Proof.
  unfold index_query. destruct (negb (query_ok w) || (top_k <? 1)%Z); [discriminate|].
  intros [= <-] Hin. apply firstn_In in Hin. apply sort_desc_In in Hin.
  apply filter_In in Hin. destruct Hin as [Hin _].
  apply in_map_iff in Hin. destruct Hin as ([k v] & <- & Hin).
  apply list_elem_of_In, elem_of_map_to_list in Hin.
  exists v. cbn. now split.
Qed.

Lemma is_test_match_entry mt :
  is_test_match (match_metadata mt) = Done false ->
  eq_True (dict_get (m_metadata (permanent_entry mt)) "test") = false
  /\ eq_str (dict_get (m_metadata (permanent_entry mt)) "test") "true" = false
  /\ forall c, m_conversation_id (permanent_entry mt) = VStr c ->
                str_in c test_ids = false
                /\ Text.startswith "test-" c = false
                /\ Text.startswith "dummy-" c = false.
Proof.
  unfold is_test_match, permanent_entry, dict_get. cbn [m_metadata m_conversation_id].
  rewrite !lookup_delete_ne by discriminate.
  destruct (eq_True _ || eq_str _ _) eqn:Ht; [discriminate|].
  apply orb_false_iff in Ht. destruct Ht as [-> ->]. intros H.
  split; [reflexivity|]. split; [reflexivity|]. intros c Hc.
  destruct (match_metadata mt !! "conversation_id") as [v|]; [|discriminate].
  change (v = VStr c) in Hc. change (default (VStr "") (Some v)) with v in H.
  subst v. injection H as H.
  apply orb_false_iff in H. destruct H as [H H3].
  apply orb_false_iff in H. destruct H as [H1 H2].
  split; [exact H1|]. split; [exact H2 | exact H3].
Qed.

(** X6. No entry of the result of [retrieve_memories], from either
    source, is test data: its metadata does not mark it as a test, and its
    conversation id is none of the test names and has no test prefix. *)
Theorem retrieve_excludes_test_data w s query conversation limit include_recent m :
  In m (retrieve_memories w s query conversation limit include_recent) ->
  eq_True (dict_get (m_metadata m) "test") = false
  /\ eq_str (dict_get (m_metadata m) "test") "true" = false
  /\ forall c, m_conversation_id m = VStr c ->
                str_in c test_ids = false
                /\ Text.startswith "test-" c = false
                /\ Text.startswith "dummy-" c = false.
Proof.
  intros H. apply retrieve_In in H. destruct H as [H|H].
  - destruct include_recent; [|destruct H].
    apply buffer_entry_sound in H. destruct H as (item & _ & Ht & _ & ->).
    unfold is_test_item in Ht. cbn [recent_entry m_metadata m_conversation_id].
    repeat (apply orb_false_iff in Ht; destruct Ht as [Ht ?]).
    split; [assumption|]. split; [assumption|]. intros c [= <-]. now split.
  - unfold search_permanent in H. destruct (embed w query) as [e|]; [|destruct H].
    destruct (index_query _ _ _ _ _) as [ms|]; [|destruct H].
    apply scan_matches_sound in H. destruct H as (mt & _ & -> & _ & Ht).
    now apply is_test_match_entry.
Qed.

Lemma retrieve_excludes_test_data_witness :
  exists m,
    In m (retrieve_memories (Examples.world_at Examples.noon) Examples.after_ok "ok"
            (Some "c1") 20 true)
    /\ eq_True (dict_get (m_metadata m) "test") = false
    /\ eq_str (dict_get (m_metadata m) "test") "true" = false
    /\ forall c, m_conversation_id m = VStr c ->
                  str_in c test_ids = false
                  /\ Text.startswith "test-" c = false
                  /\ Text.startswith "dummy-" c = false.
Proof.
  eexists. split; [vm_compute; left; reflexivity|].
  apply (retrieve_excludes_test_data (Examples.world_at Examples.noon) Examples.after_ok
           "ok" (Some "c1") 20 true).
  vm_compute. left. reflexivity.
Defined.

(** X7. Every entry of the result that comes from the persistent store is
    the entry of a record of the index, scored against the embedding of the
    query, with a score at or above the similarity threshold. *)
Theorem persistent_entry_sound w s query conversation limit include_recent m :
  In m (retrieve_memories w s query conversation limit include_recent) ->
  m_source m = "permanent" ->
  exists id v query_embedding,
    embed w query = Some query_embedding
    /\ index s !! id = Some v
    /\ m = permanent_entry
             (mkMatch id (similarity w query_embedding (values v)) (v_metadata v))
    /\ (similarity_threshold (config s) <=? m_score m)%float = true.
Proof.
  intros H Hsrc. apply retrieve_permanent in H; [|assumption].
  unfold search_permanent in H. destruct (embed w query) as [e|]; [|destruct H].
  destruct (index_query _ _ _ _ _) as [ms|] eqn:Hq; [|destruct H].
  apply scan_matches_sound in H. destruct H as (mt & Hin & -> & Hth & _).
  destruct (index_query_record _ _ _ _ _ _ _ Hq Hin) as (v & Hv & Hs & Hm).
  exists (match_id mt), v, e. split; [reflexivity|]. split; [assumption|].
  split; [|exact Hth]. rewrite <- Hs, <- Hm. now destruct mt.
Qed.

Lemma persistent_entry_sound_witness :
  exists m,
    In m (retrieve_memories (Examples.world_at Examples.noon) Examples.after_ok "ok"
            (Some "c1") 20 true)
    /\ m_source m = "permanent"
    /\ exists id v query_embedding,
          embed (Examples.world_at Examples.noon) "ok" = Some query_embedding
          /\ index Examples.after_ok !! id = Some v
          /\ m = permanent_entry
                   (mkMatch id (similarity (Examples.world_at Examples.noon)
                                  query_embedding (values v)) (v_metadata v))
          /\ (similarity_threshold (config Examples.after_ok) <=? m_score m)%float = true.
Proof.
  eexists. split; [vm_compute; right; left; reflexivity|]. split; [reflexivity|].
  apply (persistent_entry_sound (Examples.world_at Examples.noon) Examples.after_ok
           "ok" (Some "c1") 20 true); [|reflexivity].
  vm_compute. right. left. reflexivity.
Defined.

(** X8. When the embedding of the query fails or the index cannot be
    queried, [retrieve_memories] raises nothing and answers from the recency
    buffer alone. *)
Theorem retrieve_degrades_to_buffer w s query conversation limit include_recent :
  embed w query = None \/ query_ok w = false ->
  retrieve_memories w s query conversation limit include_recent
  = py_prefix limit
      (sort_desc sort_key key_lt
         (if include_recent then _search_recent_buffer s query conversation else [])).
Proof.
  intros H. unfold retrieve_memories.
  assert (search_permanent w s query conversation limit = []) as ->.
  { unfold search_permanent. destruct (embed w query) as [e|]; [|reflexivity].
    destruct H as [H|H]; [discriminate|].
    unfold index_query. now rewrite H. }
  now rewrite app_nil_r.
Qed.

Lemma retrieve_degrades_to_buffer_witness :
  (embed (Cases.offline_at Examples.noon) "ok" = None
   \/ query_ok (Cases.offline_at Examples.noon) = false)
  /\ retrieve_memories (Cases.offline_at Examples.noon) Examples.after_ok "ok"
                       (Some "c1") 20 true
     = py_prefix 20
         (sort_desc sort_key key_lt (_search_recent_buffer Examples.after_ok "ok" (Some "c1"))).
Proof.
  split; [left; reflexivity|].
  apply (retrieve_degrades_to_buffer (Cases.offline_at Examples.noon) Examples.after_ok
           "ok" (Some "c1") 20 true).
  left. reflexivity.
Defined.

(* ------------------------------------------------------------------ *)
(** ** A turn, exactly *)

(** Storing an item: no write without an embedding or without the index;
    otherwise one record under the id of this instant. *)
Lemma store_item_exact w b r s t item :
  heap s !! r = Some item ->
  store_item w b r (s, t)
  = match embed w (content item) with
    | Some e =>
        if upsert_ok w
        then (true,
              (set_index
                 (<[Hash.md5 (content item +:+ "_" +:+ conversation_id item +:+ "_"
                              +:+ tier_value (storage_tier item) +:+ "_"
                              +:+ Datetime.isoformat (clock w t))
                    := mkVector e (index_metadata b item)]> (index s)) s, S t))
        else (false, (s, S t))
    | None => (false, (s, t))
    end.
Proof.
  intros Hr. unfold store_item. rewrite bind_unfold. cbn [get_service fst snd].
  rewrite Hr. destruct (embed w (content item)) as [e|]; [|reflexivity].
  rewrite bind_unfold. unfold _generate_memory_id. rewrite bind_unfold.
  cbn [now ret fst snd]. unfold upsert. destruct (upsert_ok w); [|reflexivity].
  rewrite bind_unfold. reflexivity.
Qed.

(** The compactor with nothing to pair up only records its attempt. *)
Lemma compaction_no_pairs w conversation s t :
  conv_messages (buffer_items s) conversation = [] ->
  _maybe_summarize_and_compress w conversation (s, t)
  = (tt, (record_event (CompactionAttempt conversation) s, t)).
Proof.
  intros H. unfold _maybe_summarize_and_compress, buffer_items in *. run_monad.
  cbn [record_event heap recent_buffer]. rewrite H. reflexivity.
Qed.

(** A turn without facts on a service whose buffer holds user items only:
    the outcome and the service after it. *)
Lemma store_turn_exact w u a c md s :
  _extract_canonical_facts w u = [] ->
  user_refs (heap s) (recent_buffer s) ->
  let item := turn_item w (config s) u c (default ∅ md) in
  let buffer' := deque_append (recent_buffer_size (config s)) (recent_buffer s)
                              (length (heap s)) in
  let record e := mkVector e (index_metadata true item) in
  let id := Hash.md5 (u +:+ "_" +:+ c +:+ "_" +:+ "medium" +:+ "_"
                      +:+ Datetime.isoformat (clock w 2)) in
  run (store_conversation_turn w u a c md) s
  = (match embed w u with Some _ => upsert_ok w | None => false end,
     mkService (config s) (heap s ++ [item]) buffer'
               (match embed w u with
                | Some e => if upsert_ok w then <[id := record e]> (index s) else index s
                | None => index s
                end)
               (S (total_messages s)) (summarized_chunks s)
               (events s ++ if (length buffer' =? recent_buffer_size (config s))%nat
                            then [CompactionAttempt c] else [])).
Proof.
  intros Hfacts Hrefs item buffer' record id.
  assert (forall idx',
            conv_messages
              (buffer_items (mkService (config s) (heap s ++ [item]) buffer' idx'
                               (S (total_messages s)) (summarized_chunks s) (events s)))
              c = []) as Hnil.
  { intros idx'. apply conv_messages_users. unfold buffer_items.
    cbn [heap recent_buffer]. apply user_refs_deref.
    apply user_refs_append; [exact Hrefs|].
    unfold item, turn_item, dict_get. cbn [metadata]. now rewrite lookup_insert_eq. }
  unfold run, store_conversation_turn. rewrite Hfacts.
  run_monad. fields.
  erewrite set_tier_last by reflexivity. fields.
  change (_store_with_ttl w) with (store_item w true).
  erewrite store_item_exact; cycle 1.
  { fields. apply list_lookup_middle. reflexivity. }
  fields. fold item. fold buffer'.
  destruct (embed w u) as [e|]; [destruct (upsert_ok w)|]; fields;
    (destruct (length buffer' =? recent_buffer_size (config s))%nat;
     [ rewrite compaction_no_pairs by apply Hnil; fields; reflexivity
     | cbn; rewrite app_nil_r; reflexivity ]).
Qed.

Lemma deque_append_snoc {A} n (d : list A) x :
  0 < n -> exists d0, deque_append n d x = d0 ++ [x].
Proof.
  intros Hn. unfold deque_append.
  destruct (Nat.eqb_spec n 0) as [->|_]; [lia|].
  destruct (Nat.ltb_spec n (length (d ++ [x]))) as [Hlt|_]; [|now exists d].
  destruct d as [|y d]; [cbn in Hlt; lia|]. now exists d.
Qed.

Lemma deref_snoc h item refs :
  deref (h ++ [item]) (refs ++ [length h]) = deref (h ++ [item]) refs ++ [item].
Proof.
  unfold deref. rewrite omap_app. f_equal.
  assert ((h ++ [item]) !! length h = Some item) as H
    by (apply list_lookup_middle; reflexivity).
  cbn. now rewrite H.
Qed.

Lemma reachable_user_refs cfg idx0 cs :
  user_refs (heap (steps (new_service cfg idx0) cs))
            (recent_buffer (steps (new_service cfg idx0) cs)).
Proof. apply (quiet_steps idx0 cs), quiet_new. Qed.

(** X9. On a service reached by turns and manual saves, a turn without
    facts whose embedding or write fails returns [False] and leaves the
    index as it was; the message is the newest item of the recency buffer
    all the same, and the message counter is incremented. *)
Theorem failed_store_still_buffered cfg idx0 cs w u a c md :
  _extract_canonical_facts w u = [] ->
  embed w u = None \/ upsert_ok w = false ->
  0 < recent_buffer_size cfg ->
  let s := steps (new_service cfg idx0) cs in
  exists s',
    run (store_conversation_turn w u a c md) s = (false, s')
    /\ index s' = index s
    /\ last (buffer_items s') = Some (turn_item w cfg u c (default ∅ md))
    /\ total_messages s' = S (total_messages s).
Proof.
  intros Hfacts Hfail Hn s.
  pose proof (store_turn_exact w u a c md s Hfacts (reachable_user_refs cfg idx0 cs)) as E.
  cbv zeta in E. subst s. rewrite !steps_config in E.
  set (s := steps (new_service cfg idx0) cs) in *.
  change (config (new_service cfg idx0)) with cfg in E.
  eexists. split.
  { rewrite E. f_equal.
    destruct (embed w u) as [e|]; [|reflexivity].
    destruct Hfail as [Hfail|Hfail]; [discriminate | exact Hfail]. }
  cbn [index total_messages]. split.
  { destruct (embed w u) as [e|]; [|reflexivity].
    destruct Hfail as [Hfail|Hfail]; [discriminate | now rewrite Hfail]. }
  split; [|reflexivity].
  unfold buffer_items. cbn [heap recent_buffer].
  destruct (deque_append_snoc (recent_buffer_size cfg) (recent_buffer s)
              (length (heap s)) Hn) as [d0 ->].
  rewrite deref_snoc. apply last_snoc.
Qed.

Lemma failed_store_still_buffered_witness :
  _extract_canonical_facts (Cases.offline_at Examples.noon) "ok" = []
  /\ embed (Cases.offline_at Examples.noon) "ok" = None
  /\ 0 < recent_buffer_size default_config
  /\ exists s',
       run (store_conversation_turn (Cases.offline_at Examples.noon) "ok" "Va bene!"
              "c1" None) (steps (new_service default_config ∅) [])
       = (false, s')
       /\ index s' = index (steps (new_service default_config ∅) [])
       /\ last (buffer_items s')
          = Some (turn_item (Cases.offline_at Examples.noon) default_config "ok" "c1"
                            (default ∅ None))
       /\ total_messages s' = S (total_messages (steps (new_service default_config ∅) [])).
Proof.
  split; [reflexivity|]. split; [reflexivity|]. split; [cbn; lia|].
  apply (failed_store_still_buffered default_config ∅ [] (Cases.offline_at Examples.noon)
           "ok" "Va bene!" "c1" None).
  - reflexivity.
  - left. reflexivity.
  - cbn. lia.
Defined.

(** X10. On a service reached by turns and manual saves, a turn without
    facts whose embedding and write succeed returns [True] and adds exactly
    one record to the index: under the md5 of message, conversation, tier
    [medium] and the third clock reading, with the embedding of the message
    and an expiry [ttl] of the second clock reading plus the configured
    days. *)
Theorem stored_turn_record cfg idx0 cs w u a c md e :
  _extract_canonical_facts w u = [] ->
  embed w u = Some e ->
  upsert_ok w = true ->
  let s := steps (new_service cfg idx0) cs in
  let item := turn_item w cfg u c (default ∅ md) in
  exists s',
    run (store_conversation_turn w u a c md) s = (true, s')
    /\ index s'
       = <[Hash.md5 (u +:+ "_" +:+ c +:+ "_" +:+ "medium" +:+ "_"
                     +:+ Datetime.isoformat (clock w 2))
           := mkVector e (index_metadata true item)]> (index s)
    /\ index_metadata true item !! "ttl"
       = Some (VStr (Datetime.isoformat
                       (clock w 1 + Datetime.timedelta_days (medium_term_ttl_days cfg))%Z)).
Proof.
  intros Hfacts He Hup s item.
  pose proof (store_turn_exact w u a c md s Hfacts (reachable_user_refs cfg idx0 cs)) as E.
  cbv zeta in E. subst s. rewrite !steps_config in E.
  set (s := steps (new_service cfg idx0) cs) in *.
  change (config (new_service cfg idx0)) with cfg in E.
  rewrite He, Hup in E.
  eexists. split; [exact E|]. cbn [index]. split; [reflexivity|].
  unfold index_metadata, item, turn_item. cbn [ttl]. apply lookup_insert_eq.
Qed.

Lemma stored_turn_record_witness :
  _extract_canonical_facts (Examples.world_at Examples.noon) "ok" = []
  /\ embed (Examples.world_at Examples.noon) "ok" = Some [1%float]
  /\ upsert_ok (Examples.world_at Examples.noon) = true
  /\ exists s',
       run (store_conversation_turn (Examples.world_at Examples.noon) "ok" "Va bene!"
              "c1" None) (steps (new_service default_config ∅) [])
       = (true, s')
       /\ index s'
          = <[Hash.md5 ("ok" +:+ "_" +:+ "c1" +:+ "_" +:+ "medium" +:+ "_"
                        +:+ Datetime.isoformat (clock (Examples.world_at Examples.noon) 2))
              := mkVector [1%float]
                   (index_metadata true
                      (turn_item (Examples.world_at Examples.noon) default_config
                                 "ok" "c1" (default ∅ None)))]>
              (index (steps (new_service default_config ∅) []))
       /\ index_metadata true
            (turn_item (Examples.world_at Examples.noon) default_config "ok" "c1"
                       (default ∅ None)) !! "ttl"
          = Some (VStr (Datetime.isoformat
                          (clock (Examples.world_at Examples.noon) 1
                           + Datetime.timedelta_days
                               (medium_term_ttl_days default_config))%Z)).
Proof.
  split; [reflexivity|]. split; [reflexivity|]. split; [reflexivity|].
  apply (stored_turn_record default_config ∅ [] (Examples.world_at Examples.noon)
           "ok" "Va bene!" "c1" None [1%float]); reflexivity.
Defined.

(* ------------------------------------------------------------------ *)
(** ** The statistics *)

Lemma step_total_messages s c :
  total_messages (step s c)
  = total_messages s + (if is_store_turn c then 1 else 0).
Proof.
  destruct c as [w u a c md | w a c u md]; cbn [is_store_turn].
  - destruct (turn_new_items w u a c md s) as (first & rest & Heff & _).
    apply turn_effect_cases in Heff.
    destruct Heff as (extra & idx' & k & evs & -> & _).
    cbn [total_messages]. lia.
  - destruct (save_response_effect w a c u md s) as (item & idx' & _ & _ & ->).
    cbn. lia.
Qed.

Lemma steps_total_messages cs : forall s,
  total_messages (steps s cs) = total_messages s + turns cs.
Proof.
  induction cs as [|c cs IH] using rev_ind; intros s.
  - cbn. lia.
  - rewrite steps_snoc, step_total_messages, IH, turns_snoc. lia.
Qed.

(** X11. After any sequence of turns and manual saves on a new service,
    [get_stats] reports the number of turns as [total_messages], the
    smaller of that number and the capacity as [recent_buffer_size], and 0
    for the three importance counters and for [summarized_chunks]. *)
Theorem stats_after_run cfg idx0 cs :
  get_stats (steps (new_service cfg idx0) cs)
  = <["recent_buffer_max" := Z.of_nat (recent_buffer_size cfg)]>
      (<["recent_buffer_size"
         := Z.of_nat (Nat.min (turns cs) (recent_buffer_size cfg))]>
         (list_to_map
            [ ("total_messages", Z.of_nat (turns cs));
              ("high_importance", 0%Z);
              ("medium_importance", 0%Z);
              ("low_importance", 0%Z);
              ("summarized_chunks", 0%Z) ])).
Proof.
  unfold get_stats. rewrite steps_config, steps_total_messages.
  destruct (run_length_and_attempts cfg idx0 cs) as [-> _].
  destruct (quiet_steps idx0 cs _ (quiet_new cfg idx0)) as (_ & _ & _ & -> & _).
  reflexivity.
Qed.

(* ------------------------------------------------------------------ *)
(** ** Facts on the string operations of the fact parser *)

Lemma append_cons x (a b : string) : String x a +:+ b = String x (a +:+ b).
Proof. reflexivity. Qed.

Lemma append_nil (b : string) : EmptyString +:+ b = b.
Proof. reflexivity. Qed.

Lemma append_assoc (a b c : string) : (a +:+ b) +:+ c = a +:+ (b +:+ c).
Proof.
  induction a as [|x a IH]; [reflexivity|]. now rewrite !append_cons, IH.
Qed.

Lemma count_char_app c a b :
  Text.count_char c (a +:+ b) = Text.count_char c a + Text.count_char c b.
Proof.
  induction a as [|x a IH]; [reflexivity|].
  rewrite append_cons. cbn [Text.count_char]. rewrite IH. lia.
Qed.

Lemma count_char_rev_acc c s : forall acc,
  Text.count_char c (Text.rev_acc acc s) = Text.count_char c acc + Text.count_char c s.
Proof.
  induction s as [|x s IH]; intros acc; cbn; [lia|]. rewrite IH. cbn. lia.
Qed.

Lemma count_char_rev c s : Text.count_char c (Text.rev s) = Text.count_char c s.
Proof. unfold Text.rev. now rewrite count_char_rev_acc. Qed.

Lemma count_char_lstrip c s : Text.count_char c (Text.lstrip s) <= Text.count_char c s.
Proof.
  induction s as [|x s IH]; cbn; [lia|]. destruct (Text.isspace x); cbn; lia.
Qed.

Lemma count_char_strip c s : Text.count_char c (Text.strip s) <= Text.count_char c s.
Proof.
  unfold Text.strip. rewrite count_char_rev.
  etransitivity; [apply count_char_lstrip|]. rewrite count_char_rev.
  apply count_char_lstrip.
Qed.

Lemma split_once_spec sep s a b :
  Text.split_once sep s = Some (a, b) ->
  s = a +:+ String sep b /\ Text.count_char sep a = 0.
Proof.
  revert a. induction s as [|x s IH]; intros a; cbn [Text.split_once]; [discriminate|].
  destruct (Ascii.eqb_spec x sep) as [->|Hx].
  - intros [= <- <-]. now split.
  - destruct (Text.split_once sep s) as [[a' b']|]; [|discriminate].
    intros [= <- <-]. destruct (IH a' eq_refl) as [-> Hc]. split; [reflexivity|].
    cbn [Text.count_char]. rewrite Hc.
    destruct (Ascii.eqb_spec sep x); [congruence | reflexivity].
Qed.

Lemma split_once_app sep a b :
  Text.count_char sep a = 0 ->
  Text.split_once sep (a +:+ String sep b) = Some (a, b).
Proof.
  induction a as [|x a IH].
  - intros _. rewrite append_nil. cbn [Text.split_once]. now rewrite Ascii.eqb_refl.
  - rewrite append_cons. cbn [Text.count_char Text.split_once].
    destruct (Ascii.eqb_spec sep x) as [->|Hx]; [discriminate|].
    intros H. destruct (Ascii.eqb_spec x sep); [congruence|]. now rewrite IH.
Qed.

Lemma str_in_In x l : str_in x l = true -> In x l.
Proof.
  unfold str_in. intros H. apply existsb_exists in H. destruct H as (y & Hy & E).
  apply String.eqb_eq in E. now subst.
Qed.

Lemma valid_types_clean ty :
  str_in ty valid_types = true ->
  Text.count_char ":" ty = 0 /\ Text.count_char "|" ty = 0.
Proof.
  intros H. apply str_in_In in H. revert ty H. apply List.Forall_forall.
  repeat constructor.
Qed.

Lemma category_stripped cat :
  str_in cat valid_categories = true \/ cat = "general" -> Text.strip cat = cat.
Proof.
  intros [H | ->]; [|reflexivity]. apply str_in_In in H. revert cat H.
  apply List.Forall_forall. repeat constructor.
Qed.

(** A line the parser accepts gives [type:value|category]: a type of the
    list, a value that is not empty and holds no separator, a category of
    the list or [general]. *)
Lemma parse_fact_line_shape line fact :
  parse_fact_line line = Some fact ->
  exists ty val cat,
    fact = ty +:+ ":" +:+ val +:+ "|" +:+ cat
    /\ str_in ty valid_types = true
    /\ val <> ""
    /\ Text.count_char ":" val = 0 /\ Text.count_char "|" val = 0
    /\ (str_in cat valid_categories = true \/ cat = "general").
Proof.
  unfold parse_fact_line.
  destruct (_ && _ && _ && _ && _); [|discriminate].
  destruct (Text.split_once "|" (Text.strip line)) as [[main0 cat0]|] eqn:E1;
    [|discriminate].
  destruct (Text.contains ":" (Text.strip main0)); [|discriminate]. cbn [andb].
  destruct (Nat.eqb_spec (Text.count_char ":" (Text.strip main0)) 1) as [Hone|];
    [|discriminate].
  destruct (Text.split_once ":" (Text.strip main0)) as [[ty0 val0]|] eqn:E2;
    [|discriminate].
  set (cat1 := if Text.startswith "category:" (Text.strip cat0) then _ else _).
  set (cat := if str_in cat1 valid_categories then cat1 else "general").
  destruct (str_in (Text.strip ty0) valid_types) eqn:Hty; [|discriminate].
  cbn [andb]. destruct (Text.strip val0) as [|x v] eqn:Hval; [discriminate|].
  cbn [Text.is_empty negb]. intros [= <-].
  exists (Text.strip ty0), (String x v), cat.
  split; [reflexivity|]. split; [exact Hty|]. split; [discriminate|].
  apply split_once_spec in E1. destruct E1 as [_ Hbar].
  apply split_once_spec in E2. destruct E2 as [Emain Hcolon].
  pose proof (count_char_strip "|" main0) as Hb.
  pose proof (count_char_strip ":" val0) as Hc1.
  pose proof (count_char_strip "|" val0) as Hb1.
  rewrite Hval in Hc1, Hb1.
  rewrite Emain in Hone, Hb. rewrite count_char_app in Hone, Hb.
  cbn [Text.count_char] in Hone, Hb.
  rewrite Ascii.eqb_refl in Hone.
  split; [lia|]. split; [lia|].
  unfold cat. destruct (str_in cat1 valid_categories) eqn:Hcat; [now left | now right].
Qed.

Lemma parse_facts_shape response fact :
  In fact (parse_facts response) -> exists line, parse_fact_line line = Some fact.
Proof.
  unfold parse_facts. destruct (_ && _); [|intros []].
  intros H. apply list_elem_of_In, list_elem_of_omap in H.
  destruct H as (line & _ & H). now exists line.
Qed.

(** X12. Every fact [_extract_canonical_facts] returns has the form
    [type:value|category], with a type of the list of valid types, a value
    that is not empty and contains neither [:] nor [|], and a category of
    the list of valid categories or [general]. *)
Theorem extracted_fact_shape w message fact :
  In fact (_extract_canonical_facts w message) ->
  exists ty val cat,
    fact = ty +:+ ":" +:+ val +:+ "|" +:+ cat
    /\ str_in ty valid_types = true
    /\ val <> ""
    /\ Text.count_char ":" val = 0 /\ Text.count_char "|" val = 0
    /\ (str_in cat valid_categories = true \/ cat = "general").
Proof.
  unfold _extract_canonical_facts.
  destruct (extraction_reply w message) as [response|]; [|intros []].
  intros H. apply parse_facts_shape in H. destruct H as [line H].
  now apply parse_fact_line_shape in H.
Qed.

Lemma extracted_fact_shape_witness :
  exists fact,
    In fact (_extract_canonical_facts (Cases.facts_at Examples.noon) Cases.sara)
    /\ exists ty val cat,
         fact = ty +:+ ":" +:+ val +:+ "|" +:+ cat
         /\ str_in ty valid_types = true
         /\ val <> ""
         /\ Text.count_char ":" val = 0 /\ Text.count_char "|" val = 0
         /\ (str_in cat valid_categories = true \/ cat = "general").
Proof.
  exists "user_name:Sara|personal". split; [vm_compute; left; reflexivity|].
  apply (extracted_fact_shape (Cases.facts_at Examples.noon) Cases.sara).
  vm_compute. left. reflexivity.
Defined.

(** X13. The item built from an extracted fact recovers its parts: the
    content is [type:value], and the metadata holds the type as [fact_type],
    the category as [category], and [personal_info] as [type]. *)
Theorem fact_item_recovers_parts w message fact md t :
  In fact (_extract_canonical_facts w message) ->
  exists ty val cat,
    fact = ty +:+ ":" +:+ val +:+ "|" +:+ cat
    /\ content (make_fact_item md t fact) = ty +:+ ":" +:+ val
    /\ metadata (make_fact_item md t fact) !! "fact_type" = Some (VStr ty)
    /\ metadata (make_fact_item md t fact) !! "category" = Some (VStr cat)
    /\ metadata (make_fact_item md t fact) !! "type" = Some (VStr "personal_info").
Proof.
  intros H. apply extracted_fact_shape in H.
  destruct H as (ty & val & cat & -> & Hty & _ & Hc & Hb & Hcat).
  exists ty, val, cat. split; [reflexivity|].
  destruct (valid_types_clean ty Hty) as [Htc Htb].
  assert (Text.split_once "|" (ty +:+ ":" +:+ val +:+ "|" +:+ cat)
          = Some (ty +:+ ":" +:+ val, cat)) as E1.
  { change (ty +:+ ":" +:+ val +:+ "|" +:+ cat)
      with (ty +:+ (":" +:+ (val +:+ String "|" cat))).
    change (":" +:+ (val +:+ String "|" cat)) with (String ":" (val +:+ String "|" cat)).
    replace (ty +:+ String ":" (val +:+ String "|" cat))
      with ((ty +:+ String ":" val) +:+ String "|" cat)
      by (now rewrite append_assoc).
    apply split_once_app. rewrite count_char_app.
    change (":" +:+ val) with (String ":" val). cbn [Text.count_char].
    rewrite Htb, Hb. reflexivity. }
  assert (Text.split_once ":" (ty +:+ ":" +:+ val) = Some (ty, val)) as E2.
  { apply (split_once_app ":" ty val Htc). }
  unfold make_fact_item. rewrite E1, E2, (category_stripped cat Hcat).
  cbn [content metadata]. split; [reflexivity|].
  split; [apply lookup_insert_eq|].
  split; [rewrite lookup_insert_ne by discriminate; apply lookup_insert_eq|].
  rewrite !lookup_insert_ne by discriminate. apply lookup_insert_eq.
Qed.

Lemma fact_item_recovers_parts_witness :
  exists fact,
    In fact (_extract_canonical_facts (Cases.facts_at Examples.noon) Cases.sara)
    /\ exists ty val cat,
         fact = ty +:+ ":" +:+ val +:+ "|" +:+ cat
         /\ content (make_fact_item ∅ Examples.noon fact) = ty +:+ ":" +:+ val
         /\ metadata (make_fact_item ∅ Examples.noon fact) !! "fact_type" = Some (VStr ty)
         /\ metadata (make_fact_item ∅ Examples.noon fact) !! "category" = Some (VStr cat)
         /\ metadata (make_fact_item ∅ Examples.noon fact) !! "type"
            = Some (VStr "personal_info").
Proof.
  exists "user_job:software engineer|work".
  split; [vm_compute; right; left; reflexivity|].
  apply (fact_item_recovers_parts (Cases.facts_at Examples.noon) Cases.sara).
  vm_compute. right. left. reflexivity.
Defined.

Lemma make_fact_item_fields md t f :
  conversation_id (make_fact_item md t f) = "global"
  /\ message_type (make_fact_item md t f) = "personal"
  /\ importance (make_fact_item md t f) = HIGH
  /\ storage_tier (make_fact_item md t f) = GLOBAL
  /\ ttl (make_fact_item md t f) = None.
Proof.
  unfold make_fact_item. destruct (Text.split_once "|" f) as [[x y]|]; now cbn.
Qed.

(** X14. A turn in which the model finds facts creates one item per fact,
    in order, each of conversation [global], type [personal], importance
    high, tier global, without expiry; only the first enters the recency
    buffer. The turn creates no other item but the summaries of a
    compaction. *)
Theorem facts_turn_items w s u a c md f fs :
  _extract_canonical_facts w u = f :: fs ->
  let s' := step s (StoreTurn w u a c md) in
  exists items summaries,
    heap s' = heap s ++ items ++ summaries
    /\ fact_items_of (default ∅ md) items (f :: fs)
    /\ Forall (fun it => conversation_id it = "global" /\ message_type it = "personal"
                         /\ importance it = HIGH /\ storage_tier it = GLOBAL
                         /\ ttl it = None) items
    /\ Forall (fun it => storage_tier it = COMPRESSED) summaries
    /\ recent_buffer s'
       = deque_append (recent_buffer_size (config s)) (recent_buffer s) (length (heap s)).
Proof.
  intros Hfacts s'. subst s'.
  destruct (store_turn_facts w u a c md s f fs Hfacts) as (items & Hitems & Heff).
  apply turn_effect_cases in Heff.
  destruct Heff as (extra & idx' & k & evs & -> & _ & Hextra & _).
  exists items, extra. cbn [heap recent_buffer].
  split; [reflexivity|]. split; [exact Hitems|]. split; [|now split].
  unfold fact_items_of in Hitems. clear -Hitems. revert Hitems.
  generalize (f :: fs). intros facts Hitems.
  induction Hitems as [|item fact items facts' [t ->] _ IH]; constructor;
    [apply make_fact_item_fields | exact IH].
Qed.

Lemma facts_turn_items_witness :
  exists f fs,
    _extract_canonical_facts (Cases.facts_at Examples.noon) Cases.sara = f :: fs
    /\ exists items summaries,
         heap (step Examples.empty_service
                 (StoreTurn (Cases.facts_at Examples.noon) Cases.sara "Ciao Sara!" "c1" None))
         = heap Examples.empty_service ++ items ++ summaries
         /\ fact_items_of (default ∅ None) items (f :: fs)
         /\ Forall (fun it => conversation_id it = "global" /\ message_type it = "personal"
                              /\ importance it = HIGH /\ storage_tier it = GLOBAL
                              /\ ttl it = None) items
         /\ Forall (fun it => storage_tier it = COMPRESSED) summaries
         /\ recent_buffer (step Examples.empty_service
                             (StoreTurn (Cases.facts_at Examples.noon) Cases.sara
                                        "Ciao Sara!" "c1" None))
            = deque_append (recent_buffer_size (config Examples.empty_service))
                           (recent_buffer Examples.empty_service)
                           (length (heap Examples.empty_service)).
Proof.
  eexists _, _. split; [vm_compute; reflexivity|].
  apply (facts_turn_items (Cases.facts_at Examples.noon) Examples.empty_service
           Cases.sara "Ciao Sara!" "c1" None).
  vm_compute. reflexivity.
Defined.

(* ------------------------------------------------------------------ *)
(** ** The retrieval of [MemoryService] *)

Module MemoryServiceFacts.
Import MemoryService.

Lemma distinct_snoc kept hit :
  distinct kept ->
  existsb (py_eq (h_content hit)) (rev (map h_content kept)) = false ->
  distinct (kept ++ [hit]).
Proof.
  intros Hd Hnew i j a b Hij Hi Hj.
  assert (j < length (kept ++ [hit])) as Hlen by (eapply lookup_lt_Some; exact Hj).
  rewrite length_app in Hlen. cbn in Hlen.
  destruct (decide (j < length kept)) as [Hjk|Hjk].
  - rewrite lookup_app_l in Hi by lia. rewrite lookup_app_l in Hj by lia.
    exact (Hd i j a b Hij Hi Hj).
  - assert (j = length kept) as -> by lia.
    rewrite list_lookup_middle in Hj by reflexivity. injection Hj as <-.
    rewrite lookup_app_l in Hi by lia.
    destruct (py_eq (h_content hit) (h_content a)) eqn:E; [|reflexivity].
    assert (existsb (py_eq (h_content hit)) (rev (map h_content kept)) = true)
      as Hex; [|congruence].
    apply existsb_exists. exists (h_content a). split; [|exact E].
    apply in_rev. rewrite rev_involutive. apply in_map.
    apply list_elem_of_In. eapply list_elem_of_lookup_2. exact Hi.
Qed.

(** What the loop keeps: the entries it started with, then entries of
    matches at or above the threshold, no content twice, and no more
    than the limit asks for (one at least). *)
Lemma keep_loop_spec th limit ms : forall kept seen,
  seen = rev (map h_content kept) ->
  distinct kept ->
  (Z.of_nat (length kept) < Z.max limit 1)%Z ->
  let r := keep_loop th limit ms kept seen in
  distinct r
  /\ (Z.of_nat (length r) <= Z.max limit 1)%Z
  /\ forall hit, In hit r ->
       In hit kept
       \/ exists m, In m ms /\ hit = hit_of m /\ (score_or_0 m <? th)%float = false.
Proof.
  induction ms as [|m ms IH]; intros kept seen Hseen Hd Hlen; cbn [keep_loop].
  - cbv zeta. split; [exact Hd|]. split; [lia|]. intros hit H. now left.
  - assert (forall r,
              (distinct r
               /\ (Z.of_nat (length r) <= Z.max limit 1)%Z
               /\ forall hit, In hit r ->
                    In hit kept
                    \/ exists m0, In m0 ms /\ hit = hit_of m0
                                  /\ (score_or_0 m0 <? th)%float = false) ->
              distinct r
              /\ (Z.of_nat (length r) <= Z.max limit 1)%Z
              /\ forall hit, In hit r ->
                   In hit kept
                   \/ exists m0, In m0 (m :: ms) /\ hit = hit_of m0
                                 /\ (score_or_0 m0 <? th)%float = false) as Hskip.
    { intros r (H1 & H2 & H3). split; [exact H1|]. split; [exact H2|].
      intros hit Hin. destruct (H3 hit Hin) as [H|(m0 & Hm0 & Hh)]; [now left|].
      right. exists m0. split; [now right | exact Hh]. }
    destruct (score_or_0 m <? th)%float eqn:Hth; [apply Hskip, IH; assumption|].
    destruct (existsb (py_eq (text_key m)) seen) eqn:Hseen';
      [apply Hskip, IH; assumption|].
    assert (distinct (kept ++ [hit_of m])) as Hd'.
    { apply distinct_snoc; [exact Hd|]. rewrite <- Hseen. exact Hseen'. }
    assert (forall hit, In hit (kept ++ [hit_of m]) ->
              In hit kept
              \/ exists m0, In m0 (m :: ms) /\ hit = hit_of m0
                            /\ (score_or_0 m0 <? th)%float = false) as Hnew.
    { intros hit Hin. apply in_app_or in Hin. destruct Hin as [H|[<-|[]]]; [now left|].
      right. exists m. split; [now left|]. now split. }
    destruct (Z.leb_spec limit (Z.of_nat (length (kept ++ [hit_of m])))) as [Hfull|Hmore].
    + cbv zeta. split; [exact Hd'|]. split; [|exact Hnew].
      rewrite length_app in *. cbn [length] in *. lia.
    + cbv zeta.
      destruct (IH (kept ++ [hit_of m]) (text_key m :: seen)) as (H1 & H2 & H3).
      * rewrite map_app, rev_app_distr, Hseen. reflexivity.
      * exact Hd'.
      * lia.
      * split; [exact H1|]. split; [exact H2|].
        intros hit Hin. destruct (H3 hit Hin) as [H|(m0 & Hm0 & Hh)].
        -- now apply Hnew.
        -- right. exists m0. split; [now right | exact Hh].
Qed.

Lemma query_record w idx vector top_k flt ms mt :
  query w idx vector top_k flt = Some ms ->
  In mt ms ->
  passes flt (match_metadata mt) = true
  /\ exists v,
       idx !! match_id mt = Some v
       /\ match_score mt = similarity w vector (values v)
       /\ match_metadata mt = v_metadata v.
Proof.
  unfold query. destruct (negb (query_ok w) || (top_k <? 1)%Z); [discriminate|].
  intros [= <-] Hin. apply firstn_In in Hin. apply sort_desc_In in Hin.
  apply filter_In in Hin. destruct Hin as [Hin Hp]. split; [exact Hp|].
  apply in_map_iff in Hin. destruct Hin as ([k v] & <- & Hin).
  apply list_elem_of_In, elem_of_map_to_list in Hin.
  exists v. cbn. now split.
Qed.

Lemma retrieve_spec eq w cfg idx q conv limit ig :
  let r := retrieve_memories eq w cfg idx q conv limit ig in
  distinct r
  /\ (Z.of_nat (length r) <= Z.max limit 1)%Z
  /\ forall hit, In hit r ->
       exists m v,
         hit = hit_of m
         /\ (score_or_0 m <? similarity_threshold cfg)%float = false
         /\ passes (filter_conditions conv) (match_metadata m) = true
         /\ idx !! match_id m = Some v
         /\ match_metadata m = v_metadata v.
Proof.
  unfold retrieve_memories.
  assert (distinct []) as Hnil by (intros i j a b _ H; discriminate).
  destruct (eq q) as [qv|];
    [|cbv zeta; split; [exact Hnil|]; split; [cbn; lia | intros hit []]].
  destruct (query w idx qv (query_top_k cfg) (filter_conditions conv)) as [ms|] eqn:Hq;
    [|cbv zeta; split; [exact Hnil|]; split; [cbn; lia | intros hit []]].
  destruct (keep_loop_spec (similarity_threshold cfg) limit
              (sort_desc score_or_0 PrimFloat.ltb ms) [] [] eq_refl Hnil)
    as (H1 & H2 & H3); [cbn; lia|].
  cbv zeta. split; [exact H1|]. split; [exact H2|].
  intros hit Hin. destruct (H3 hit Hin) as [[]|(m & Hm & -> & Hth)].
  apply sort_desc_In in Hm.
  destruct (query_record _ _ _ _ _ _ _ Hq Hm) as (Hp & v & Hv & _ & Hmeta).
  exists m, v. repeat (split; [assumption || reflexivity|]). exact Hmeta.
Qed.
End MemoryServiceFacts.

(** X15. [MemoryService.retrieve_memories] returns no content twice: a
    later entry never has the content of an earlier one. *)
Theorem backend_retrieve_distinct embed_query w cfg idx query conversation limit
        include_global i j a b :
  let r := MemoryService.retrieve_memories embed_query w cfg idx query conversation
             limit include_global in
  i < j -> r !! i = Some a -> r !! j = Some b ->
  py_eq (MemoryService.h_content b) (MemoryService.h_content a) = false.
Proof.
  intros r.
  destruct (MemoryServiceFacts.retrieve_spec embed_query w cfg idx query conversation
              limit include_global) as [H _].
  apply H.
Qed.

Lemma backend_retrieve_distinct_witness :
  exists a b,
    0 < 1 /\ Cases.find_notes Cases.notes !! 0 = Some a
    /\ Cases.find_notes Cases.notes !! 1 = Some b
    /\ py_eq (MemoryService.h_content b) (MemoryService.h_content a) = false.
Proof.
  eexists _, _. split; [lia|]. split; [vm_compute; reflexivity|].
  split; [vm_compute; reflexivity|].
  apply (backend_retrieve_distinct (embed (Examples.world_at Examples.noon))
           (Examples.world_at Examples.noon) MemoryService.default_config Cases.notes
           "ok" (Some "c1") 8 true 0 1); [lia | |]; vm_compute; reflexivity.
Defined.

(** X16. [MemoryService.retrieve_memories] returns at most [limit]
    entries, and at most one when [limit] is below one: the limit is tested
    after an entry has been appended. *)
Theorem backend_retrieve_bound embed_query w cfg idx query conversation limit
        include_global :
  (Z.of_nat (length (MemoryService.retrieve_memories embed_query w cfg idx query
                       conversation limit include_global))
   <= Z.max limit 1)%Z.
Proof.
  destruct (MemoryServiceFacts.retrieve_spec embed_query w cfg idx query conversation
              limit include_global) as (_ & H & _).
  exact H.
Qed.

Lemma passes_message_type flt meta :
  MemoryService.passes flt meta = true ->
  exists s, meta !! "message_type" = Some (VStr s)
            /\ str_in s (MemoryService.message_type_in flt) = true
            /\ existsb (fun kv : string * string =>
                          eq_str (dict_get meta (fst kv)) (snd kv))
                       (MemoryService.or_ flt) = true.
Proof.
  unfold MemoryService.passes. intros H. apply andb_true_iff in H.
  destruct H as [H1 H2].
  destruct (meta !! "message_type") as [[| | | |s]|]; try discriminate.
  exists s. now split.
Qed.

Lemma eq_str_eq v s : eq_str v s = true -> v = VStr s.
Proof.
  destruct v; try discriminate. cbn. intros H. apply String.eqb_eq in H. now subst.
Qed.

(** X17. Every entry [MemoryService.retrieve_memories] returns is a record
    of the index whose score is not below the threshold, whose type is
    [personal] or [chat], and which is global or belongs to the conversation
    asked for (by [scope] or by the older [conversation_id]); without a
    conversation id only global records are returned. *)
Theorem backend_retrieve_scope embed_query w cfg idx query conversation limit
        include_global hit :
  In hit (MemoryService.retrieve_memories embed_query w cfg idx query conversation
            limit include_global) ->
  exists v,
    idx !! MemoryService.h_id hit = Some v
    /\ (MemoryService.h_score hit <? MemoryService.similarity_threshold cfg)%float = false
    /\ (MemoryService.h_message_type hit = VStr "personal"
        \/ MemoryService.h_message_type hit = VStr "chat")
    /\ (dict_get (v_metadata v) "scope" = VStr "global"
        \/ dict_get (v_metadata v) "conversation_id" = VStr "global"
        \/ given conversation = true
           /\ (dict_get (v_metadata v) "scope"
               = VStr ("chat:" +:+ default "" conversation)
               \/ dict_get (v_metadata v) "conversation_id"
                  = VStr (default "" conversation))).
Proof.
  intros Hin.
  destruct (MemoryServiceFacts.retrieve_spec embed_query w cfg idx query conversation
              limit include_global) as (_ & _ & H).
  destruct (H hit Hin) as (m & v & -> & Hth & Hp & Hv & Hmeta).
  exists v. split; [exact Hv|]. split; [exact Hth|].
  apply passes_message_type in Hp. destruct Hp as (s & Hs & Hty & Hor).
  split.
  - unfold MemoryService.hit_of. cbn [MemoryService.h_message_type]. rewrite Hs.
    cbn in Hty. rewrite !orb_false_r in Hty. apply orb_true_iff in Hty.
    destruct Hty as [E|E]; apply String.eqb_eq in E; subst s; [now left | now right].
  - rewrite <- Hmeta. unfold MemoryService.filter_conditions in Hor.
    cbn [MemoryService.or_] in Hor.
    destruct (given conversation); cbn [existsb fst snd] in Hor;
      rewrite ?orb_false_r in Hor;
      repeat (apply orb_true_iff in Hor; destruct Hor as [Hor|Hor]);
      apply eq_str_eq in Hor; auto.
Qed.

Lemma backend_retrieve_scope_witness :
  exists hit,
    In hit (Cases.find_notes Cases.notes)
    /\ exists v,
         Cases.notes !! MemoryService.h_id hit = Some v
         /\ (MemoryService.h_score hit
             <? MemoryService.similarity_threshold MemoryService.default_config)%float
            = false
         /\ (MemoryService.h_message_type hit = VStr "personal"
             \/ MemoryService.h_message_type hit = VStr "chat")
         /\ (dict_get (v_metadata v) "scope" = VStr "global"
             \/ dict_get (v_metadata v) "conversation_id" = VStr "global"
             \/ given (Some "c1") = true
                /\ (dict_get (v_metadata v) "scope" = VStr ("chat:" +:+ default "" (Some "c1"))
                    \/ dict_get (v_metadata v) "conversation_id"
                       = VStr (default "" (Some "c1")))).
Proof.
  eexists. split; [vm_compute; left; reflexivity|].
  apply (backend_retrieve_scope (embed (Examples.world_at Examples.noon))
           (Examples.world_at Examples.noon) MemoryService.default_config Cases.notes
           "ok" (Some "c1") 8 true).
  vm_compute. left. reflexivity.
Defined.

(** X18. An answer of the assistant that [store_memory] has written with
    type [chat_history] (the caller's metadata not overriding the type) is
    never returned by [MemoryService.retrieve_memories]. *)
Theorem stored_history_not_retrieved nfkc embed_query w w' cfg idx item
        query conversation limit include_global hit :
  Backend.message_type item = "chat_history" ->
  Backend.metadata item !! "message_type" = None ->
  fst (Backend.store_memory nfkc w idx item) = true ->
  In hit (MemoryService.retrieve_memories embed_query w' cfg
            (snd (Backend.store_memory nfkc w idx item)) query conversation
            limit include_global) ->
  MemoryService.h_id hit <> Backend.memory_id_of nfkc item.
Proof.
  intros Hty Hmd Hstore Hin Hid.
  destruct (MemoryServiceFacts.retrieve_spec embed_query w' cfg
              (snd (Backend.store_memory nfkc w idx item)) query conversation
              limit include_global) as (_ & _ & H).
  destruct (H hit Hin) as (m & v & -> & _ & Hp & Hv & Hmeta).
  cbn [MemoryService.hit_of MemoryService.h_id] in Hid.
  unfold Backend.store_memory in Hstore, Hv.
  destruct (embed w (Backend.content item)) as [e|]; [|discriminate].
  destruct (upsert_ok w); [|discriminate].
  cbn [snd] in Hv. rewrite Hid, lookup_insert_eq in Hv. injection Hv as <-.
  apply passes_message_type in Hp. destruct Hp as (s & Hs & Hin' & _).
  rewrite Hmeta in Hs. cbn [v_metadata] in Hs.
  unfold Backend.stored_metadata in Hs. rewrite Hty in Hs.
  change ("chat_history" =? "personal")%string with false in Hs. cbv iota in Hs.
  rewrite lookup_union_r in Hs by exact Hmd.
  vm_compute in Hs. injection Hs as <-. vm_compute in Hin'. discriminate.
Qed.

Lemma stored_history_not_retrieved_witness :
  exists hit,
    Backend.message_type Cases.history_note = "chat_history"
    /\ Backend.metadata Cases.history_note !! "message_type" = None
    /\ fst (Backend.store_memory Cases.plain (Examples.world_at Examples.noon) Cases.notes
                                 Cases.history_note) = true
    /\ In hit (Cases.find_notes Cases.notes_and_answer)
    /\ MemoryService.h_id hit <> Backend.memory_id_of Cases.plain Cases.history_note.
Proof.
  eexists. split; [reflexivity|]. split; [reflexivity|].
  split; [vm_compute; reflexivity|]. split; [vm_compute; left; reflexivity|].
  apply (stored_history_not_retrieved Cases.plain (embed (Examples.world_at Examples.noon))
           (Examples.world_at Examples.noon) (Examples.world_at Examples.noon)
           MemoryService.default_config Cases.notes Cases.history_note
           "ok" (Some "c1") 8 true).
  - reflexivity.
  - reflexivity.
  - vm_compute. reflexivity.
  - vm_compute. left. reflexivity.
Defined.

(* ------------------------------------------------------------------ *)
(** ** The pruning of the history *)

Section PruningFacts.
Variable float_repr : float -> string.

Local Abbreviation entry := (history_entry float_repr).

Lemma entry_cost_pos e : (0 < entry_cost e)%Z.
Proof. unfold entry_cost. lia. Qed.

Lemma total_cost_cons e l : total_cost (e :: l) = (entry_cost e + total_cost l)%Z.
Proof. reflexivity. Qed.

Lemma total_cost_nonneg l : (0 <= total_cost l)%Z.
Proof.
  induction l as [|e l IH]; [reflexivity|].
  rewrite total_cost_cons. pose proof (entry_cost_pos e). lia.
Qed.

Lemma total_cost_app l1 l2 : total_cost (l1 ++ l2) = (total_cost l1 + total_cost l2)%Z.
Proof.
  induction l1 as [|e l1 IH]; [reflexivity|].
  rewrite <- app_comm_cons, !total_cost_cons, IH. lia.
Qed.

Lemma total_cost_one e : total_cost [e] = entry_cost e.
Proof. rewrite total_cost_cons. change (total_cost []) with 0%Z. lia. Qed.

Lemma total_cost_rev l : total_cost (rev l) = total_cost l.
Proof.
  induction l as [|e l IH]; [reflexivity|].
  cbn [rev]. rewrite total_cost_app, IH, total_cost_one, total_cost_cons. lia.
Qed.

Lemma omap_rev {A B} (f : A -> option B) l : rev (omap f l) = omap f (rev l).
Proof.
  induction l as [|x l IH]; [reflexivity|].
  cbn [rev]. rewrite omap_app, <- IH. cbn. destruct (f x); cbn; [reflexivity|].
  now rewrite app_nil_r.
Qed.

Lemma history_entry_role item e :
  entry item = Some e -> fst e = "user" \/ fst e = "assistant".
Proof.
  destruct item as [fields|]; [|discriminate]. cbn [history_entry].
  destruct (str_in _ _) eqn:E; [|discriminate]. intros [= <-]. cbn [fst].
  apply str_in_In in E. destruct E as [E|[E|[]]]; [now left | now right].
Qed.

(** The loop appends the entries of the items up to the first one that
    does not fit. *)
Lemma prune_loop_spec max_chars items : forall pruned used,
  used = total_cost pruned ->
  exists j,
    j <= length items
    /\ prune_loop float_repr max_chars items pruned used
       = pruned ++ omap entry (take j items)
    /\ (j < length items ->
        exists item e,
          items !! j = Some item /\ entry item = Some e
          /\ (max_chars < total_cost (pruned ++ omap entry (take j items))
                          + entry_cost e)%Z)
    /\ (omap entry (take j items) <> [] ->
        (total_cost (pruned ++ omap entry (take j items)) <= max_chars)%Z).
Proof.
  induction items as [|item items IH]; intros pruned used Hused; cbn [prune_loop].
  - exists 0. cbn. rewrite app_nil_r. split; [lia|]. split; [reflexivity|].
    split; [lia | congruence].
  - destruct (entry item) as [e|] eqn:He.
    + cbv zeta. destruct (Z.ltb_spec max_chars (used + entry_cost e)) as [Hover|Hfits].
      * exists 0. cbn. rewrite app_nil_r. split; [lia|]. split; [reflexivity|].
        split; [|congruence]. intros _. exists item, e. split; [reflexivity|].
        split; [exact He | lia].
      * destruct (IH (pruned ++ [e]) (used + entry_cost e)%Z) as (j & Hj & E & Hcut & Hfit).
        { rewrite total_cost_app, total_cost_one. lia. }
        exists (S j). cbn [length take omap list_omap lookup list_lookup].
        change (omap entry (item :: take j items))
          with (match entry item with
                | Some y => y :: omap entry (take j items)
                | None => omap entry (take j items)
                end).
        rewrite He. rewrite <- app_assoc in E, Hcut, Hfit. cbn [app] in E, Hcut, Hfit.
        split; [lia|]. split; [exact E|]. split.
        -- intros H. apply Hcut. lia.
        -- intros _. destruct (omap entry (take j items)) eqn:Hnil.
           ++ rewrite total_cost_app, total_cost_one. lia.
           ++ apply Hfit. discriminate.
    + destruct (IH pruned used Hused) as (j & Hj & E & Hcut & Hfit).
      exists (S j). cbn [length take lookup list_lookup].
      change (omap entry (item :: take j items))
        with (match entry item with
              | Some y => y :: omap entry (take j items)
              | None => omap entry (take j items)
              end).
      rewrite He. split; [lia|]. split; [exact E|]. split; [|exact Hfit].
      intros H. apply Hcut. lia.
Qed.

Lemma prune_loop_all max_chars items : forall pruned used,
  (used + total_cost (omap entry items) <= max_chars)%Z ->
  prune_loop float_repr max_chars items pruned used = pruned ++ omap entry items.
Proof.
  induction items as [|item items IH]; intros pruned used H; cbn [prune_loop].
  - cbn. now rewrite app_nil_r.
  - change (omap entry (item :: items))
      with (match entry item with
            | Some y => y :: omap entry items
            | None => omap entry items
            end) in *.
    destruct (entry item) as [e|].
    + cbv zeta. rewrite total_cost_cons in H.
      pose proof (total_cost_nonneg (omap entry items)).
      destruct (Z.ltb_spec max_chars (used + entry_cost e)); [lia|].
      rewrite IH by lia. now rewrite <- app_assoc.
    + now apply IH.
Qed.
End PruningFacts.

(** X19. The pruned history is empty or costs at most [max_chars], where
    an entry costs the lengths of its role and content plus 4; every role
    is [user] or [assistant]. *)
Theorem prune_history_within_budget float_repr history max_chars :
  let r := _prune_history float_repr history max_chars in
  (r = [] \/ (total_cost r <= max_chars)%Z)
  /\ Forall (fun e => fst e = "user" \/ fst e = "assistant") r.
Proof.
  destruct history as [items|]; cbn [_prune_history]; cbv zeta;
    [|split; [now left | constructor]].
  destruct (prune_loop_spec float_repr max_chars (rev items) [] 0%Z eq_refl)
    as (j & _ & -> & _ & Hfit).
  cbn [app] in *. split.
  - destruct (omap (history_entry float_repr) (take j (rev items))) as [|e l] eqn:E;
      [now left|].
    right. rewrite total_cost_rev. apply Hfit. discriminate.
  - apply List.Forall_forall. intros e He. apply in_rev in He.
    apply list_elem_of_In, list_elem_of_omap in He. destruct He as (item & _ & He).
    eapply history_entry_role. exact He.
Qed.

(** X20. The pruned history is made of the valid entries of a suffix of
    the history, in order; when the suffix is not the whole history, the
    item just before it is a valid entry that would exceed the budget. *)
Theorem prune_history_keeps_suffix float_repr items max_chars :
  let r := _prune_history float_repr (Some items) max_chars in
  exists k,
    r = omap (history_entry float_repr) (drop k items)
    /\ (k = 0
        \/ exists item e,
             items !! (k - 1) = Some item
             /\ history_entry float_repr item = Some e
             /\ (max_chars < total_cost r + entry_cost e)%Z).
Proof.
  cbn [_prune_history]. cbv zeta.
  destruct (prune_loop_spec float_repr max_chars (rev items) [] 0%Z eq_refl)
    as (j & Hj & -> & Hcut & _).
  cbn [app] in *. rewrite length_rev in *.
  exists (length items - j). rewrite omap_rev. rewrite firstn_rev, rev_involutive.
  split; [reflexivity|].
  destruct (decide (j < length items)) as [Hlt|Hge]; [right | left; lia].
  destruct (Hcut Hlt) as (item & e & Hitem & He & Hover).
  exists item, e. split; [|split; [exact He|]].
  - rewrite rev_alt in Hitem. change (rev_append items []) with (reverse items) in Hitem.
    rewrite reverse_lookup in Hitem by lia.
    replace (length items - j - 1) with (length items - S j) by lia. exact Hitem.
  - rewrite firstn_rev, <- omap_rev, total_cost_rev in Hover. exact Hover.
Qed.

(** X21. When the valid entries of the history fit the budget together,
    pruning keeps them all. *)
Theorem prune_history_keeps_all float_repr items max_chars :
  (total_cost (omap (history_entry float_repr) items) <= max_chars)%Z ->
  _prune_history float_repr (Some items) max_chars
  = omap (history_entry float_repr) items.
Proof.
  intros H. cbn [_prune_history]. rewrite prune_loop_all.
  - cbn [app]. now rewrite omap_rev, rev_involutive.
  - rewrite <- omap_rev, total_cost_rev. lia.
Qed.

Lemma prune_history_keeps_all_witness :
  (total_cost (omap (history_entry Cases.no_repr) Cases.talk) <= 48)%Z
  /\ _prune_history Cases.no_repr (Some Cases.talk) 48
     = omap (history_entry Cases.no_repr) Cases.talk.
Proof.
  split; [vm_compute; discriminate|].
  apply (prune_history_keeps_all Cases.no_repr Cases.talk 48).
  vm_compute. discriminate.
Defined.

(* ------------------------------------------------------------------ *)
(** ** The classifier and the case of letters *)

Lemma isspace_lower_char (c : ascii) : Text.isspace (Text.lower_char c) = Text.isspace c.
Proof. destruct c as [[] [] [] [] [] [] [] []]; reflexivity. Qed.

Lemma lower_char_idem (c : ascii) : Text.lower_char (Text.lower_char c) = Text.lower_char c.
Proof. destruct c as [[] [] [] [] [] [] [] []]; reflexivity. Qed.

Lemma lower_idem (s : string) : Text.lower (Text.lower s) = Text.lower s.
Proof.
  induction s as [|c s IH]; [reflexivity|].
  cbn [Text.lower]. now rewrite lower_char_idem, IH.
Qed.

Lemma split_aux_lower_length (s : string) : forall cur cur',
  Text.is_empty cur = Text.is_empty cur' ->
  length (Text.split_aux cur (Text.lower s)) = length (Text.split_aux cur' s).
Proof.
  induction s as [|c s IH]; intros cur cur' H; cbn [Text.lower Text.split_aux].
  - rewrite H. now destruct (Text.is_empty cur').
  - rewrite isspace_lower_char. destruct (Text.isspace c).
    + rewrite H. destruct (Text.is_empty cur'); cbn [length];
        now rewrite (IH EmptyString EmptyString eq_refl).
    + apply IH. reflexivity.
Qed.

Lemma word_count_lower (s : string) :
  Classifier.word_count (Text.lower s) = Classifier.word_count s.
Proof. apply split_aux_lower_length. reflexivity. Qed.

(** X22. Two messages that differ in the case of letters only get the
    same level, the same score and the same evidence from the
    classifier. *)
Theorem classify_ignores_case (a b : string) :
  Text.lower a = Text.lower b -> Classifier.classify a = Classifier.classify b.
Proof.
  intros H. unfold Classifier.classify. rewrite H.
  rewrite <- (word_count_lower a), <- (word_count_lower b), H. reflexivity.
Qed.

Lemma classify_ignores_case_witness :
  Text.lower "Mi Chiamo Sara" = Text.lower "mi chiamo SARA"
  /\ Classifier.classify "Mi Chiamo Sara" = Classifier.classify "mi chiamo SARA".
Proof.
  split; [reflexivity|].
  apply (classify_ignores_case "Mi Chiamo Sara" "mi chiamo SARA"). reflexivity.
Defined.

(* ------------------------------------------------------------------ *)
(** ** A manual save, exactly *)

(** X23. A manual save whose embedding and write succeed returns [True]
    and writes one record: the answer with role assistant, marked as
    manually saved, importance high, tier important, under the md5 of
    answer, conversation, tier and the second clock reading. The recency
    buffer and the message counter stay as they are, and unless the caller's
    metadata brings a [ttl], the record has no expiry. *)
Theorem manual_save_record w a c u md s e :
  embed w a = Some e ->
  upsert_ok w = true ->
  let item :=
    mkItem a
           (<["related_user_message" := VStr u]>
              (<["manually_saved" := VBool true]>
                 (<["role" := VStr "assistant"]> (default ∅ md))))
           (clock w 0) c "chat" HIGH IMPORTANT None in
  run (store_ai_response_manually w a c u md) s
  = (true,
     mkService (config s) (heap s ++ [item]) (recent_buffer s)
               (<[Hash.md5 (a +:+ "_" +:+ c +:+ "_" +:+ "important" +:+ "_"
                            +:+ Datetime.isoformat (clock w 1))
                  := mkVector e (index_metadata false item)]> (index s))
               (total_messages s) (summarized_chunks s) (events s))
  /\ (default ∅ md !! "ttl" = None ->
      match_ttl (index_metadata false item) = Done None).
Proof.
  intros He Hup item. split.
  - unfold run, store_ai_response_manually. run_monad. fields.
    change (_store_permanent w) with (store_item w false).
    erewrite store_item_exact; cycle 1.
    { fields. apply list_lookup_middle. reflexivity. }
    fields. rewrite He, Hup. reflexivity.
  - intros Hmd. unfold match_ttl, dict_get, index_metadata, item. cbn [ttl].
    unfold stored_metadata. cbn [metadata].
    rewrite lookup_union_r.
    + reflexivity.
    + rewrite lookup_omap, !lookup_insert_ne by discriminate. now rewrite Hmd.
Qed.

Lemma manual_save_record_witness :
  embed (Examples.world_at Examples.noon) "Va bene!" = Some [1%float]
  /\ upsert_ok (Examples.world_at Examples.noon) = true
  /\ let w := Examples.world_at Examples.noon in
     let s := Examples.after_ok in
     let item :=
       mkItem "Va bene!"
              (<["related_user_message" := VStr "ok"]>
                 (<["manually_saved" := VBool true]>
                    (<["role" := VStr "assistant"]>
                       (default (∅ : gmap string PyVal) None))))
              (clock w 0) "c1" "chat" HIGH IMPORTANT None in
     run (store_ai_response_manually w "Va bene!" "c1" "ok" None) s
     = (true,
        mkService (config s) (heap s ++ [item]) (recent_buffer s)
                  (<[Hash.md5 ("Va bene!" +:+ "_" +:+ "c1" +:+ "_" +:+ "important" +:+ "_"
                               +:+ Datetime.isoformat (clock w 1))
                     := mkVector [1%float] (index_metadata false item)]> (index s))
                  (total_messages s) (summarized_chunks s) (events s))
     /\ (default (∅ : gmap string PyVal) None !! "ttl" = None ->
         match_ttl (index_metadata false item) = Done None).
Proof.
  split; [reflexivity|]. split; [reflexivity|].
  apply (manual_save_record (Examples.world_at Examples.noon) "Va bene!" "c1" "ok" None
           Examples.after_ok [1%float]); reflexivity.
Defined.

(* ------------------------------------------------------------------ *)
(** ** From the store to the retrieval: the expiry of a turn *)

(** An entry of the persistent store comes from a record of the index, and
    its expiry, if it has one, was not before the clock reading taken for
    it. *)
Lemma search_permanent_record w s q conv limit m :
  In m (search_permanent w s q conv limit) ->
  exists mt v,
    m = permanent_entry mt
    /\ index s !! match_id mt = Some v
    /\ match_metadata mt = v_metadata v
    /\ (forall t, match_ttl (match_metadata mt) = Done (Some t) ->
                  exists k, (clock w k <= t)%Z).
Proof.
  unfold search_permanent. destruct (embed w q) as [e|]; [|intros []].
  destruct (index_query _ _ _ _ _) as [ms|] eqn:E; [|intros []].
  intros H. apply scan_matches_In in H. destruct H as (mt & Hin & Hm & Ht).
  destruct (index_query_record _ _ _ _ _ _ _ E Hin) as (v & Hv & _ & Hmeta).
  exists mt, v. now repeat split.
Qed.

(** X24. A turn stored with an expiry is gone from the persistent results
    once the expiry has passed: after a successful turn without facts, no
    retrieval whose clock readings are all later than the expiry returns
    the record of that turn from the persistent store. *)
Theorem stored_turn_expires cfg idx0 cs w u a c md e w' query conversation limit
        include_recent m :
  _extract_canonical_facts w u = [] ->
  embed w u = Some e ->
  upsert_ok w = true ->
  let s := steps (new_service cfg idx0) cs in
  let expiry := (clock w 1 + Datetime.timedelta_days (medium_term_ttl_days cfg))%Z in
  Datetime.fromisoformat (Datetime.isoformat expiry) = Some expiry ->
  (forall k, (expiry < clock w' k)%Z) ->
  In m (retrieve_memories w' (step s (StoreTurn w u a c md)) query conversation limit
          include_recent) ->
  m_source m = "permanent" ->
  m_id m <> Some (Hash.md5 (u +:+ "_" +:+ c +:+ "_" +:+ "medium" +:+ "_"
                            +:+ Datetime.isoformat (clock w 2))).
Proof.
  intros Hfacts He Hup s expiry Hiso Hlate Hin Hsrc Hid.
  destruct (stored_turn_record cfg idx0 cs w u a c md e Hfacts He Hup)
    as (s' & Hrun & Hidx & Httl).
  fold s in Hrun, Hidx. fold expiry in Httl.
  assert (step s (StoreTurn w u a c md) = s') as Hstep
    by (cbn [step]; now rewrite Hrun).
  rewrite Hstep in Hin.
  apply retrieve_permanent in Hin; [|exact Hsrc].
  apply search_permanent_record in Hin.
  destruct Hin as (mt & v & -> & Hv & Hmeta & Hexp).
  cbn [permanent_entry m_id] in Hid. injection Hid as Hid.
  rewrite Hidx, Hid, lookup_insert_eq in Hv. injection Hv as <-.
  cbn [v_metadata] in Hmeta.
  destruct (Hexp expiry) as [k Hk]; [|specialize (Hlate k); lia].
  rewrite Hmeta. unfold match_ttl, dict_get. rewrite Httl.
  cbn [default from_option id]. unfold truthy.
  destruct (Datetime.isoformat expiry) as [|x rest] eqn:Eiso; [discriminate|].
  cbn [Text.is_empty negb]. now rewrite Hiso.
Qed.

Lemma stored_turn_expires_witness :
  exists m,
    _extract_canonical_facts (Examples.world_at Examples.noon) "ok" = []
    /\ embed (Examples.world_at Examples.noon) "ok" = Some [1%float]
    /\ upsert_ok (Examples.world_at Examples.noon) = true
    /\ Datetime.fromisoformat (Datetime.isoformat Examples.ok_expiry)
       = Some Examples.ok_expiry
    /\ (forall k, (Examples.ok_expiry
                   < clock (Examples.world_at Examples.a_month_later) k)%Z)
    /\ In m (retrieve_memories (Examples.world_at Examples.a_month_later)
               (step (steps (new_service default_config Examples.other_index) [])
                     (StoreTurn (Examples.world_at Examples.noon) "ok" "Va bene!" "c1" None))
               "ok" None 20 false)
    /\ m_source m = "permanent"
    /\ m_id m <> Some (Hash.md5 ("ok" +:+ "_" +:+ "c1" +:+ "_" +:+ "medium" +:+ "_"
                                 +:+ Datetime.isoformat
                                       (clock (Examples.world_at Examples.noon) 2))).
Proof.
  assert (forall k, (Examples.ok_expiry
                     < clock (Examples.world_at Examples.a_month_later) k)%Z) as Hlate.
  { intros k. cbn [clock Examples.world_at].
    assert (Examples.ok_expiry < Examples.a_month_later)%Z by reflexivity. lia. }
  eexists. split; [reflexivity|]. split; [reflexivity|]. split; [reflexivity|].
  split; [vm_compute; reflexivity|]. split; [exact Hlate|].
  split; [vm_compute; left; reflexivity|]. split; [reflexivity|].
  apply (stored_turn_expires default_config Examples.other_index []
           (Examples.world_at Examples.noon) "ok" "Va bene!" "c1" None [1%float]
           (Examples.world_at Examples.a_month_later) "ok" None 20 false).
  - reflexivity.
  - reflexivity.
  - reflexivity.
  - vm_compute. reflexivity.
  - exact Hlate.
  - vm_compute. left. reflexivity.
  - reflexivity.
Defined.

(* ------------------------------------------------------------------ *)
(** ** The back end's turn without an AI client *)

Module RuleBasedFacts.
Import RuleBased.

Section Turn.
Variable capitalize : string -> string.
Variable nfkc : string -> string.

(** The extraction raises only in the two branches that read a name. *)
Lemma extraction_raises message :
_rule_based_canonical_extraction capitalize message = Raised
<-> no_word_after "mi chiamo" message = true
  \/ (Text.contains "mi chiamo" (Text.strip (Text.lower message)) = false
      /\ no_word_after ("il mio nome " +:+ String (ascii_of_N 232) EmptyString)
                       message = true).
Proof.
unfold _rule_based_canonical_extraction, no_word_after, name_after, rest_after.
set (ml := Text.strip (Text.lower message)).
destruct (Text.contains "mi chiamo" ml).
{ destruct (Text.split (Text.strip (second_part "mi chiamo" ml))); simpl.
- split; [now left | reflexivity].
- split; [discriminate | intros [H | [H _]]; discriminate]. }
simpl.
destruct (Text.contains _ ml).
{ destruct (Text.split (Text.strip (second_part _ ml))); simpl.
- split; [now right | reflexivity].
- split; [discriminate | intros [H | [_ H]]; discriminate]. }
simpl.
split; [| intros [H | [_ H]]; discriminate].
repeat match goal with
     | |- context [if ?b then _ else _] => destruct b; try discriminate
     end.
Qed.

(** The two items of one message in two worlds differ in their time
stamps only. *)
Lemma user_memory_world w1 w2 u c md i1 :
user_memory capitalize w1 u c md = Done i1 ->
exists i2, user_memory capitalize w2 u c md = Done i2
         /\ Backend.memory_id_of nfkc i2 = Backend.memory_id_of nfkc i1.
Proof.
unfold user_memory.
destruct (_rule_based_personal_check u).
- destruct (_rule_based_canonical_extraction capitalize u); [|discriminate].
intros [= <-]. eexists. split; reflexivity.
- intros [= <-]. eexists. split; reflexivity.
Qed.

(** The item of a personal message has one identifier, whatever the
conversation, the metadata and the time. *)
Lemma personal_memory_id w1 w2 u c1 c2 md1 md2 i1 :
_rule_based_personal_check u = true ->
user_memory capitalize w1 u c1 md1 = Done i1 ->
exists i2, user_memory capitalize w2 u c2 md2 = Done i2
         /\ Backend.memory_id_of nfkc i2 = Backend.memory_id_of nfkc i1.
Proof.
unfold user_memory. intros ->.
destruct (_rule_based_canonical_extraction capitalize u); [|discriminate].
intros [= <-]. eexists. split; reflexivity.
Qed.

Lemma store_memory_cases w idx item :
Backend.store_memory nfkc w idx item = (false, idx)
\/ exists v, Backend.store_memory nfkc w idx item
           = (true, <[Backend.memory_id_of nfkc item := v]> idx).
Proof.
unfold Backend.store_memory.
destruct (embed w _); [|now left].
destruct (upsert_ok w); [right; eauto | now left].
Qed.

Lemma store_memory_known w idx item :
Backend.memory_id_of nfkc item ∈ dom idx ->
dom (snd (Backend.store_memory nfkc w idx item)) = dom idx.
Proof.
intros H. destruct (store_memory_cases w idx item) as [-> | [v ->]]; [reflexivity|].
simpl. apply elem_of_dom in H. now rewrite dom_insert_lookup_L.
Qed.

End Turn.
End RuleBasedFacts.

(** X25. The back end's [store_conversation_turn] without an AI client
    raises exactly when the message counts as personal and no word
    follows its first [mi chiamo] or, without [mi chiamo], its first
    [il mio nome e-grave]: the [IndexError] of the name extraction is not
    caught, and nothing, the answer included, is stored.  In every other
    case the call returns. *)
Theorem turn_raises_exactly capitalize nfkc w idx u a c md :
  RuleBased.store_conversation_turn capitalize nfkc w idx u a c md = Raised
  <-> RuleBased._rule_based_personal_check u = true
      /\ (RuleBased.no_word_after "mi chiamo" u = true
          \/ (Text.contains "mi chiamo" (Text.strip (Text.lower u)) = false
              /\ RuleBased.no_word_after
                   ("il mio nome " +:+ String (ascii_of_N 232) EmptyString) u = true)).
Proof.
  rewrite <- (RuleBasedFacts.extraction_raises capitalize u).
  unfold RuleBased.store_conversation_turn, RuleBased.user_memory.
  destruct (RuleBased._rule_based_personal_check u).
  - destruct (RuleBased._rule_based_canonical_extraction capitalize u).
    + destruct (Backend.store_memory _ _ _ _) as [ok1 idx1].
      destruct (Backend.store_memory _ _ _ _) as [ok2 idx2].
      split; [discriminate | intros [_ H]; discriminate].
    + split; [now split | reflexivity].
  - destruct (Backend.store_memory _ _ _ _) as [ok1 idx1].
    destruct (Backend.store_memory _ _ _ _) as [ok2 idx2].
    split; [discriminate | intros [H _]; discriminate].
Qed.

(** X26. Once a turn was stored, storing the same turn again, at any
    later time and whatever the providers do then, returns and leaves the
    index with the same keys: the identifiers depend on the texts and the
    conversation only, so the records are written over. *)
Theorem turn_again_adds_nothing capitalize nfkc w w' idx u a c md :
  RuleBased.stored (RuleBased.store_conversation_turn capitalize nfkc w idx u a c md) = true ->
  exists ok idx',
    RuleBased.store_conversation_turn capitalize nfkc w'
      (RuleBased.index_after idx
         (RuleBased.store_conversation_turn capitalize nfkc w idx u a c md))
      u a c md = Done (ok, idx')
    /\ dom idx'
       = dom (RuleBased.index_after idx
                (RuleBased.store_conversation_turn capitalize nfkc w idx u a c md)).
Proof.
  unfold RuleBased.store_conversation_turn.
  destruct (RuleBased.user_memory capitalize w u c _) as [i1|] eqn:E1; [|discriminate].
  destruct (RuleBasedFacts.user_memory_world capitalize nfkc w w' _ _ _ _ E1)
    as (i2 & -> & Hid).
  destruct (RuleBasedFacts.store_memory_cases nfkc w idx i1) as [-> | [v1 ->]].
  { destruct (Backend.store_memory nfkc w idx _) as [ok2 idx2]. discriminate. }
  set (ai1 := RuleBased.ai_memory w a c _).
  set (ai2 := RuleBased.ai_memory w' a c _).
  assert (Hai : Backend.memory_id_of nfkc ai2 = Backend.memory_id_of nfkc ai1)
    by reflexivity.
  destruct (RuleBasedFacts.store_memory_cases nfkc w
              (<[Backend.memory_id_of nfkc i1 := v1]> idx) ai1) as [-> | [v2 ->]];
    [discriminate|].
  intros _. cbn [RuleBased.index_after].
  set (idx1 := <[Backend.memory_id_of nfkc ai1 := v2]>
                 (<[Backend.memory_id_of nfkc i1 := v1]> idx)).
  assert (H1 : Backend.memory_id_of nfkc i2 ∈ dom idx1).
  { rewrite Hid. unfold idx1. rewrite !dom_insert_L.
    apply elem_of_union_r, elem_of_union_l, elem_of_singleton. reflexivity. }
  pose proof (RuleBasedFacts.store_memory_known nfkc w' idx1 i2 H1) as D1.
  destruct (Backend.store_memory nfkc w' idx1 i2) as [ok1 idx2]. simpl in D1.
  assert (H2 : Backend.memory_id_of nfkc ai2 ∈ dom idx2).
  { rewrite Hai, D1. unfold idx1. rewrite !dom_insert_L.
    apply elem_of_union_l, elem_of_singleton. reflexivity. }
  pose proof (RuleBasedFacts.store_memory_known nfkc w' idx2 ai2 H2) as D2.
  destruct (Backend.store_memory nfkc w' idx2 ai2) as [ok2 idx3]. simpl in D2.
  exists (ok1 && ok2), idx3. split; [reflexivity | congruence].
Qed.

Lemma turn_again_adds_nothing_witness :
  RuleBased.stored
    (RuleBased.store_conversation_turn Cases.capitalize Cases.plain
       (Examples.world_at Examples.noon) ∅ "Mi chiamo Sara" "Ciao Sara" "c1" None) = true
  /\ exists ok idx',
       RuleBased.store_conversation_turn Cases.capitalize Cases.plain
         (Cases.offline_at Examples.ok_expiry)
         (RuleBased.index_after ∅
            (RuleBased.store_conversation_turn Cases.capitalize Cases.plain
               (Examples.world_at Examples.noon) ∅ "Mi chiamo Sara" "Ciao Sara" "c1" None))
         "Mi chiamo Sara" "Ciao Sara" "c1" None = Done (ok, idx')
       /\ dom idx'
          = dom (RuleBased.index_after ∅
                   (RuleBased.store_conversation_turn Cases.capitalize Cases.plain
                      (Examples.world_at Examples.noon) ∅
                      "Mi chiamo Sara" "Ciao Sara" "c1" None)).
Proof.
  split; [vm_compute; reflexivity|].
  apply (turn_again_adds_nothing Cases.capitalize Cases.plain
           (Examples.world_at Examples.noon) (Cases.offline_at Examples.ok_expiry)
           ∅ "Mi chiamo Sara" "Ciao Sara" "c1" None).
  vm_compute; reflexivity.
Defined.

(** X27. A personal message is stored under one key for all
    conversations: after a stored turn with a personal message, a turn
    with the same message in any conversation, with any answer and
    metadata, adds at most the key of its answer. *)
Theorem personal_fact_stored_once capitalize nfkc w w' idx u a a' c c' md md' :
  RuleBased._rule_based_personal_check u = true ->
  RuleBased.stored (RuleBased.store_conversation_turn capitalize nfkc w idx u a c md) = true ->
  dom (RuleBased.index_after
         (RuleBased.index_after idx
            (RuleBased.store_conversation_turn capitalize nfkc w idx u a c md))
         (RuleBased.store_conversation_turn capitalize nfkc w'
            (RuleBased.index_after idx
               (RuleBased.store_conversation_turn capitalize nfkc w idx u a c md))
            u a' c' md'))
  ⊆ dom (RuleBased.index_after idx
           (RuleBased.store_conversation_turn capitalize nfkc w idx u a c md))
    ∪ {[ Backend.memory_id_of nfkc (RuleBased.ai_memory w' a' c' (default ∅ md')) ]}.
Proof.
  intros Hp. unfold RuleBased.store_conversation_turn.
  destruct (RuleBased.user_memory capitalize w u c _) as [i1|] eqn:E1; [|discriminate].
  destruct (RuleBasedFacts.personal_memory_id capitalize nfkc w w' u c c'
              (default ∅ md) (default ∅ md') i1 Hp E1) as (i2 & -> & Hid).
  destruct (RuleBasedFacts.store_memory_cases nfkc w idx i1) as [-> | [v1 ->]].
  { destruct (Backend.store_memory nfkc w idx _) as [ok2 idx2]. discriminate. }
  destruct (RuleBasedFacts.store_memory_cases nfkc w
              (<[Backend.memory_id_of nfkc i1 := v1]> idx)
              (RuleBased.ai_memory w a c (default ∅ md))) as [-> | [v2 ->]];
    [discriminate|].
  intros _. cbn [RuleBased.index_after].
  set (idx1 := <[_ := v2]> (<[Backend.memory_id_of nfkc i1 := v1]> idx)).
  assert (H1 : Backend.memory_id_of nfkc i2 ∈ dom idx1).
  { rewrite Hid. unfold idx1. rewrite !dom_insert_L.
    apply elem_of_union_r, elem_of_union_l, elem_of_singleton. reflexivity. }
  pose proof (RuleBasedFacts.store_memory_known nfkc w' idx1 i2 H1) as D1.
  destruct (Backend.store_memory nfkc w' idx1 i2) as [ok1 idx2]. simpl in D1.
  set (ai2 := RuleBased.ai_memory w' a' c' _).
  destruct (RuleBasedFacts.store_memory_cases nfkc w' idx2 ai2) as [-> | [v3 ->]];
    cbn [RuleBased.index_after].
  - rewrite D1. apply union_subseteq_l.
  - rewrite dom_insert_L, D1. rewrite (comm_L (∪)). reflexivity.
Qed.

Lemma personal_fact_stored_once_witness :
  RuleBased._rule_based_personal_check "Mi chiamo Sara" = true
  /\ RuleBased.stored
       (RuleBased.store_conversation_turn Cases.capitalize Cases.plain
          (Examples.world_at Examples.noon) ∅ "Mi chiamo Sara" "Ciao Sara" "c1" None) = true
  /\ dom (RuleBased.index_after
            (RuleBased.index_after ∅
               (RuleBased.store_conversation_turn Cases.capitalize Cases.plain
                  (Examples.world_at Examples.noon) ∅
                  "Mi chiamo Sara" "Ciao Sara" "c1" None))
            (RuleBased.store_conversation_turn Cases.capitalize Cases.plain
               (Examples.world_at Examples.ok_expiry)
               (RuleBased.index_after ∅
                  (RuleBased.store_conversation_turn Cases.capitalize Cases.plain
                     (Examples.world_at Examples.noon) ∅
                     "Mi chiamo Sara" "Ciao Sara" "c1" None))
               "Mi chiamo Sara" "Piacere" "c2" None))
     ⊆ dom (RuleBased.index_after ∅
              (RuleBased.store_conversation_turn Cases.capitalize Cases.plain
                 (Examples.world_at Examples.noon) ∅
                 "Mi chiamo Sara" "Ciao Sara" "c1" None))
       ∪ {[ Backend.memory_id_of Cases.plain
              (RuleBased.ai_memory (Examples.world_at Examples.ok_expiry)
                 "Piacere" "c2" (default ∅ None)) ]}.
Proof.
  split; [vm_compute; reflexivity|].
  split; [vm_compute; reflexivity|].
  apply (personal_fact_stored_once Cases.capitalize Cases.plain
           (Examples.world_at Examples.noon) (Examples.world_at Examples.ok_expiry)
           ∅ "Mi chiamo Sara" "Ciao Sara" "Piacere" "c1" "c2" None None);
    vm_compute; reflexivity.
Defined.

(** The message [Mi chiamo] alone: the call raises. *)
Example turn_raises_on_bare_pattern :
  RuleBased.store_conversation_turn Cases.capitalize Cases.plain
    (Examples.world_at Examples.noon) ∅ "Mi chiamo" "Come ti chiami?" "c1" None = Raised.
Proof. vm_compute. reflexivity. Qed.
